(** * OrthoBatch: a shallow embedding of [__init__.py] and its properties

    OrthoBatch is a Blender add-on that photographs a batch of models with an
    orthographic camera.  This development embeds the parts of [__init__.py]
    that decide file discovery and ordering ([ModelPath], [getAllModelPaths],
    [sorted]), export naming ([imageExportPath]), the resolution policy of
    [shoottarget], the tiled [render], and the orchestration in [main]
    (import loop, save and restore of render visibility and backface culling).

    Modelling conventions.
    - Python [int] is [Z]; Python [float] is idealised as an exact rational
      [Q] (no rounding), [math.ceil] is [Qceiling], and [/] raises
      [ZeroDivisionError] on a zero divisor.
    - Python [str] is [string] (sequences of 8-bit characters); [lower] acts on
      the ASCII letters.
    - [os.sep] and [os.path.join] depend on the platform Blender runs on; both
      [posixpath] and [ntpath] are modelled ([ntpath] without UNC drives).
    - Exceptions are values of [result]; the Blender scene, the materials and
      the render settings are an explicit [World] threaded through the code.
    - The host operations ([bpy.ops.*]) are modelled by their effect on the
      [World]: a render appends the settings in force to [rendered], an
      import adds the objects the importer yields for that file.
    - The render resolution is an integer without bounds: the limits Blender
      puts on [resolution_x] and [resolution_y] are not modelled. *)

From Stdlib Require Import ZArith QArith Qround Lia Lqa String Ascii List DecimalString.
From Stdlib Require DecimalZ.
From stdpp Require Import base gmap strings list sorting.
Import ListNotations.
Open Scope Z_scope.

(** ** Exceptions *)

Inductive exception :=
| ZeroDivisionError
| AttributeError (msg : string)
| HostError (msg : string).

Inductive result (A : Type) :=
| Ok (a : A)
| Raise (e : exception).
Arguments Ok {A} a.
Arguments Raise {A} e.

Definition bind {A B} (r : result A) (k : A -> result B) : result B :=
  match r with
  | Ok a => k a
  | Raise e => Raise e
  end.

Notation "'do' x <- r ; k" := (bind r (fun x => k))
  (at level 10, x name, r at level 100, k at level 200).

(** [str(error)] as used in the messages of [tryImport] and [main]. *)
Definition str_of_exception (e : exception) : string :=
  match e with
  | ZeroDivisionError => "float division by zero"
  | AttributeError msg => msg
  | HostError msg => msg
  end.

(** ** Python built-ins on strings and numbers *)

Module Py.

Definition char_in (c : ascii) (chars : string) : bool :=
  existsb (Ascii.eqb c) (list_ascii_of_string chars).

(** A slice bound as Python normalises it: negative bounds count from the
    end, and every bound is clamped to the string. *)
Definition norm_index (len i : Z) : Z :=
  if i <? 0 then Z.max 0 (i + len) else Z.min i len.

(** [s[start:stop]]; [None] is an omitted bound. *)
Definition slice (s : string) (start stop : option Z) : string :=
  let len := Z.of_nat (String.length s) in
  let lo := match start with None => 0 | Some i => norm_index len i end in
  let hi := match stop with None => len | Some i => norm_index len i end in
  substring (Z.to_nat lo) (Z.to_nat (hi - lo)) s.

Fixpoint find_from (sub s : string) (i : Z) : Z :=
  if String.prefix sub s then i
  else match s with
       | EmptyString => -1
       | String _ s' => find_from sub s' (i + 1)
       end.

(** [s.find(sub)]: the first index of [sub], or [-1]. *)
Definition find (s sub : string) : Z := find_from sub s 0.

Fixpoint rfind_from (sub s : string) (i : Z) : Z :=
  match s with
  | EmptyString => if String.prefix sub s then i else -1
  | String _ s' =>
      let r := rfind_from sub s' (i + 1) in
      if 0 <=? r then r else if String.prefix sub s then i else -1
  end.

(** [s.rfind(sub)]: the last index of [sub], or [-1]. *)
Definition rfind (s sub : string) : Z := rfind_from sub s 0.

Fixpoint lstrip (chars s : string) : string :=
  match s with
  | EmptyString => EmptyString
  | String c s' => if char_in c chars then lstrip chars s' else s
  end.

Fixpoint rstrip (chars s : string) : string :=
  match s with
  | EmptyString => EmptyString
  | String c s' =>
      match rstrip chars s' with
      | EmptyString => if char_in c chars then EmptyString else String c EmptyString
      | r => String c r
      end
  end.

(** [s.strip(chars)] *)
Definition strip (s chars : string) : string := rstrip chars (lstrip chars s).

(** [s.endswith(suffix)] *)
Definition endswith (s suffix : string) : bool :=
  let n := String.length s in
  let k := String.length suffix in
  (k <=? n)%nat && String.eqb (substring (n - k) k s) suffix.

(** [s.endswith(tuple)]: true when one member of the tuple is a suffix. *)
Definition endswith_any (s : string) (suffixes : list string) : bool :=
  existsb (endswith s) suffixes.

(** [s.startswith(prefix)] *)
Definition startswith (s pre : string) : bool := String.prefix pre s.

(** [s.split(sep)] for a one-character separator: never the empty list. *)
Fixpoint split (s : string) (sep : ascii) : list string :=
  match s with
  | EmptyString => [EmptyString]
  | String c s' =>
      if Ascii.eqb c sep then EmptyString :: split s' sep
      else match split s' sep with
           | h :: t => String c h :: t
           | [] => [String c EmptyString]
           end
  end.

(** [s.replace(old, new)] for a one-character [old]. *)
Fixpoint replace (s : string) (old : ascii) (new : string) : string :=
  match s with
  | EmptyString => EmptyString
  | String c s' =>
      if Ascii.eqb c old then new +:+ replace s' old new
      else String c (replace s' old new)
  end.

Definition lower_char (c : ascii) : ascii :=
  let n := nat_of_ascii c in
  if ((65 <=? n) && (n <=? 90))%nat then ascii_of_nat (n + 32) else c.

(** [s.lower()] *)
Fixpoint lower (s : string) : string :=
  match s with
  | EmptyString => EmptyString
  | String c s' => String (lower_char c) (lower s')
  end.

(** [a < b] on [str]: lexicographic on character codes. *)
Definition str_lt (a b : string) : bool := String.ltb a b.

(** [str(n)] and ["{}".format(n)] for an [int]. *)
Definition str_of_int (n : Z) : string := NilEmpty.string_of_int (Z.to_int n).

(** [l[-1]]: the last element ([IndexError] on the empty list is [None]). *)
Definition last_item {A} (l : list A) : option A := List.last (map Some l) None.

(** [range(n)] *)
Definition range (n : Z) : list Z := map Z.of_nat (seq 0 (Z.to_nat n)).

(** [max(a, b)] on numbers: the first argument unless the second is greater. *)
Definition max (a b : Q) : Q := if Qlt_le_dec a b then b else a.

(** [a / b] (true division) *)
Definition div (a b : Q) : result Q :=
  if Qeq_bool b 0 then Raise ZeroDivisionError else Ok (a / b)%Q.

(** [math.ceil] *)
Definition ceil (x : Q) : Z := Qceiling x.

(** [l[i:]] and [l[:n]] on lists, for bounds that are not negative. *)
Definition list_from {A} (i : nat) (l : list A) : list A := skipn i l.
Definition list_upto {A} (n : nat) (l : list A) : list A := firstn n l.

End Py.

(** ** [os.sep] and [os.path.join] *)

Inductive platform := Posix | Windows.

Module os.

Definition sep (pl : platform) : ascii :=
  match pl with
  | Posix => "/"%char
  | Windows => "\"%char
  end.

Definition sep_str (pl : platform) : string := String (sep pl) EmptyString.

(** [posixpath.join]: one step of its loop. *)
Definition posix_join_step (path b : string) : string :=
  if Py.startswith b "/" then b
  else if String.eqb path EmptyString || Py.endswith path "/" then path +:+ b
  else path +:+ "/" +:+ b.

(** [ntpath.splitdrive] for drive-letter paths. *)
Definition nt_splitdrive (p : string) : string * string :=
  if (2 <=? String.length p)%nat && String.eqb (substring 1 1 p) ":"
  then (substring 0 2 p, substring 2 (String.length p - 2) p)
  else (EmptyString, p).

Definition nt_is_sep (c : ascii) : bool := Py.char_in c "\/".

Definition starts_with_nt_sep (p : string) : bool :=
  match p with
  | String c _ => nt_is_sep c
  | EmptyString => false
  end.

Definition ends_with_nt_sep (p : string) : bool :=
  match Py.slice p (Some (-1)) None with
  | String c _ => nt_is_sep c
  | EmptyString => false
  end.

(** [ntpath.join]: one step of its loop on the pair (drive, path). *)
Definition nt_join_step (acc : string * string) (p : string) : string * string :=
  let '(result_drive, result_path) := acc in
  let '(p_drive, p_path) := nt_splitdrive p in
  if starts_with_nt_sep p_path then
    (if negb (String.eqb p_drive EmptyString) || String.eqb result_drive EmptyString
     then p_drive else result_drive, p_path)
  else if negb (String.eqb p_drive EmptyString) && negb (String.eqb p_drive result_drive)
          && negb (String.eqb (Py.lower p_drive) (Py.lower result_drive))
  then (p_drive, p_path)
  else
    let result_drive :=
      if negb (String.eqb p_drive EmptyString) && negb (String.eqb p_drive result_drive)
      then p_drive else result_drive in
    let result_path :=
      if negb (String.eqb result_path EmptyString) && negb (ends_with_nt_sep result_path)
      then result_path +:+ "\" else result_path in
    (result_drive, result_path +:+ p_path).

(** [os.path.join(path, *paths)] *)
Definition path_join (pl : platform) (path : string) (paths : list string) : string :=
  match pl with
  | Posix => fold_left posix_join_step paths path
  | Windows =>
      let '(d, p) := fold_left nt_join_step paths (nt_splitdrive path) in d +:+ p
  end.

End os.

(** ** The settings on [bpy.types.WindowManager] *)

Inductive scaleMode := uniformscale | samesize.
Inductive maxImgSize :=
| size256 | size512 | size1024 | size2048 | size4096 | size8192 | size16384
| size_other.
Inductive imgDivideMode := reduceres | evensize | maxsize.
Inductive importMode := currentfile | currentfile_selected | folder.
Inductive exportPathMode := flatten | keeppath | flatten_foldername | flatten_pathname.
Inductive exportNameMode := prepend | append.
Inductive shootDirection := dir_X | dir_negX | dir_Y | dir_negY | dir_Z | dir_negZ.

(** The identifier of an enum item of [orthobatch_shootDirections]. *)
Definition direction_str (d : shootDirection) : string :=
  match d with
  | dir_X => "X" | dir_negX => "-X"
  | dir_Y => "Y" | dir_negY => "-Y"
  | dir_Z => "Z" | dir_negZ => "-Z"
  end.

(** [bpy.context.window_manager]: the values of the session.  The properties
    declared with [min = 0] or [min = 1] are natural numbers. *)
Record WindowManager := {
  orthobatch_scaleMode : scaleMode;
  orthobatch_imgSize : Z;
  orthobatch_maxImgSize : maxImgSize;
  orthobatch_maxImgSize_other : Z;
  orthobatch_imgDivideMode : imgDivideMode;
  orthobatch_imgPadding : Q;
  orthobatch_sourcePath : string;
  orthobatch_exportPath : string;
  orthobatch_importMode : importMode;
  orthobatch_limitSearch : bool;
  orthobatch_overrideStartSearch : bool;
  orthobatch_startSearch : nat;
  orthobatch_maxFiles : nat;
  orthobatch_exportPathMode : exportPathMode;
  orthobatch_exportNameMode : exportNameMode;
  orthobatch_shootDirections : list shootDirection;
  orthobatch_backCulling : bool
}.

Definition set_sourcePath (wm : WindowManager) (p : string) : WindowManager :=
  {| orthobatch_scaleMode := orthobatch_scaleMode wm;
     orthobatch_imgSize := orthobatch_imgSize wm;
     orthobatch_maxImgSize := orthobatch_maxImgSize wm;
     orthobatch_maxImgSize_other := orthobatch_maxImgSize_other wm;
     orthobatch_imgDivideMode := orthobatch_imgDivideMode wm;
     orthobatch_imgPadding := orthobatch_imgPadding wm;
     orthobatch_sourcePath := p;
     orthobatch_exportPath := orthobatch_exportPath wm;
     orthobatch_importMode := orthobatch_importMode wm;
     orthobatch_limitSearch := orthobatch_limitSearch wm;
     orthobatch_overrideStartSearch := orthobatch_overrideStartSearch wm;
     orthobatch_startSearch := orthobatch_startSearch wm;
     orthobatch_maxFiles := orthobatch_maxFiles wm;
     orthobatch_exportPathMode := orthobatch_exportPathMode wm;
     orthobatch_exportNameMode := orthobatch_exportNameMode wm;
     orthobatch_shootDirections := orthobatch_shootDirections wm;
     orthobatch_backCulling := orthobatch_backCulling wm |}.

Definition set_overrideStartSearch (wm : WindowManager) (b : bool) : WindowManager :=
  {| orthobatch_scaleMode := orthobatch_scaleMode wm;
     orthobatch_imgSize := orthobatch_imgSize wm;
     orthobatch_maxImgSize := orthobatch_maxImgSize wm;
     orthobatch_maxImgSize_other := orthobatch_maxImgSize_other wm;
     orthobatch_imgDivideMode := orthobatch_imgDivideMode wm;
     orthobatch_imgPadding := orthobatch_imgPadding wm;
     orthobatch_sourcePath := orthobatch_sourcePath wm;
     orthobatch_exportPath := orthobatch_exportPath wm;
     orthobatch_importMode := orthobatch_importMode wm;
     orthobatch_limitSearch := orthobatch_limitSearch wm;
     orthobatch_overrideStartSearch := b;
     orthobatch_startSearch := orthobatch_startSearch wm;
     orthobatch_maxFiles := orthobatch_maxFiles wm;
     orthobatch_exportPathMode := orthobatch_exportPathMode wm;
     orthobatch_exportNameMode := orthobatch_exportNameMode wm;
     orthobatch_shootDirections := orthobatch_shootDirections wm;
     orthobatch_backCulling := orthobatch_backCulling wm |}.

(** What the attributes of the class [bpy.types.WindowManager] hold.  The
    module assigns the value of [bpy.props.BoolProperty(...)], a property
    definition, to [bpy.types.WindowManager.orthobatch_overrideStartSearch];
    the session's value lives on [bpy.context.window_manager] instead. *)
Inductive py_value :=
| PropertyDefinition (name description : string) (default : bool)
| PyBool (b : bool).

(** Truth value of an object in an [if]: a property definition defines
    neither [__bool__] nor [__len__], so it is true. *)
Definition truthy (v : py_value) : bool :=
  match v with
  | PropertyDefinition _ _ _ => true
  | PyBool b => b
  end.

Module bpy_types_WindowManager.
Definition orthobatch_overrideStartSearch : py_value :=
  PropertyDefinition "Start after first model"
    "If true, only import models after the chosen index" false.
End bpy_types_WindowManager.

Definition VALID_IMPORT_EXTENSIONS : list string := [".glb"; ".gltf"; ".obj"; ".fbx"].

(** ** [class ModelPath] *)

Record ModelPath := {
  filename : string;
  name : string;
  extension : string;
  filepath : string;
  subpath : string;
  sourcepathused : string;
  pathminusfilename : string
}.

Module ModelPathM.

(** [ModelPath.__init__] *)
Definition __init__ (pl : platform) (filename filepath sourcepathused : string) : ModelPath :=
  let name := Py.slice filename None (Some (Py.rfind filename ".")) in
  let extension := Py.slice filename (Some (Py.rfind filename "." + 1)) None in
  let sourcepathused := Py.strip sourcepathused "\" in
  let subpath :=
    Py.slice filepath (Some (Z.of_nat (String.length sourcepathused)))
                      (Some (Py.find filepath filename)) in
  let subpath := Py.strip subpath "\" in
  {| filename := filename;
     name := name;
     extension := extension;
     filepath := filepath;
     subpath := subpath;
     sourcepathused := sourcepathused;
     pathminusfilename := os.path_join pl sourcepathused [subpath] |}.

(** [ModelPath.__str__] *)
Definition __str__ (self : ModelPath) : string := filepath self.

(** [ModelPath.__eq__] *)
Definition __eq__ (self other : ModelPath) : bool :=
  String.eqb (Py.lower (filepath self)) (Py.lower (filepath other)).

(** [ModelPath.__lt__]: "Sort by path length, then alphabetically". *)
Definition __lt__ (pl : platform) (self other : ModelPath) : bool :=
  let selffoldercount := length (Py.split (pathminusfilename self) (os.sep pl)) in
  let otherfoldercount := length (Py.split (pathminusfilename other) (os.sep pl)) in
  if (selffoldercount =? otherfoldercount)%nat
  then Py.str_lt (Py.lower (filename self)) (Py.lower (filename other))
  else (selffoldercount <? otherfoldercount)%nat.

(** [ModelPath.suffixName] *)
Definition suffixName (suffix name : string) (mode : exportNameMode) : string :=
  match mode with
  | prepend => suffix +:+ "_" +:+ name
  | append => name +:+ "_" +:+ suffix
  end.

(** The local [subpathtrimmed] of [imageExportPath]: [subpath] without one
    trailing separator. *)
Definition subpathtrimmed (pl : platform) (self : ModelPath) : string :=
  if Py.endswith (subpath self) (os.sep_str pl)
  then Py.slice (subpath self) None (Some (-1))
  else subpath self.

(** [ModelPath.imageExportPath] *)
Definition imageExportPath (pl : platform) (self : ModelPath) (direction exportpath : string)
    (exportpathmode : exportPathMode) (exportNameMode : exportNameMode) : string :=
  let subpathtrimmed := subpathtrimmed pl self in
  match exportpathmode with
  | keeppath =>
      os.path_join pl exportpath
        [subpathtrimmed; suffixName direction (name self) exportNameMode]
  | flatten =>
      os.path_join pl exportpath [suffixName direction (name self) exportNameMode]
  | flatten_pathname =>
      os.path_join pl exportpath
        [suffixName direction
           (Py.replace subpathtrimmed (os.sep pl) "_" +:+ "_" +:+ name self)
           exportNameMode]
  | flatten_foldername =>
      os.path_join pl exportpath
        [suffixName direction
           (default EmptyString (Py.last_item (Py.split subpathtrimmed (os.sep pl))))
           exportNameMode]
  end.

End ModelPathM.

(** ** [sorted] *)

(** [sorted(l)] compares with [<] only and is stable.  It is modelled as the
    insertion sort CPython runs on short lists: every element goes after the
    elements that are not greater than it. *)
Section Sorted.
Context {A : Type} (lt : A -> A -> bool).

Fixpoint insert_sorted (x : A) (l : list A) : list A :=
  match l with
  | [] => [x]
  | y :: l' => if lt x y then x :: y :: l' else y :: insert_sorted x l'
  end.

Definition sorted (l : list A) : list A :=
  fold_left (fun acc x => insert_sorted x acc) l [].
End Sorted.

(** ** The file system under the source directory, and [os.walk] *)

(** A directory: its name, its files and its subdirectories, in the order
    the operating system lists them.  The name of the root is not used: the
    walk starts from the path it is given. *)
#[warnings="-register-all"]
Inductive fsnode := Folder (dname : string) (files : list string) (dirs : list fsnode).

Definition fs_name (d : fsnode) : string := match d with Folder n _ _ => n end.

(** [os.walk(top)], top-down: the triples [(dirpath, dirnames, filenames)]. *)
Fixpoint os_walk (pl : platform) (top : string) (d : fsnode)
    : list (string * list string * list string) :=
  match d with
  | Folder _ files dirs =>
      (top, map fs_name dirs, files)
      :: (fix walk_dirs (ds : list fsnode) :=
            match ds with
            | [] => []
            | sub :: ds' =>
                os_walk pl (os.path_join pl top [fs_name sub]) sub ++ walk_dirs ds'
            end) dirs
  end.

(** [getAllModelPaths] *)
Definition getAllModelPaths (pl : platform) (tree : fsnode) (basepath : string)
    (extensions : list string) : list ModelPath :=
  let extensions_tuple := extensions in
  fold_left
    (fun modelpaths '(subdir, _, files) =>
       fold_left
         (fun modelpaths file =>
            if Py.endswith_any file extensions_tuple
            then modelpaths ++
                 [ModelPathM.__init__ pl file (os.path_join pl basepath [subdir; file]) basepath]
            else modelpaths)
         files modelpaths)
    (os_walk pl basepath tree) [].

(** ** The Blender scene *)

Inductive object_type := MESH | CAMERA | OTHER.

(** A scene object.  [materials] are the material slots of [object.data]:
    references into [bpy.data.materials], [None] for an empty slot.
    [dimensions] are the world-space dimensions [(x, y, z)]. *)
Record Object := {
  obj_name : string;
  obj_type : object_type;
  hide_render : bool;
  selectable : bool;
  selected : bool;
  dimensions : Q * Q * Q;
  materials : list (option nat)
}.

Definition set_hide_render (b : bool) (o : Object) : Object :=
  {| obj_name := obj_name o; obj_type := obj_type o; hide_render := b;
     selectable := selectable o; selected := selected o;
     dimensions := dimensions o; materials := materials o |}.

Definition select_set (b : bool) (o : Object) : Object :=
  {| obj_name := obj_name o; obj_type := obj_type o; hide_render := hide_render o;
     selectable := selectable o; selected := b;
     dimensions := dimensions o; materials := materials o |}.

(** [bpy.context.scene.render] *)
Record RenderSettings := {
  resolution_x : Z;
  resolution_y : Z;
  use_border : bool;
  use_crop_to_border : bool;
  border_min_x : Q;
  border_max_x : Q;
  border_min_y : Q;
  border_max_y : Q;
  render_filepath : string
}.

Definition set_resolution (x y : Z) (r : RenderSettings) : RenderSettings :=
  {| resolution_x := x; resolution_y := y;
     use_border := use_border r; use_crop_to_border := use_crop_to_border r;
     border_min_x := border_min_x r; border_max_x := border_max_x r;
     border_min_y := border_min_y r; border_max_y := border_max_y r;
     render_filepath := render_filepath r |}.

Definition set_use_border (b c : bool) (r : RenderSettings) : RenderSettings :=
  {| resolution_x := resolution_x r; resolution_y := resolution_y r;
     use_border := b; use_crop_to_border := c;
     border_min_x := border_min_x r; border_max_x := border_max_x r;
     border_min_y := border_min_y r; border_max_y := border_max_y r;
     render_filepath := render_filepath r |}.

Definition set_border (x0 x1 y0 y1 : Q) (r : RenderSettings) : RenderSettings :=
  {| resolution_x := resolution_x r; resolution_y := resolution_y r;
     use_border := use_border r; use_crop_to_border := use_crop_to_border r;
     border_min_x := x0; border_max_x := x1;
     border_min_y := y0; border_max_y := y1;
     render_filepath := render_filepath r |}.

Definition set_filepath (p : string) (r : RenderSettings) : RenderSettings :=
  {| resolution_x := resolution_x r; resolution_y := resolution_y r;
     use_border := use_border r; use_crop_to_border := use_crop_to_border r;
     border_min_x := border_min_x r; border_max_x := border_max_x r;
     border_min_y := border_min_y r; border_max_y := border_max_y r;
     render_filepath := p |}.

(** What [ShowMessageBox] is called with. *)
Inductive message :=
| Aborting (why : string)
| ImportReport (successes fails : list (string * string))
| ErrorOccurred (e : exception).

(** The mutable state of a run: the scene objects by identity, the flag
    [use_backface_culling] of every material of [bpy.data.materials], the
    active object, the render settings, the settings each call of
    [bpy.ops.render.render] ran with, and the messages shown. *)
Record World := {
  objects : gmap nat Object;
  next_id : nat;
  culling : gmap nat bool;
  active_object : option nat;
  render_settings : RenderSettings;
  rendered : list RenderSettings;
  messages : list message
}.

Definition with_objects (f : gmap nat Object -> gmap nat Object) (w : World) : World :=
  {| objects := f (objects w); next_id := next_id w; culling := culling w;
     active_object := active_object w; render_settings := render_settings w;
     rendered := rendered w; messages := messages w |}.

Definition with_culling (f : gmap nat bool -> gmap nat bool) (w : World) : World :=
  {| objects := objects w; next_id := next_id w; culling := f (culling w);
     active_object := active_object w; render_settings := render_settings w;
     rendered := rendered w; messages := messages w |}.

Definition with_render (f : RenderSettings -> RenderSettings) (w : World) : World :=
  {| objects := objects w; next_id := next_id w; culling := culling w;
     active_object := active_object w; render_settings := f (render_settings w);
     rendered := rendered w; messages := messages w |}.

Definition with_active (a : option nat) (w : World) : World :=
  {| objects := objects w; next_id := next_id w; culling := culling w;
     active_object := a; render_settings := render_settings w;
     rendered := rendered w; messages := messages w |}.

(** [ShowMessageBox] *)
Definition ShowMessageBox (m : message) (w : World) : World :=
  {| objects := objects w; next_id := next_id w; culling := culling w;
     active_object := active_object w; render_settings := render_settings w;
     rendered := rendered w; messages := messages w ++ [m] |}.

(** Linking a new object to the scene: it gets a fresh identity. *)
Definition link_object (o : Object) (w : World) : nat * World :=
  (next_id w,
   {| objects := <[next_id w := o]> (objects w); next_id := S (next_id w);
      culling := culling w; active_object := active_object w;
      render_settings := render_settings w;
      rendered := rendered w; messages := messages w |}).

(** [list(bpy.context.scene.objects)] *)
Definition scene_objects (w : World) : list nat := (map_to_list (objects w)).*1.

(** What lies outside the program: the platform, the directory tree under
    the source path, what the importer of Blender does with a file (the
    objects it adds to the scene, in the order [list(set(...))] lists them,
    or the exception it raises, an importer that raises being taken to have
    added no object; whether it deselects what is in the scene before it
    reads the file), what [bpy.ops.object.join] makes of the
    imported objects (the object the first one becomes, or the exception it
    raises), and whether a render with given settings succeeds. *)
Record Host := {
  host_platform : platform;
  host_tree : fsnode;
  host_import : string -> result (list Object);
  host_import_deselects : string -> bool;
  host_join : list Object -> result Object;
  host_render_ok : RenderSettings -> bool
}.

(** [bpy.ops.render.render(write_still = True)] *)
Definition bpy_ops_render_render (h : Host) (w : World) : result World :=
  if host_render_ok h (render_settings w)
  then Ok {| objects := objects w; next_id := next_id w; culling := culling w;
             active_object := active_object w; render_settings := render_settings w;
             rendered := rendered w ++ [render_settings w]; messages := messages w |}
  else Raise (HostError "Error: render failed").

(** The region of the frame a render writes: the border when [use_border] is
    set, the full frame otherwise. *)
Definition crop_box (r : RenderSettings) : Q * Q * Q * Q :=
  if use_border r
  then (border_min_x r, border_max_x r, border_min_y r, border_max_y r)
  else (0, 1, 0, 1)%Q.

(** [prepareorthocam] *)
Definition prepareorthocam (w : World) : nat * World :=
  link_object
    {| obj_name := "OrthoCam"; obj_type := CAMERA; hide_render := false;
       selectable := true; selected := false; dimensions := (0, 0, 0)%Q;
       materials := [] |} w.

(** [disposeobject]: deselect everything, select the object, delete it. *)
Definition disposeobject (id : nat) (w : World) : World :=
  with_active (if decide (active_object w = Some id) then None else active_object w)
    (with_objects (fun os => delete id (select_set false <$> os)) w).

(** ** State and exceptions together *)

(** A computation on the [World] that returns or raises; the [World] reached
    is kept in both cases, since [main] goes on after its [except]. *)
Definition M (A : Type) : Type := World -> result A * World.

Definition ret {A} (a : A) : M A := fun w => (Ok a, w).
Definition raise {A} (e : exception) : M A := fun w => (Raise e, w).
Definition bindM {A B} (m : M A) (k : A -> M B) : M B :=
  fun w => match m w with
           | (Ok a, w') => k a w'
           | (Raise e, w') => (Raise e, w')
           end.
Definition lift {A} (r : result A) : M A := fun w => (r, w).
Definition get : M World := fun w => (Ok w, w).
Definition modify (f : World -> World) : M unit := fun w => (Ok tt, f w).

Notation "x <~ m ;; k" := (bindM m (fun x => k))
  (at level 100, m at next level, k at level 200, right associativity).
Notation "m ;;; k" := (bindM m (fun _ => k))
  (at level 100, k at level 200, right associativity).

(** [for x in l: body] *)
Fixpoint for_each {A} (l : list A) (body : A -> M unit) : M unit :=
  match l with
  | [] => ret tt
  | x :: l' => body x ;;; for_each l' body
  end.

(** [for x in l: body], with the local variables the body updates. *)
Fixpoint for_each_acc {A S} (l : list A) (body : A -> S -> M S) (s : S) : M S :=
  match l with
  | [] => ret s
  | x :: l' => s' <~ body x s ;; for_each_acc l' body s'
  end.

Definition render_op (h : Host) : M unit :=
  fun w => match bpy_ops_render_render h w with
           | Ok w' => (Ok tt, w')
           | Raise e => (Raise e, w)
           end.

(** ** [render]: one image, or a grid of tiles *)

Definition set_border_min_x (v : Q) (r : RenderSettings) : RenderSettings :=
  set_border v (border_max_x r) (border_min_y r) (border_max_y r) r.
Definition set_border_max_x (v : Q) (r : RenderSettings) : RenderSettings :=
  set_border (border_min_x r) v (border_min_y r) (border_max_y r) r.
Definition set_border_min_y (v : Q) (r : RenderSettings) : RenderSettings :=
  set_border (border_min_x r) (border_max_x r) v (border_max_y r) r.
Definition set_border_max_y (v : Q) (r : RenderSettings) : RenderSettings :=
  set_border (border_min_x r) (border_max_x r) (border_min_y r) v r.

(** [math.ceil(float(a) / float(b))] *)
Definition pieces (a b : Z) : result Z :=
  do q <- Py.div (inject_Z a) (inject_Z b); Ok (Py.ceil q).

(** The [match] on [orthobatch_imgDivideMode] in the loop of [render]: it has
    no case for [reduceres], which leaves the border as it was. *)
Definition set_tile_border (wm : WindowManager) (max_res pieces_x pieces_y row column : Z)
    : M unit :=
  match orthobatch_imgDivideMode wm with
  | evensize =>
      a <~ lift (Py.div 1 (inject_Z pieces_x)) ;;
      modify (with_render (set_border_min_x (a * inject_Z row))) ;;;
      a <~ lift (Py.div 1 (inject_Z pieces_x)) ;;
      modify (with_render (set_border_max_x (a * inject_Z (row + 1)))) ;;;
      a <~ lift (Py.div 1 (inject_Z pieces_y)) ;;
      modify (with_render (set_border_min_y (a * inject_Z column))) ;;;
      a <~ lift (Py.div 1 (inject_Z pieces_y)) ;;
      modify (with_render (set_border_max_y (a * inject_Z (column + 1))))
  | maxsize =>
      w <~ get ;;
      a <~ lift (Py.div (inject_Z (max_res * row))
                        (inject_Z (resolution_x (render_settings w)))) ;;
      modify (with_render (set_border_min_x a)) ;;;
      a <~ lift (Py.div (inject_Z (Z.min (max_res * (row + 1))
                                         (resolution_x (render_settings w))))
                        (inject_Z (resolution_x (render_settings w)))) ;;
      modify (with_render (set_border_max_x a)) ;;;
      a <~ lift (Py.div (inject_Z (max_res * column))
                        (inject_Z (resolution_y (render_settings w)))) ;;
      modify (with_render (set_border_min_y a)) ;;;
      a <~ lift (Py.div (inject_Z (Z.min (max_res * (column + 1))
                                         (resolution_y (render_settings w))))
                        (inject_Z (resolution_y (render_settings w)))) ;;
      modify (with_render (set_border_max_y a))
  | reduceres => ret tt
  end.

(** The path of the tile at [(row, column)]:
    [basepath + "_{}_{}".format(row + 1, column + 1)]. *)
Definition rndrpath (basepath : string) (row column : Z) : string :=
  basepath +:+ ("_" +:+ Py.str_of_int (row + 1) +:+ "_" +:+ Py.str_of_int (column + 1)).

(** [render(basepath, max_res)] *)
Definition render (h : Host) (wm : WindowManager) (basepath : string) (max_res : Z) : M unit :=
  w <~ get ;;
  pieces_x <~ lift (pieces (resolution_x (render_settings w)) max_res) ;;
  pieces_y <~ lift (pieces (resolution_y (render_settings w)) max_res) ;;
  if (pieces_x =? 1) && (pieces_y =? 1) then
    modify (with_render (set_use_border false false)) ;;;
    modify (with_render (set_filepath basepath)) ;;;
    render_op h
  else
    modify (with_render (set_use_border true true)) ;;;
    for_each (Py.range pieces_x) (fun row =>
      for_each (Py.range pieces_y) (fun column =>
        modify (with_render (set_filepath (rndrpath basepath row column))) ;;;
        set_tile_border wm max_res pieces_x pieces_y row column ;;;
        render_op h)).

(** ** [shoottarget]: framing and the resolution policy *)

(** The two dimensions orthogonal to the shoot axis, each with the padding. *)
Definition target_bb_viewsize (dims : Q * Q * Q) (direction : shootDirection) (padding : Q)
    : Q * Q :=
  let '(x, y, z) := dims in
  let v := match direction with
           | dir_X | dir_negX => (y, z)
           | dir_Y | dir_negY => (x, z)
           | dir_Z | dir_negZ => (x, y)
           end in
  (fst v + padding, snd v + padding)%Q.

(** The [match] on [orthobatch_maxImgSize].  Its case ["other"] reads the
    attribute [other] of the string [orthobatch_maxImgSize], which a [str]
    does not have. *)
Definition max_image_size (wm : WindowManager) : result Z :=
  match orthobatch_maxImgSize wm with
  | size256 => Ok 256
  | size512 => Ok 512
  | size1024 => Ok 1024
  | size2048 => Ok 2048
  | size4096 => Ok 4096
  | size8192 => Ok 8192
  | size16384 => Ok 16384
  | size_other => Raise (AttributeError "'str' object has no attribute 'other'")
  end.

(** The [match] on [orthobatch_scaleMode]. *)
Definition px_per_unit (wm : WindowManager) (max_image_size : Z) (viewsize : Q * Q)
    : result Q :=
  match orthobatch_scaleMode wm with
  | uniformscale =>
      let px_per_unit := inject_Z (orthobatch_imgSize wm) in
      match orthobatch_imgDivideMode wm with
      | reduceres =>
          if Qlt_le_dec (inject_Z max_image_size)
                        (Py.max (fst viewsize) (snd viewsize) * px_per_unit)
          then Py.div (inject_Z max_image_size) (Py.max (fst viewsize) (snd viewsize))
          else Ok px_per_unit
      | _ => Ok px_per_unit
      end
  | samesize =>
      Py.div (inject_Z max_image_size) (Py.max (fst viewsize) (snd viewsize))
  end.

(** The resolution [shoottarget] computes for a view size: the pixels per
    unit and [(resolution_x, resolution_y)]. *)
Definition resolution_policy (wm : WindowManager) (viewsize : Q * Q) : result (Q * (Z * Z)) :=
  do max_image_size <- max_image_size wm;
  do px <- px_per_unit wm max_image_size viewsize;
  Ok (px, (Py.ceil (px * fst viewsize), Py.ceil (px * snd viewsize))).

Definition ReferenceError : exception :=
  HostError "StructRNA of type Object has been removed".

(** [shoottarget].  The camera pose does not influence what is modelled and
    is left out; [target.dimensions] is read after the transform is applied.
    Two host operations are left out with it: [transform_apply], which bakes
    the transform of the target into its data, and [orphans_purge], which
    removes the data blocks nothing uses.  The properties below speak of
    neither the transform of an object nor the materials outside its slots. *)
Definition shoottarget (h : Host) (wm : WindowManager) (camera target : nat)
    (direction : shootDirection) (path : string) : M unit :=
  modify (with_objects (alter (select_set false) target)) ;;;
  w <~ get ;;
  match objects w !! target with
  | None => raise ReferenceError
  | Some o =>
      let viewsize :=
        target_bb_viewsize (dimensions o) direction (orthobatch_imgPadding wm) in
      max_image_size <~ lift (max_image_size wm) ;;
      px <~ lift (px_per_unit wm max_image_size viewsize) ;;
      modify (with_render
                (fun r => set_resolution (Py.ceil (px * fst viewsize))
                                         (resolution_y r) r)) ;;;
      modify (with_render
                (fun r => set_resolution (resolution_x r)
                                         (Py.ceil (px * snd viewsize)) r)) ;;;
      render h wm path max_image_size
  end.

(** ** [prepare_shoot_clean_object] *)

(** [object.data.materials[i].use_backface_culling]; a material that is not
    in the store reads as [False]. *)
Definition read_culling (w : World) (mid : nat) : bool :=
  default false (culling w !! mid).

(** [object.data.materials]: a mesh has material slots; what has no data
    (an empty) or data without materials (a camera) raises. *)
Definition data_materials (o : Object) : result (list (option nat)) :=
  match obj_type o with
  | MESH => Ok (materials o)
  | CAMERA => Raise (AttributeError "'Camera' object has no attribute 'materials'")
  | OTHER => Raise (AttributeError "'NoneType' object has no attribute 'materials'")
  end.

Definition prepare_shoot_clean_object (h : Host) (wm : WindowManager)
    (object cam : nat) (modelpath : ModelPath) : M unit :=
  w <~ get ;;
  match objects w !! object with
  | None => raise ReferenceError
  | Some o =>
      mats <~ lift (data_materials o) ;;
      (* back up rendered object's backface culling state *)
      old_culling <~
        for_each_acc (seq 0 (length mats))
          (fun i old_culling =>
             w <~ get ;;
             match mats !! i with
             | Some (Some mid) =>
                 let old_culling := <[i := read_culling w mid]> old_culling in
                 modify (with_culling (<[mid := orthobatch_backCulling wm]>)) ;;;
                 ret old_culling
             | _ => ret (<[i := false]> old_culling)
             end)
          (replicate (length mats) false) ;;
      modify (with_objects (alter (set_hide_render false) object)) ;;;
      for_each (orthobatch_shootDirections wm)
        (fun dir =>
           let exportpath :=
             ModelPathM.imageExportPath (host_platform h) modelpath (direction_str dir)
               (orthobatch_exportPath wm) (orthobatch_exportPathMode wm)
               (orthobatch_exportNameMode wm) in
           shoottarget h wm cam object dir exportpath) ;;;
      modify (with_objects (alter (set_hide_render true) object)) ;;;
      (* restore rendered object's backface culling state *)
      for_each (seq 0 (length mats))
        (fun i =>
           match mats !! i with
           | Some (Some mid) =>
               modify (with_culling (<[mid := default false (old_culling !! i)]>))
           | _ => ret tt
           end)
  end.

(** ** [ModelPath.tryImport] *)

Fixpoint link_objects (objs : list Object) (w : World) : list nat * World :=
  match objs with
  | [] => ([], w)
  | o :: objs' =>
      let '(id, w1) := link_object o w in
      let '(ids, w2) := link_objects objs' w1 in
      (id :: ids, w2)
  end.

(** The importer Blender runs for an extension, if [tryImport] has a case
    for it. *)
Definition importer_for (h : Host) (extension : string) : option (string -> result (list Object)) :=
  if String.eqb extension "obj" then Some (host_import h)
  else if String.eqb extension "gltf" then Some (host_import h)
  else if String.eqb extension "glb" then Some (host_import h)
  else if String.eqb extension "fbx" then Some (host_import h)
  else None.

(** [tryImport]: the imported object (or [None]) and a message.  Its [try]
    catches every exception, so it always returns; what the importer or the
    join did before it raised stays in the scene. *)
Definition tryImport (h : Host) (self : ModelPath) : M (option nat * string) :=
  w <~ get ;;
  let before_import_active := active_object w in
  match importer_for h (extension self) with
  | None => ret (None, "FAILED: improper file extension")
  | Some import =>
      (if host_import_deselects h (filepath self)
       then modify (with_objects (fmap (select_set false)))
       else ret tt) ;;;
      match import (filepath self) with
      | Raise error => ret (None, "FAILED: " +:+ str_of_exception error)
      | Ok objs =>
          imported <~ (fun w => let '(ids, w') := link_objects objs w in (Ok ids, w')) ;;
          modify (with_active before_import_active) ;;;
          match imported with
          | [] => ret (None, "FAILED: No meshes found in imported object")
          | [o] => ret (Some o, "succeeded")
          | o :: rest =>
              (* bpy.ops.object.join(): the others are merged into the first *)
              match host_join h objs with
              | Raise error => ret (None, "FAILED: " +:+ str_of_exception error)
              | Ok joined =>
                  modify (with_objects
                            (fun os => <[o := joined]>
                                         (fold_left (fun os id => delete id os) rest os))) ;;;
                  ret (before_import_active, "succeeded")
              end
          end
      end
  end.

(** ** [main] *)

(** [filter_meshes_from_objlist]: pops, from the end, what is not a mesh. *)
Definition filter_meshes_from_objlist (w : World) (objlist : list nat) : list nat :=
  let listlen := length objlist in
  fold_left
    (fun objlist i =>
       let j := (listlen - i - 1)%nat in
       match objlist !! j with
       | Some obj =>
           match objects w !! obj with
           | Some o => match obj_type o with MESH => objlist | _ => delete j objlist end
           | None => delete j objlist
           end
       | None => objlist
       end)
    (seq 0 listlen) objlist.

(** The block "validations" of the folder mode: where to start, how many. *)
Definition select_models (wm : WindowManager) (modelpaths : list ModelPath) : list ModelPath :=
  let modelpaths :=
    if truthy bpy_types_WindowManager.orthobatch_overrideStartSearch then
      let firstindex := Nat.min (orthobatch_startSearch wm) (length modelpaths) in
      Py.list_from firstindex modelpaths
    else modelpaths in
  if orthobatch_limitSearch wm then
    let count := Nat.min (orthobatch_maxFiles wm) (length modelpaths) in
    Py.list_upto count modelpaths
  else modelpaths.

(** The loop over the model paths: [(importresults_fails,
    importresults_successes)]. *)
Definition import_loop (h : Host) (wm : WindowManager) (camera : nat)
    (modelpaths : list ModelPath)
    : M (list (string * string) * list (string * string)) :=
  for_each_acc modelpaths
    (fun path '(importresults_fails, importresults_successes) =>
       out <~ tryImport h path ;;
       match fst out with
       | None =>
           ret (importresults_fails ++ [(filepath path, snd out)], importresults_successes)
       | Some obj =>
           let importresults_successes :=
             importresults_successes ++ [(filepath path, snd out)] in
           prepare_shoot_clean_object h wm obj camera path ;;;
           modify (disposeobject obj) ;;;
           ret (importresults_fails, importresults_successes)
       end)
    ([], []).

(** The body of the [try] of [main]; [true] when it executed [return]. *)
Definition main_try (h : Host) (wm : WindowManager) (camera : nat) : M bool :=
  match orthobatch_importMode wm with
  | folder =>
      let modelpaths :=
        getAllModelPaths (host_platform h) (host_tree h) (orthobatch_sourcePath wm)
          VALID_IMPORT_EXTENSIONS in
      let modelpaths := sorted (ModelPathM.__lt__ (host_platform h)) modelpaths in
      if (length modelpaths <? 1)%nat then
        modify (ShowMessageBox
                  (Aborting "ABORTING: Source directory has no valid model files (valid extensions are)")) ;;;
        ret true
      else
        let modelpaths := select_models wm modelpaths in
        lists <~ import_loop h wm camera modelpaths ;;
        modify (ShowMessageBox (ImportReport (snd lists) (fst lists))) ;;;
        ret false
  | mode =>
      w <~ get ;;
      let candidates :=
        List.filter (fun id => match objects w !! id with
                          | Some o => match mode with
                                      | currentfile => selectable o
                                      | _ => selected o
                                      end
                          | None => false
                          end) (scene_objects w) in
      let local_objects_to_shoot := filter_meshes_from_objlist w candidates in
      for_each local_objects_to_shoot
        (fun obj =>
           w <~ get ;;
           match objects w !! obj with
           | Some o =>
               match obj_type o with
               | MESH =>
                   let name_with_temp_suffix := obj_name o +:+ ".standin" in
                   let no_import_modelpath :=
                     ModelPathM.__init__ (host_platform h) name_with_temp_suffix
                       name_with_temp_suffix (orthobatch_sourcePath wm) in
                   prepare_shoot_clean_object h wm obj camera no_import_modelpath
               | _ => ret tt
               end
           | None => raise ReferenceError
           end) ;;;
      ret false
  end.

(** The snapshot loop of [main]: remember [hide_render] of every object,
    then hide it. *)
Definition hide_all (old_objs : list nat) (w : World) : list bool * World :=
  fold_left
    (fun '(old_objs_werehidden, w) oi =>
       match old_objs !! oi with
       | Some id =>
           (<[oi := default false (hide_render <$> objects w !! id)]> old_objs_werehidden,
            with_objects (alter (set_hide_render true) id) w)
       | None => (old_objs_werehidden, w)
       end)
    (seq 0 (length old_objs)) (replicate (length old_objs) false, w).

(** "restore old objects' hidden state".  An object of the snapshot that was
    deleted meanwhile is skipped (writing to it is not modelled). *)
Definition restore_all (old_objs : list nat) (old_objs_werehidden : list bool) (w : World)
    : World :=
  fold_left
    (fun w oi =>
       match old_objs !! oi with
       | Some id =>
           with_objects
             (alter (set_hide_render (default false (old_objs_werehidden !! oi))) id) w
       | None => w
       end)
    (seq 0 (length old_objs)) w.

(** [main]: the settings (the source path may get a separator appended) and
    the world it leaves.  The call of [prepareuniversalrendersettings]
    between the camera and the [try] block is left out: it sets the render
    engine and the colour of the world named [World], touches no object, and
    raises when the file has no world of that name. *)
Definition main (h : Host) (wm : WindowManager) (w : World) : WindowManager * World :=
  if (length (orthobatch_shootDirections wm) <? 1)%nat then
    (wm, ShowMessageBox (Aborting "ABORTING: Should have at least one photo direction enabled") w)
  else
    let wm :=
      if negb (Py.endswith (orthobatch_sourcePath wm) (os.sep_str (host_platform h)))
      then set_sourcePath wm (orthobatch_sourcePath wm +:+ os.sep_str (host_platform h))
      else wm in
    let old_objs := scene_objects w in
    let '(old_objs_werehidden, w) := hide_all old_objs w in
    let '(camera, w) := prepareorthocam w in
    match main_try h wm camera w with
    | (Ok true, w) => (wm, w)
    | (r, w) =>
        let w := match r with
                 | Raise e => ShowMessageBox (ErrorOccurred e) w
                 | Ok _ => w
                 end in
        let w := restore_all old_objs old_objs_werehidden w in
        (wm, disposeobject camera w)
    end.

(** ** Notions the properties are stated with *)

(** [ceil(a / b)] on integers, for a positive divisor. *)
Definition ceil_div (a b : Z) : Z := (a + b - 1) / b.

(** The border [set_tile_border] leaves for the tile at [(row, column)] of a
    [pieces_x] by [pieces_y] grid; [b0] is the border before the loop, which
    [reduceres] keeps. *)
Definition tile_box (mode : imgDivideMode) (max_res rx ry pieces_x pieces_y : Z)
    (b0 : Q * Q * Q * Q) (row column : Z) : Q * Q * Q * Q :=
  match mode with
  | evensize =>
      ((1 / inject_Z pieces_x) * inject_Z row,
       (1 / inject_Z pieces_x) * inject_Z (row + 1),
       (1 / inject_Z pieces_y) * inject_Z column,
       (1 / inject_Z pieces_y) * inject_Z (column + 1))%Q
  | maxsize =>
      (inject_Z (max_res * row) / inject_Z rx,
       inject_Z (Z.min (max_res * (row + 1)) rx) / inject_Z rx,
       inject_Z (max_res * column) / inject_Z ry,
       inject_Z (Z.min (max_res * (column + 1)) ry) / inject_Z ry)%Q
  | reduceres => b0
  end.

(** The settings the render of that tile runs with. *)
Definition tile_settings (mode : imgDivideMode) (basepath : string)
    (max_res rx ry pieces_x pieces_y : Z) (b0 : Q * Q * Q * Q) (row column : Z)
    : RenderSettings :=
  let '(x0, x1, y0, y1) := tile_box mode max_res rx ry pieces_x pieces_y b0 row column in
  {| resolution_x := rx; resolution_y := ry;
     use_border := true; use_crop_to_border := true;
     border_min_x := x0; border_max_x := x1;
     border_min_y := y0; border_max_y := y1;
     render_filepath := rndrpath basepath row column |}.

Definition border_of (r : RenderSettings) : Q * Q * Q * Q :=
  (border_min_x r, border_max_x r, border_min_y r, border_max_y r).

(** The tiles of a grid, row by row as the loops of [render] visit them. *)
Definition grid {A} (pieces_x pieces_y : Z) (tile : Z -> Z -> A) : list A :=
  flat_map (fun row => map (tile row) (Py.range pieces_y)) (Py.range pieces_x).

(** A box [(x0, x1, y0, y1)] as a closed rectangle, its interior, its area. *)
Definition in_box (b : Q * Q * Q * Q) (x y : Q) : Prop :=
  let '(x0, x1, y0, y1) := b in (x0 <= x <= x1 /\ y0 <= y <= y1)%Q.

Definition in_interior (b : Q * Q * Q * Q) (x y : Q) : Prop :=
  let '(x0, x1, y0, y1) := b in (x0 < x < x1 /\ y0 < y < y1)%Q.

Definition box_area (b : Q * Q * Q * Q) : Q :=
  let '(x0, x1, y0, y1) := b in ((x1 - x0) * (y1 - y0))%Q.

Definition Qsum (l : list Q) : Q := fold_right Qplus 0%Q l.

(** Consecutive intervals from [a] to [c]: each one starts where the one
    before it ends. *)
Inductive chain : Q -> Q -> list (Q * Q) -> Prop :=
| chain_last a c lo hi :
    (lo == a)%Q -> (hi == c)%Q -> (lo <= hi)%Q -> chain a c [(lo, hi)]
| chain_step a c lo hi l :
    (lo == a)%Q -> (lo <= hi)%Q -> chain hi c l -> chain a c ((lo, hi) :: l).

(** The boxes of the grid with columns [xs] and rows [ys]. *)
Definition boxes_of (xs ys : list (Q * Q)) : list (Q * Q * Q * Q) :=
  flat_map (fun '(x0, x1) => map (fun '(y0, y1) => (x0, x1, y0, y1)) ys) xs.

(** What the loop of [render] keeps true of the world: the resolution, the
    border switched on, and under [reduceres] the border values. *)
Definition tile_ready (mode : imgDivideMode) (rx ry : Z) (b0 : Q * Q * Q * Q) (w : World)
    : Prop :=
  resolution_x (render_settings w) = rx /\
  resolution_y (render_settings w) = ry /\
  use_border (render_settings w) = true /\
  use_crop_to_border (render_settings w) = true /\
  (mode = reduceres -> border_of (render_settings w) = b0).

(** The boxes tile the unit square: they lie in it, every point of it is in
    a box, no point of a box is inside another box, and the areas add up
    to one. *)
Definition partitions_unit_square (boxes : list (Q * Q * Q * Q)) : Prop :=
  (forall b x y, In b boxes -> in_box b x y -> (0 <= x <= 1 /\ 0 <= y <= 1)%Q) /\
  (forall x y, (0 <= x <= 1)%Q -> (0 <= y <= 1)%Q -> exists b, In b boxes /\ in_box b x y) /\
  (forall (i j : nat) b1 b2 x y,
     i <> j -> boxes !! i = Some b1 -> boxes !! j = Some b2 ->
     ~ (in_box b1 x y /\ in_interior b2 x y)) /\
  (Qsum (map box_area boxes) == 1)%Q.

(** In a grid of [nx] by [ny] boxes listed row by row, neighbours share
    their boundary coordinate and span the same range on the other axis. *)
Definition boundaries_coincide (nx ny : nat) (boxes : list (Q * Q * Q * Q)) : Prop :=
  length boxes = (nx * ny)%nat /\
  forall (r c : nat) x0 x1 y0 y1,
    (c < ny)%nat -> boxes !! (r * ny + c)%nat = Some (x0, x1, y0, y1) ->
    (forall x0' x1' y0' y1',
       boxes !! (S r * ny + c)%nat = Some (x0', x1', y0', y1') ->
       (x1 == x0' /\ y0 == y0' /\ y1 == y1')%Q) /\
    (forall x0' x1' y0' y1',
       (S c < ny)%nat -> boxes !! (r * ny + S c)%nat = Some (x0', x1', y0', y1') ->
       (y1 == y0' /\ x0 == x0' /\ x1 == x1')%Q).

Definition width (i : Q * Q) : Q := let '(lo, hi) := i in (hi - lo)%Q.

(** The interval of tile [k] on one axis: of [n] equal parts, and of parts
    of [max_res] pixels out of [len] pixels. *)
Definition even_cut (n k : Z) : Q * Q :=
  ((1 / inject_Z n) * inject_Z k, (1 / inject_Z n) * inject_Z (k + 1))%Q.

Definition max_cut (max_res len k : Z) : Q * Q :=
  (inject_Z (max_res * k) / inject_Z len,
   inject_Z (Z.min (max_res * (k + 1)) len) / inject_Z len)%Q.

(** *** Paths *)

(** [suffixed(name)]: the direction before or after the name. *)
Definition suffixed (placement : exportNameMode) (direction name : string) : string :=
  match placement with
  | prepend => direction +:+ "_" +:+ name
  | append => name +:+ "_" +:+ direction
  end.

(** The text after the last separator of [s], read left to right: [acc] is
    the component under way, and a separator starts a new one. *)
Fixpoint last_component_from (s : string) (sep : ascii) (acc : string) : string :=
  match s with
  | EmptyString => acc
  | String c s' =>
      if Ascii.eqb c sep then last_component_from s' sep EmptyString
      else last_component_from s' sep (acc +:+ String c EmptyString)
  end.

Definition last_component (s : string) (sep : ascii) : string :=
  last_component_from s sep EmptyString.

(** [s] with every separator turned into an underscore. *)
Fixpoint underscored (s : string) (sep : ascii) : string :=
  match s with
  | EmptyString => EmptyString
  | String c s' => String (if Ascii.eqb c sep then "_"%char else c) (underscored s' sep)
  end.

(** [s] without the separators at its end ("trailing separators in
    [relativeSubpath] are stripped before use"). *)
Definition strip_trailing_separators (pl : platform) (s : string) : string :=
  Py.rstrip (os.sep_str pl) s.

(** A subpath as an identifier may carry it: with no separator at its end,
    or with one. *)
Definition at_most_one_trailing_separator (pl : platform) (s : string) : Prop :=
  exists r, Py.endswith r (os.sep_str pl) = false /\ (s = r \/ s = r +:+ os.sep_str pl).

(** The destination path as the specification words it; [relativeSubpath]
    is the subpath of the identifier with the separators at its end
    stripped. *)
Definition destinationPath (pl : platform) (id : ModelPath) (direction exportRoot : string)
    (policy : exportPathMode) (placement : exportNameMode) : string :=
  let relativeSubpath := strip_trailing_separators pl (subpath id) in
  match policy with
  | flatten =>
      os.path_join pl exportRoot [suffixed placement direction (name id)]
  | keeppath =>
      os.path_join pl exportRoot
        [relativeSubpath; suffixed placement direction (name id)]
  | flatten_pathname =>
      os.path_join pl exportRoot
        [suffixed placement direction
           (underscored relativeSubpath (os.sep pl) +:+ "_" +:+ name id)]
  | flatten_foldername =>
      os.path_join pl exportRoot
        [suffixed placement direction (last_component relativeSubpath (os.sep pl))]
  end.

(** The extension of a file name, from its last dot on; empty without a dot. *)
Definition dot_extension (file : string) : string :=
  if Py.rfind file "." <? 0 then EmptyString
  else Py.slice file (Some (Py.rfind file ".")) None.

(** The inclusion test the specification describes: the extension, compared
    without regard to case, is one of the allowed ones. *)
Definition extension_allowed (file : string) (allowed : list string) : bool :=
  existsb (String.eqb (Py.lower (dot_extension file))) (map Py.lower allowed).

(** The number of folders of a relative subpath. *)
Definition folder_depth (pl : platform) (subpath : string) : nat :=
  length (List.filter (fun c => negb (String.eqb c EmptyString))
            (Py.split subpath (os.sep pl))).

(** *** Ordering *)

(** [a] may come before [b]: [b] is not less than [a]. *)
Definition not_after {A} (lt : A -> A -> bool) (a b : A) : Prop := lt b a = false.

(** Neither is less than the other. *)
Definition ties {A} (lt : A -> A -> bool) (a b : A) : bool :=
  negb (lt a b) && negb (lt b a).

(** The two parts of the sort key of [__lt__]: the number of components of
    the folder path recorded for the model, and the file name in lower case. *)
Definition folder_count (pl : platform) (mp : ModelPath) : nat :=
  length (Py.split (pathminusfilename mp) (os.sep pl)).

Definition lower_name (mp : ModelPath) : string := Py.lower (filename mp).

Definition same_key (pl : platform) (a b : ModelPath) : bool :=
  (folder_count pl a =? folder_count pl b)%nat && String.eqb (lower_name a) (lower_name b).

(** *** The assets of a tree *)

(** The number of occurrences of a character in a string. *)
Fixpoint count_char (c : ascii) (s : string) : nat :=
  match s with
  | EmptyString => 0
  | String x s' => (if Ascii.eqb x c then 1 else 0) + count_char c s'
  end.

(** A name every platform gives a folder or a file: not empty, in ASCII,
    with no separator and no colon in it. *)
Definition portable_char (c : ascii) : bool :=
  (nat_of_ascii c <? 128)%nat && negb (Py.char_in c "/\:").

Definition portable_name (s : string) : bool :=
  negb (String.eqb s EmptyString) && forallb portable_char (list_ascii_of_string s).

Fixpoint portable_tree (d : fsnode) : bool :=
  match d with
  | Folder _ files dirs =>
      forallb portable_name files
      && forallb (fun sub => portable_name (fs_name sub) && portable_tree sub) dirs
  end.

(** An asset of a tree: the names of the folders from the root down to the
    folder of the file, and the file name. *)
Definition asset : Type := list string * string.

(** The assets of a tree, folder by folder from the top. *)
Fixpoint assets_of (d : fsnode) : list asset :=
  match d with
  | Folder _ files dirs =>
      map (fun file => ([], file)) files
      ++ flat_map (fun sub => map (fun a => (fs_name sub :: fst a, snd a)) (assets_of sub))
           dirs
  end.

(** The folder depth of the relative subpath of an asset. *)
Definition asset_depth (a : asset) : nat := length (fst a).

(** [relativeSubpath]: the path from the root to the folder of the asset,
    without separators at its ends. *)
Definition relativeSubpath (pl : platform) (a : asset) : string :=
  String.concat (os.sep_str pl) (fst a).

(** [absolutePath == join(sourceRoot, relativeSubpath, fileName)] *)
Definition absolutePath (pl : platform) (sourceRoot : string) (a : asset) : string :=
  os.path_join pl sourceRoot [relativeSubpath pl a; snd a].

(** The identifier of an asset found under [sourceRoot]. *)
Definition asset_modelpath (pl : platform) (sourceRoot : string) (a : asset) : ModelPath :=
  ModelPathM.__init__ pl (snd a) (absolutePath pl sourceRoot a) sourceRoot.

(** The ordering key of the specification, (folder depth, file name
    without regard to case), as a comparison. *)
Definition asset_lt (a b : asset) : bool :=
  if (asset_depth a =? asset_depth b)%nat
  then Py.str_lt (Py.lower (snd a)) (Py.lower (snd b))
  else (asset_depth a <? asset_depth b)%nat.

Definition asset_key (a : asset) : nat * string := (asset_depth a, Py.lower (snd a)).

(** A source root of a POSIX path as [main] hands it on: absolute, and with
    the separator at its end. *)
Definition posix_root (b : string) : Prop :=
  Py.startswith b "/" = true /\ Py.endswith b "/" = true.

(** The first occurrence of the file name in the path is the one at its
    end. *)
Definition first_at_end (path file : string) : Prop :=
  Py.find path file = Z.of_nat (String.length path - String.length file).

(** The text between the root and the file name in the POSIX path of an
    asset: the relative subpath and a separator, or nothing for the root. *)
Definition posix_folder_part (folders : list string) : string :=
  match folders with
  | [] => EmptyString
  | _ => String.concat "/" folders +:+ "/"
  end.

(** *** The import loop *)

(** What the import of a model comes to: an object to shoot, or a failure
    with its message. *)
Inductive import_answer := Imported (o : Object) | Failed (message : string).

(** The answer of the host for a model: a failure when there is no importer
    for the extension, when the importer raises, when it adds no object, or
    when it adds several and joining them raises; the object when it adds
    one.  Several objects joined without error are no case of it. *)
Definition answer_of (h : Host) (mp : ModelPath) : option import_answer :=
  match importer_for h (extension mp) with
  | None => Some (Failed "FAILED: improper file extension")
  | Some import =>
      match import (filepath mp) with
      | Raise error => Some (Failed ("FAILED: " +:+ str_of_exception error))
      | Ok [] => Some (Failed "FAILED: No meshes found in imported object")
      | Ok [o] => Some (Imported o)
      | Ok objs =>
          match host_join h objs with
          | Raise error => Some (Failed ("FAILED: " +:+ str_of_exception error))
          | Ok _ => None
          end
      end
  end.









(** ** Example inputs *)

(** The default settings, but for the modes given, with one shoot direction
    and the backface culling switched on. *)
Definition example_settings (scale : scaleMode) (divide : imgDivideMode)
    (size : maxImgSize) (mode : importMode) (source : string) : WindowManager :=
  {| orthobatch_scaleMode := scale;
     orthobatch_imgSize := 256;
     orthobatch_maxImgSize := size;
     orthobatch_maxImgSize_other := 4096;
     orthobatch_imgDivideMode := divide;
     orthobatch_imgPadding := 0;
     orthobatch_sourcePath := source;
     orthobatch_exportPath := "/out/";
     orthobatch_importMode := mode;
     orthobatch_limitSearch := false;
     orthobatch_overrideStartSearch := false;
     orthobatch_startSearch := 0;
     orthobatch_maxFiles := 10;
     orthobatch_exportPathMode := flatten;
     orthobatch_exportNameMode := append;
     orthobatch_shootDirections := [dir_Z];
     orthobatch_backCulling := true |}.

Definition example_wm : WindowManager :=
  example_settings uniformscale maxsize size4096 folder "/models".

Definition example_render_settings (rx ry : Z) : RenderSettings :=
  {| resolution_x := rx; resolution_y := ry;
     use_border := false; use_crop_to_border := false;
     border_min_x := 0; border_max_x := 1; border_min_y := 0; border_max_y := 1;
     render_filepath := EmptyString |}.

(** A mesh with the given name, edge length and material slots. *)
Definition example_mesh (n : string) (edge : Q) (mats : list (option nat)) : Object :=
  {| obj_name := n; obj_type := MESH; hide_render := false;
     selectable := true; selected := false;
     dimensions := (edge, edge, edge); materials := mats |}.

(** An empty scene whose render resolution is [(rx, ry)]. *)
Definition empty_world (rx ry : Z) : World :=
  {| objects := ∅; next_id := 0; culling := ∅; active_object := None;
     render_settings := example_render_settings rx ry;
     rendered := []; messages := [] |}.

(** A host on the given platform and tree, where every render succeeds and
    an import yields one cube of edge 1, except for the files in [bad]. *)
Definition example_host (pl : platform) (tree : fsnode) (bad : list string) : Host :=
  {| host_platform := pl;
     host_tree := tree;
     host_import := fun p =>
       if existsb (String.eqb p) bad then Raise (HostError "cannot read file")
       else Ok [example_mesh "imported" 1 []];
     host_import_deselects := fun _ => false;
     host_join := fun objs => Ok (List.hd (example_mesh "joined" 1 []) objs);
     host_render_ok := fun _ => true |}.

(** Three models in the source folder. *)
Definition three_models : fsnode := Folder "models" ["a.obj"; "b.obj"; "c.obj"] [].

(** A scene with one visible cube, whose two material slots hold the
    material 0 (not culled) when [shared], the materials 0 and 1 otherwise. *)
Definition cube_world (shared : bool) : World :=
  {| objects := {[ 0%nat := example_mesh "Cube" 2
                               [Some 0%nat; Some (if shared then 0%nat else 1%nat)] ]};
     next_id := 1;
     culling := {[ 0%nat := false; 1%nat := false ]};
     active_object := None;
     render_settings := example_render_settings 1920 1080;
     rendered := []; messages := [] |}.

(** A root folder with one model, and a subfolder with another. *)
Definition nested_models : fsnode :=
  Folder "models" ["z.obj"] [Folder "sub" ["a.obj"] []].

(** The cube scene once [main] has created its camera (object 1), and the
    three models as [main] finds and sorts them. *)
Definition cube_world_with_camera : World := snd (prepareorthocam (cube_world false)).


(** A host with no model in the source folder whose renders fail. *)
Definition failing_render_host : Host :=
  {| host_platform := Posix;
     host_tree := Folder "models" [] [];
     host_import := fun _ => Raise (HostError "cannot read file");
     host_import_deselects := fun _ => false;
     host_join := fun _ => Raise (HostError "cannot join");
     host_render_ok := fun _ => false |}.

(** Two folders that each hold a file [a.obj], listed in either order. *)
Definition twins_xy : fsnode :=
  Folder "models" [] [Folder "x" ["a.obj"] []; Folder "y" ["a.obj"] []].

Definition twins_yx : fsnode :=
  Folder "models" [] [Folder "y" ["a.obj"] []; Folder "x" ["a.obj"] []].

(** ** Further parts of the program, and notions for their properties *)

(** [obj != None and obj.type == 'MESH'] for a reference into the scene. *)
Definition is_mesh (w : World) (id : nat) : bool :=
  match objects w !! id with
  | Some o => match obj_type o with MESH => true | _ => false end
  | None => false
  end.

(** No dot among the characters of [s]. *)
Definition dot_free (s : string) : Prop := Py.char_in "."%char s = false.

(** The model path [main] makes up for an object of the file:
    [ModelPath(obj.name + '.standin', obj.name + '.standin', sourcePath)]. *)
Definition standin_modelpath (pl : platform) (obj_name sourcePath : string) : ModelPath :=
  ModelPathM.__init__ pl (obj_name +:+ ".standin") (obj_name +:+ ".standin") sourcePath.

(** A computation leaves the relation [R] between the world it starts from
    and the world it ends in, whether it returns or raises. *)
Definition keeps {A} (R : World -> World -> Prop) (m : M A) : Prop :=
  forall w r w', m w = (r, w') -> R w w'.

Definition same_rendered (w w' : World) : Prop := rendered w' = rendered w.

Definition same_culling (w w' : World) : Prop := culling w' = culling w.

(** The object [id] is still in the scene, with the same material slots. *)
Definition same_slots (id : nat) (w w' : World) : Prop :=
  materials <$> objects w' !! id = materials <$> objects w !! id.

(** The scene apart from the render settings and the log of renders. *)
Definition same_scene (w w' : World) : Prop :=
  objects w' = objects w /\ culling w' = culling w /\ next_id w' = next_id w /\
  active_object w' = active_object w /\ messages w' = messages w /\
  resolution_x (render_settings w') = resolution_x (render_settings w) /\
  resolution_y (render_settings w') = resolution_y (render_settings w).

(** The material ids in the slots of an object, empty slots left out. *)
Definition slot_materials (mats : list (option nat)) : list nat :=
  omap id mats.

(** *** The camera of [shoottarget] *)

Definition Vector : Type := Q * Q * Q.

Definition vec_add (a b : Vector) : Vector :=
  let '(ax, ay, az) := a in let '(bx, by', bz) := b in
  (ax + bx, ay + by', az + bz)%Q.

Definition vec_sub (a b : Vector) : Vector :=
  let '(ax, ay, az) := a in let '(bx, by', bz) := b in
  (ax - bx, ay - by', az - bz)%Q.

Definition vec_scale (k : Q) (a : Vector) : Vector :=
  let '(ax, ay, az) := a in (k * ax, k * ay, k * az)%Q.

Definition vec_eq (a b : Vector) : Prop :=
  let '(ax, ay, az) := a in let '(bx, by', bz) := b in
  (ax == bx /\ ay == by' /\ az == bz)%Q.

(** [0.125 * sum((Vector(b) for b in target.bound_box), Vector())]; the
    product with [target.matrix_world] is left out, the transform of the
    target having been applied just before. *)
Definition bound_box_mean (bound_box : list Vector) : Vector :=
  vec_scale (1 # 8) (fold_left vec_add bound_box (0, 0, 0)%Q).

(** The eight corners of the box from [lo] to [hi], in the order of
    [Object.bound_box]. *)
Definition box_corners (lo hi : Vector) : list Vector :=
  let '(x0, y0, z0) := lo in let '(x1, y1, z1) := hi in
  [(x0, y0, z0); (x0, y0, z1); (x0, y1, z1); (x0, y1, z0);
   (x1, y0, z0); (x1, y0, z1); (x1, y1, z1); (x1, y1, z0)].

(** [camera.location] after the [match] on the direction of [shoottarget]:
    the centre, moved along the shoot axis by the dimension on that axis. *)
Definition camera_location (target_bb_center dims : Vector) (direction : shootDirection)
    : Vector :=
  let '(cx, cy, cz) := target_bb_center in
  let '(dx, dy, dz) := dims in
  match direction with
  | dir_X => (cx + dx, cy, cz)
  | dir_Y => (cx, cy + dy, cz)
  | dir_Z => (cx, cy, cz + dz)
  | dir_negX => (cx - dx, cy, cz)
  | dir_negY => (cx, cy - dy, cz)
  | dir_negZ => (cx, cy, cz - dz)
  end%Q.

(** The coordinate of a vector on the axis of a direction, and the sign of
    the direction. *)
Definition axis_coord (direction : shootDirection) (v : Vector) : Q :=
  let '(x, y, z) := v in
  match direction with
  | dir_X | dir_negX => x
  | dir_Y | dir_negY => y
  | dir_Z | dir_negZ => z
  end.

Definition is_positive (direction : shootDirection) : bool :=
  match direction with
  | dir_X | dir_Y | dir_Z => true
  | _ => false
  end.

(** *** [shoottarget] of version 1.1 *)

(** The earlier [shoottarget]: the resolution is the pixels per unit times
    the view size, and one render goes to [path]; the border settings are
    not touched. *)
Definition shoottarget_v1_1 (h : Host) (wm : WindowManager) (camera target : nat)
    (direction : shootDirection) (path : string) : M unit :=
  modify (with_objects (alter (select_set false) target)) ;;;
  w <~ get ;;
  match objects w !! target with
  | None => raise ReferenceError
  | Some o =>
      let viewsize :=
        target_bb_viewsize (dimensions o) direction (orthobatch_imgPadding wm) in
      modify (with_render
                (fun r => set_resolution
                            (Py.ceil (inject_Z (orthobatch_imgSize wm) * fst viewsize))
                            (resolution_y r) r)) ;;;
      modify (with_render
                (fun r => set_resolution (resolution_x r)
                            (Py.ceil (inject_Z (orthobatch_imgSize wm) * snd viewsize)) r)) ;;;
      modify (with_render (set_filepath path)) ;;;
      render_op h
  end.

(** The size in pixels of the image a render writes: its crop box times
    the resolution. *)
Definition image_pixels (r : RenderSettings) : Q * Q :=
  let '(x0, x1, y0, y1) := crop_box r in
  ((x1 - x0) * inject_Z (resolution_x r), (y1 - y0) * inject_Z (resolution_y r))%Q.

(** A size in pixels that is positive and at most [max_res] on both axes. *)
Definition within_max_res (max_res : Z) (size : Q * Q) : Prop :=
  (0 < fst size <= inject_Z max_res /\ 0 < snd size <= inject_Z max_res)%Q.

(** The scene and the messages: all of the world but the render settings
    and the log of renders. *)
Definition same_data (w w' : World) : Prop :=
  objects w' = objects w /\ culling w' = culling w /\ next_id w' = next_id w /\
  active_object w' = active_object w /\ messages w' = messages w.

(** An object without its two flags [hide_render] and [select_get()]. *)
Definition unflagged (o : Object) : Object := set_hide_render false (select_set false o).

(** The same objects, up to those two flags. *)
Definition same_unflagged (w w' : World) : Prop :=
  unflagged <$> objects w' = unflagged <$> objects w.

(** The identities from [next_id] on are not in use. *)
Definition fresh_from (w : World) : Prop :=
  forall id, (next_id w <= id)%nat -> objects w !! id = None.

(** The same objects up to the two flags, and the same next identity. *)
Definition same_unflagged_ids (w w' : World) : Prop :=
  same_unflagged w w' /\ next_id w' = next_id w.

(** The body of the loop over the model paths in [main]. *)
Definition import_body (h : Host) (wm : WindowManager) (camera : nat) (path : ModelPath)
    (lists : list (string * string) * list (string * string))
    : M (list (string * string) * list (string * string)) :=
  let '(importresults_fails, importresults_successes) := lists in
  out <~ tryImport h path ;;
  match fst out with
  | None =>
      ret (importresults_fails ++ [(filepath path, snd out)], importresults_successes)
  | Some obj =>
      let importresults_successes :=
        importresults_successes ++ [(filepath path, snd out)] in
      prepare_shoot_clean_object h wm obj camera path ;;;
      modify (disposeobject obj) ;;;
      ret (importresults_fails, importresults_successes)
  end.

(** * Properties *)

(** ** The built-ins on examples *)

Example slice_name : Py.slice "cube.obj" None (Some (Py.rfind "cube.obj" ".")) = "cube".
Proof. reflexivity. Qed.

Example slice_extension :
  Py.slice "cube.v2.obj" (Some (Py.rfind "cube.v2.obj" "." + 1)) None = "obj".
Proof. reflexivity. Qed.

(** Without a dot [rfind] is [-1]: the name loses its last character. *)
Example slice_name_without_dot :
  Py.slice "noext" None (Some (Py.rfind "noext" ".")) = "noex".
Proof. reflexivity. Qed.

Example find_first : Py.find "C:\models\sub\a.obj" "a.obj" = 14.
Proof. reflexivity. Qed.

Example find_missing : Py.find "abc" "x" = -1.
Proof. reflexivity. Qed.

Example strip_backslashes : Py.strip "\sub\deep\" "\" = "sub\deep".
Proof. reflexivity. Qed.

Example strip_keeps_slashes : Py.strip "sub/deep/" "\" = "sub/deep/".
Proof. reflexivity. Qed.

Example split_trailing : Py.split "C:\models\" "\" = ["C:"; "models"; EmptyString].
Proof. reflexivity. Qed.

Example split_empty : Py.split EmptyString "/" = [EmptyString].
Proof. reflexivity. Qed.

Example lower_mixed : Py.lower "Zebra.OBJ" = "zebra.obj".
Proof. reflexivity. Qed.

Example str_lt_prefix : Py.str_lt "apple" "apple.obj" = true.
Proof. reflexivity. Qed.

Example str_of_int_12 : Py.str_of_int 12 = "12".
Proof. reflexivity. Qed.

Example join_posix_trailing : os.path_join Posix "/models/" ["sub/"] = "/models/sub/".
Proof. reflexivity. Qed.

Example join_posix_empty : os.path_join Posix "/models" [EmptyString] = "/models/".
Proof. reflexivity. Qed.

Example join_posix_absolute :
  os.path_join Posix "/models/" ["/models/sub"; "a.obj"] = "/models/sub/a.obj".
Proof. reflexivity. Qed.

Example join_nt_empty : os.path_join Windows "C:\models" [EmptyString] = "C:\models\".
Proof. reflexivity. Qed.

Example join_nt_absolute :
  os.path_join Windows "C:\models\" ["C:\models\sub"; "a.obj"] = "C:\models\sub\a.obj".
Proof. reflexivity. Qed.

Example sorted_is_stable :
  sorted (fun a b : nat * nat => (fst a <? fst b)%nat) [(2, 0); (1, 0); (2, 1); (1, 1)]%nat
  = [(1, 0); (1, 1); (2, 0); (2, 1)]%nat.
Proof. reflexivity. Qed.


(** ** Numbers *)

Lemma Py_div_ok (a b : Q) : ~ (b == 0)%Q -> Py.div a b = Ok (a / b)%Q.
Proof.
  intros Hb. unfold Py.div.
  destruct (Qeq_bool b 0) eqn:E; [|reflexivity].
  apply Qeq_bool_iff in E. contradiction.
Qed.

Lemma Py_div_zero (a : Q) : Py.div a 0 = Raise ZeroDivisionError.
Proof. reflexivity. Qed.

Lemma inject_Z_nonzero (z : Z) : z <> 0 -> ~ (inject_Z z == 0)%Q.
Proof.
  intros Hz H. apply Hz. unfold Qeq in H. simpl in H. lia.
Qed.

Lemma Z_ceil_div (a b : Z) : 0 < b -> - ((- a) / b) = ceil_div a b.
Proof.
  intros Hb. unfold ceil_div.
  pose proof (Z.div_mod (- a) b ltac:(lia)) as Hdm.
  pose proof (Z.mod_pos_bound (- a) b Hb) as Hr.
  apply Z.div_unique with (r := b - 1 - (- a) mod b); lia.
Qed.

Lemma Qceiling_div (a b : Z) :
  0 < b -> Qceiling (inject_Z a / inject_Z b) = ceil_div a b.
Proof.
  intros Hb. unfold Qceiling.
  assert (E : (- (inject_Z a / inject_Z b) == inject_Z (- a) / inject_Z b)%Q).
  { rewrite inject_Z_opp. field. apply inject_Z_nonzero. lia. }
  rewrite E, <- Zdiv_Qdiv. now apply Z_ceil_div.
Qed.

Lemma pieces_ceil_div (a b : Z) : 0 < b -> pieces a b = Ok (ceil_div a b).
Proof.
  intros Hb. unfold pieces.
  rewrite Py_div_ok by (apply inject_Z_nonzero; lia).
  cbn. unfold Py.ceil. now rewrite Qceiling_div.
Qed.

Lemma ceil_div_bounds (a b : Z) :
  0 < b -> b * (ceil_div a b - 1) < a <= b * ceil_div a b.
Proof.
  intros Hb. unfold ceil_div.
  pose proof (Z.div_mod (a + b - 1) b ltac:(lia)).
  pose proof (Z.mod_pos_bound (a + b - 1) b Hb). lia.
Qed.

Lemma ceil_div_pos (a b : Z) : 0 < b -> 1 <= a -> 1 <= ceil_div a b.
Proof.
  intros Hb Ha. pose proof (ceil_div_bounds a b Hb). nia.
Qed.

Lemma ceil_div_one (a b : Z) : 0 < b -> (ceil_div a b = 1 <-> 1 <= a <= b).
Proof.
  intros Hb. pose proof (ceil_div_bounds a b Hb). split; intros; nia.
Qed.

(** ** Loops and the tiles of [render] *)

Lemma for_each_rendered {A} (I : World -> Prop) (out : A -> list RenderSettings)
    (body : A -> M unit) (l : list A) :
  (forall x w, In x l -> I w ->
     exists w', body x w = (Ok tt, w') /\ I w' /\ rendered w' = rendered w ++ out x) ->
  forall w, I w ->
    exists w', for_each l body w = (Ok tt, w') /\ I w' /\
               rendered w' = rendered w ++ flat_map out l.
Proof.
  induction l as [|x l IH]; intros Hbody w HI.
  - exists w. cbn. rewrite app_nil_r. auto.
  - destruct (Hbody x w (or_introl eq_refl) HI) as (w1 & E1 & I1 & R1).
    destruct (IH (fun y w Hy => Hbody y w (or_intror Hy)) w1 I1) as (w2 & E2 & I2 & R2).
    exists w2. cbn. unfold bindM. rewrite E1. split; [exact E2|]. split; [exact I2|].
    rewrite R2, R1, <- app_assoc. reflexivity.
Qed.

Lemma In_range (n x : Z) : In x (Py.range n) <-> 0 <= x < n.
Proof.
  unfold Py.range. rewrite in_map_iff. split.
  - intros (k & <- & Hk). apply in_seq in Hk. lia.
  - intros Hx. exists (Z.to_nat x). split; [lia|]. apply in_seq. lia.
Qed.

Lemma flat_map_singleton {A B} (f : A -> B) (l : list A) :
  flat_map (fun x => [f x]) l = map f l.
Proof. induction l; cbn; congruence. Qed.

Lemma tile_body_run (h : Host) (wm : WindowManager) (basepath : string)
    (m rx ry px py row col : Z) (b0 : Q * Q * Q * Q) (w : World) :
  (forall r, host_render_ok h r = true) ->
  rx <> 0 -> ry <> 0 -> px <> 0 -> py <> 0 ->
  tile_ready (orthobatch_imgDivideMode wm) rx ry b0 w ->
  exists w',
    (modify (with_render (set_filepath (rndrpath basepath row col))) ;;;
     set_tile_border wm m px py row col ;;;
     render_op h) w = (Ok tt, w') /\
    tile_ready (orthobatch_imgDivideMode wm) rx ry b0 w' /\
    rendered w' = rendered w ++
      [tile_settings (orthobatch_imgDivideMode wm) basepath m rx ry px py b0 row col].
Proof.
  intros Hok Hrx Hry Hpx Hpy (Ex & Ey & Eb & Ec & Hb).
  destruct w as [objs nid cul act rs rd msgs].
  destruct rs as [rx' ry' ub uc b1 b2 b3 b4 fp]. cbn in *. subst rx' ry' ub uc.
  unfold set_tile_border, tile_settings, tile_box, tile_ready.
  destruct (orthobatch_imgDivideMode wm) eqn:Emode.
  - specialize (Hb eq_refl). unfold border_of in Hb. cbn in Hb. subst b0.
    cbn. unfold render_op, bpy_ops_render_render. cbn. rewrite Hok.
    eexists. split; [reflexivity|]. cbn. auto 10.
  - cbn. unfold bindM, lift, modify. cbn.
    rewrite !(Py_div_ok 1) by (apply inject_Z_nonzero; assumption).
    unfold render_op, bpy_ops_render_render. cbn. rewrite Hok.
    eexists. split; [reflexivity|]. cbn.
    repeat split; try reflexivity. discriminate.
  - cbn. unfold bindM, lift, modify, get. cbn.
    rewrite !Py_div_ok by (apply inject_Z_nonzero; assumption).
    unfold render_op, bpy_ops_render_render. cbn. rewrite Hok.
    eexists. split; [reflexivity|]. cbn.
    repeat split; try reflexivity. discriminate.
Qed.

Lemma render_run (h : Host) (wm : WindowManager) (basepath : string) (m : Z) (w : World) :
  (forall r, host_render_ok h r = true) -> 0 < m ->
  let rx := resolution_x (render_settings w) in
  let ry := resolution_y (render_settings w) in
  let px := ceil_div rx m in
  let py := ceil_div ry m in
  exists w',
    render h wm basepath m w = (Ok tt, w') /\
    rendered w' = rendered w ++
      (if (px =? 1) && (py =? 1)
       then [set_filepath basepath (set_use_border false false (render_settings w))]
       else grid px py
              (tile_settings (orthobatch_imgDivideMode wm) basepath m rx ry px py
                 (border_of (render_settings w)))).
Proof.
  intros Hok Hm rx ry px py.
  unfold render. unfold bindM at 1. cbn [get].
  unfold bindM at 1. unfold lift at 1. rewrite (pieces_ceil_div _ _ Hm).
  unfold bindM at 1. unfold lift at 1. rewrite (pieces_ceil_div _ _ Hm).
  fold rx ry. fold px py.
  destruct ((px =? 1) && (py =? 1)) eqn:E1.
  - unfold bindM, modify, render_op, bpy_ops_render_render. cbn. rewrite Hok.
    eexists. split; reflexivity.
  - unfold bindM at 1. cbn [modify].
    set (w1 := with_render (set_use_border true true) w).
    set (mode := orthobatch_imgDivideMode wm).
    set (b0 := border_of (render_settings w)).
    assert (Hready : tile_ready mode rx ry b0 w1).
    { subst w1. unfold tile_ready. cbn. repeat split; reflexivity. }
    destruct (for_each_rendered (tile_ready mode rx ry b0)
                (fun row => map (tile_settings mode basepath m rx ry px py b0 row)
                              (Py.range py))
                (fun row => for_each (Py.range py) (fun column =>
                   modify (with_render (set_filepath (rndrpath basepath row column))) ;;;
                   set_tile_border wm m px py row column ;;;
                   render_op h))
                (Py.range px)) with (w := w1) as (w' & E & _ & R); [|exact Hready|].
    + intros row w2 Hrow Hw2. apply In_range in Hrow.
      rewrite <- flat_map_singleton.
      apply for_each_rendered; [|exact Hw2].
      intros col w3 Hcol Hw3. apply In_range in Hcol.
      pose proof (ceil_div_bounds rx m Hm). pose proof (ceil_div_bounds ry m Hm).
      fold px in H. fold py in H0.
      apply tile_body_run; try assumption; nia.
    + exists w'. split; [exact E|]. rewrite R. reflexivity.
Qed.

(** ** Consecutive intervals and grids of boxes *)

Section Chains.
Local Open Scope Q_scope.

Lemma chain_le a c l : chain a c l -> a <= c.
Proof. induction 1; lra. Qed.

Lemma chain_inside a c l lo hi :
  chain a c l -> In (lo, hi) l -> a <= lo /\ lo <= hi /\ hi <= c.
Proof.
  induction 1 as [a c lo' hi' Ha Hc Hle | a c lo' hi' l Ha Hle Hch IH]; intros Hin.
  - destruct Hin as [[= -> ->]|[]]. lra.
  - pose proof (chain_le _ _ _ Hch).
    destruct Hin as [[= -> ->]|Hin]; [lra|].
    specialize (IH Hin). lra.
Qed.

Lemma chain_cover a c l x :
  chain a c l -> a <= x <= c -> exists lo hi, In (lo, hi) l /\ lo <= x <= hi.
Proof.
  induction 1 as [a c lo' hi' Ha Hc Hle | a c lo' hi' l Ha Hle Hch IH]; intros Hx.
  - exists lo', hi'. split; [now left | lra].
  - destruct (Qlt_le_dec hi' x) as [Hlt|Hge].
    + destruct IH as (lo & hi & Hin & Hb); [lra|].
      exists lo, hi. split; [now right | exact Hb].
    + exists lo', hi'. split; [now left | lra].
Qed.

Lemma chain_lookup_ge a c l (i : nat) lo hi :
  chain a c l -> l !! i = Some (lo, hi) -> a <= lo.
Proof.
  intros Hch Hi. apply (chain_inside a c l lo hi Hch).
  apply list_elem_of_In. eapply list_elem_of_lookup_2; eassumption.
Qed.

Lemma chain_adjacent a c l (i : nat) lo1 hi1 lo2 hi2 :
  chain a c l -> l !! i = Some (lo1, hi1) -> l !! S i = Some (lo2, hi2) -> hi1 == lo2.
Proof.
  intros Hch. revert i.
  induction Hch as [a c lo' hi' Ha Hc Hle | a c lo' hi' l Ha Hle Hch IH]; intros i H1 H2.
  - destruct i; discriminate.
  - destruct i as [|i].
    + cbn in H1, H2. injection H1 as -> ->.
      inversion Hch; subst; cbn in H2; injection H2 as -> ->; lra.
    + cbn in H1, H2. eapply IH; eassumption.
Qed.

Lemma chain_ordered a c l (i j : nat) lo1 hi1 lo2 hi2 :
  chain a c l -> (i < j)%nat ->
  l !! i = Some (lo1, hi1) -> l !! j = Some (lo2, hi2) -> hi1 <= lo2.
Proof.
  intros Hch. revert i j.
  induction Hch as [a c lo' hi' Ha Hc Hle | a c lo' hi' l Ha Hle Hch IH]; intros i j Hij H1 H2.
  - destruct i, j; try discriminate; lia.
  - destruct j as [|j]; [lia|]. cbn in H2. destruct i as [|i].
    + cbn in H1. injection H1 as -> ->.
      eapply chain_lookup_ge; eassumption.
    + cbn in H1. apply (IH i j); [lia | assumption | assumption].
Qed.

Lemma chain_disjoint a c l (i j : nat) lo1 hi1 lo2 hi2 x :
  chain a c l -> i <> j ->
  l !! i = Some (lo1, hi1) -> l !! j = Some (lo2, hi2) ->
  ~ (lo1 <= x <= hi1 /\ lo2 < x < hi2).
Proof.
  intros Hch Hij H1 H2 [Hc Ho].
  destruct (Nat.lt_ge_cases i j) as [Hlt|Hge].
  - pose proof (chain_ordered _ _ _ _ _ _ _ _ _ Hch Hlt H1 H2). lra.
  - assert (Hlt : (j < i)%nat) by lia.
    pose proof (chain_ordered _ _ _ _ _ _ _ _ _ Hch Hlt H2 H1). lra.
Qed.

Lemma chain_sum a c l :
  chain a c l -> Qsum (map (fun '(lo, hi) => hi - lo) l) == c - a.
Proof.
  induction 1 as [a c lo' hi' Ha Hc Hle | a c lo' hi' l Ha Hle Hch IH]; cbn.
  - lra.
  - cbn in IH. rewrite IH. lra.
Qed.

End Chains.

Section Grids.
Local Open Scope Q_scope.

Lemma Qsum_app l1 l2 : Qsum (l1 ++ l2) == Qsum l1 + Qsum l2.
Proof.
  unfold Qsum. induction l1 as [|q l1 IH]; cbn [app fold_right]; [lra | rewrite IH; lra].
Qed.

Lemma boxes_of_In xs ys b :
  In b (boxes_of xs ys) <->
  exists x0 x1 y0 y1, b = (x0, x1, y0, y1) /\ In (x0, x1) xs /\ In (y0, y1) ys.
Proof.
  unfold boxes_of. rewrite in_flat_map. split.
  - intros ([x0 x1] & Hx & Hb). apply in_map_iff in Hb as ([y0 y1] & <- & Hy).
    exists x0, x1, y0, y1. auto.
  - intros (x0 & x1 & y0 & y1 & -> & Hx & Hy).
    exists (x0, x1). split; [exact Hx|]. apply in_map_iff. exists (y0, y1). auto.
Qed.

Lemma boxes_of_length xs ys : length (boxes_of xs ys) = (length xs * length ys)%nat.
Proof.
  unfold boxes_of. induction xs as [|[x0 x1] xs IH]; cbn; [reflexivity|].
  rewrite length_app, length_map, IH. reflexivity.
Qed.

Lemma boxes_of_lookup_grid xs ys (r c : nat) :
  (c < length ys)%nat ->
  boxes_of xs ys !! (r * length ys + c)%nat =
  match xs !! r, ys !! c with
  | Some (x0, x1), Some (y0, y1) => Some (x0, x1, y0, y1)
  | _, _ => None
  end.
Proof.
  intros Hc. revert r. induction xs as [|[x0 x1] xs IH]; intros r.
  - cbn. rewrite !lookup_nil. reflexivity.
  - change (boxes_of ((x0, x1) :: xs) ys)
      with (map (fun '(y0, y1) => (x0, x1, y0, y1)) ys ++ boxes_of xs ys).
    destruct r as [|r].
    + cbn [Nat.mul Nat.add]. rewrite lookup_app_l by (rewrite length_map; lia).
      change (map ?f ys) with (f <$> ys). rewrite list_lookup_fmap. cbn.
      destruct (ys !! c) as [[y0 y1]|]; reflexivity.
    + rewrite lookup_app_r by (rewrite length_map; lia).
      rewrite length_map.
      replace (S r * length ys + c - length ys)%nat with (r * length ys + c)%nat by lia.
      rewrite IH. reflexivity.
Qed.

Lemma boxes_of_lookup xs ys (i : nat) b :
  boxes_of xs ys !! i = Some b ->
  exists (r c : nat) x0 x1 y0 y1,
    i = (r * length ys + c)%nat /\ (c < length ys)%nat /\
    xs !! r = Some (x0, x1) /\ ys !! c = Some (y0, y1) /\ b = (x0, x1, y0, y1).
Proof.
  intros Hi.
  assert (Hlen : (i < length xs * length ys)%nat).
  { rewrite <- boxes_of_length. eapply lookup_lt_Some; eassumption. }
  assert (Hys : (0 < length ys)%nat) by nia.
  pose proof (Nat.div_mod_eq i (length ys)) as Hdm.
  pose proof (Nat.mod_upper_bound i (length ys) ltac:(lia)) as Hmod.
  set (r := (i / length ys)%nat) in *. set (c := (i mod length ys)%nat) in *.
  assert (Ei : i = (r * length ys + c)%nat) by lia.
  rewrite Ei, boxes_of_lookup_grid in Hi by exact Hmod.
  destruct (xs !! r) as [[x0 x1]|] eqn:Er; [|discriminate].
  destruct (ys !! c) as [[y0 y1]|] eqn:Ec; [|discriminate].
  injection Hi as <-. exists r, c, x0, x1, y0, y1. auto.
Qed.

Lemma boxes_of_area xs ys :
  Qsum (map box_area (boxes_of xs ys)) == Qsum (map width xs) * Qsum (map width ys).
Proof.
  unfold boxes_of. induction xs as [|[x0 x1] xs IH]; cbn [flat_map map].
  - unfold Qsum. cbn [fold_right]. lra.
  - rewrite map_app, Qsum_app, IH.
    assert (E : Qsum (map box_area (map (fun '(y0, y1) => (x0, x1, y0, y1)) ys))
                == (x1 - x0) * Qsum (map width ys)).
    { clear IH. unfold Qsum.
      induction ys as [|[y0 y1] ys IHy]; cbn [map fold_right box_area width]; [lra|].
      rewrite IHy. lra. }
    rewrite E. unfold Qsum. cbn [fold_right width]. lra.
Qed.

Lemma chain_width_sum a c l : chain a c l -> Qsum (map width l) == c - a.
Proof.
  intros H. rewrite <- (chain_sum _ _ _ H). unfold width. reflexivity.
Qed.

(** A grid built from two chains of the unit interval tiles the unit square. *)
Lemma chains_partition xs ys :
  chain 0 1 xs -> chain 0 1 ys -> partitions_unit_square (boxes_of xs ys).
Proof.
  intros Hx Hy. repeat split.
  - apply boxes_of_In in H as (x0 & x1 & y0 & y1 & -> & Hinx & Hiny).
    pose proof (chain_inside _ _ _ _ _ Hx Hinx). cbn in H0. lra.
  - apply boxes_of_In in H as (x0 & x1 & y0 & y1 & -> & Hinx & Hiny).
    pose proof (chain_inside _ _ _ _ _ Hx Hinx). cbn in H0. lra.
  - apply boxes_of_In in H as (x0 & x1 & y0 & y1 & -> & Hinx & Hiny).
    pose proof (chain_inside _ _ _ _ _ Hy Hiny). cbn in H0. lra.
  - apply boxes_of_In in H as (x0 & x1 & y0 & y1 & -> & Hinx & Hiny).
    pose proof (chain_inside _ _ _ _ _ Hy Hiny). cbn in H0. lra.
  - intros x y Hxr Hyr.
    destruct (chain_cover _ _ _ x Hx Hxr) as (x0 & x1 & Hinx & Hbx).
    destruct (chain_cover _ _ _ y Hy Hyr) as (y0 & y1 & Hiny & Hby).
    exists (x0, x1, y0, y1). split; [|cbn; lra].
    apply boxes_of_In. exists x0, x1, y0, y1. auto.
  - intros i j b1 b2 x y Hij H1 H2 [Hb1 Hb2].
    apply boxes_of_lookup in H1 as (r1 & c1 & x0 & x1 & y0 & y1 & -> & Hc1 & Hr1 & Hcc1 & ->).
    apply boxes_of_lookup in H2 as (r2 & c2 & x0' & x1' & y0' & y1' & -> & Hc2 & Hr2 & Hcc2 & ->).
    cbn in Hb1, Hb2.
    destruct (Nat.eq_dec r1 r2) as [->|Hr].
    + assert (Hc : c1 <> c2) by (intros ->; apply Hij; reflexivity).
      apply (chain_disjoint _ _ _ _ _ _ _ _ _ y Hy Hc Hcc1 Hcc2). lra.
    + apply (chain_disjoint _ _ _ _ _ _ _ _ _ x Hx Hr Hr1 Hr2). lra.
  - rewrite boxes_of_area, !chain_width_sum by eassumption. lra.
Qed.

(** Neighbours in such a grid share their boundary. *)
Lemma chains_boundaries xs ys :
  chain 0 1 xs -> chain 0 1 ys ->
  boundaries_coincide (length xs) (length ys) (boxes_of xs ys).
Proof.
  intros Hx Hy. split; [apply boxes_of_length|].
  intros r c x0 x1 y0 y1 Hc H1.
  rewrite boxes_of_lookup_grid in H1 by exact Hc.
  destruct (xs !! r) as [[a0 a1]|] eqn:Er; [|discriminate].
  destruct (ys !! c) as [[b0 b1]|] eqn:Ec; [|discriminate].
  injection H1 as -> -> -> ->. split.
  - intros x0' x1' y0' y1' H2.
    rewrite boxes_of_lookup_grid in H2 by exact Hc.
    destruct (xs !! S r) as [[a0' a1']|] eqn:Er'; [|discriminate].
    rewrite Ec in H2. injection H2 as -> -> -> ->.
    pose proof (chain_adjacent _ _ _ _ _ _ _ _ Hx Er Er'). lra.
  - intros x0' x1' y0' y1' Hc' H2.
    rewrite boxes_of_lookup_grid in H2 by exact Hc'.
    rewrite Er in H2.
    destruct (ys !! S c) as [[b0' b1']|] eqn:Ec'; [|discriminate].
    injection H2 as -> -> -> ->.
    pose proof (chain_adjacent _ _ _ _ _ _ _ _ Hy Ec Ec'). lra.
Qed.

End Grids.

(** ** The cuts of [evensize] and [maxsize] are chains *)

Section Cuts.
Local Open Scope Q_scope.

Lemma chain_start a a' c l : chain a c l -> a == a' -> chain a' c l.
Proof.
  intros H E. destruct H; [apply chain_last | apply chain_step]; try assumption; lra.
Qed.

Lemma chain_of_cuts_from (cut : Z -> Q * Q) (c : Q) (p s : nat) :
  snd (cut (Z.of_nat (s + p))) == c ->
  (forall k : nat, (s <= k <= s + p)%nat -> fst (cut (Z.of_nat k)) <= snd (cut (Z.of_nat k))) ->
  (forall k : nat, (s <= k < s + p)%nat ->
     snd (cut (Z.of_nat k)) == fst (cut (Z.of_nat (S k)))) ->
  chain (fst (cut (Z.of_nat s))) c (map cut (map Z.of_nat (seq s (S p)))).
Proof.
  revert s. induction p as [|p IH]; intros s Hend Hle Hadj.
  - cbn [seq map]. rewrite Nat.add_0_r in Hend.
    destruct (cut (Z.of_nat s)) as [lo hi] eqn:E. cbn [fst snd] in *.
    apply chain_last; [reflexivity | exact Hend |].
    specialize (Hle s ltac:(lia)). rewrite E in Hle. exact Hle.
  - change (seq s (S (S p))) with (s :: seq (S s) (S p)). cbn [map].
    pose proof (Hle s ltac:(lia)) as Hle0.
    pose proof (Hadj s ltac:(lia)) as Hadj0.
    specialize (IH (S s)).
    destruct (cut (Z.of_nat s)) as [lo hi] eqn:E. cbn [fst snd] in *.
    apply chain_step; [reflexivity | exact Hle0 |].
    assert (Hch : chain (fst (cut (Z.of_nat (S s)))) c
                    (map cut (map Z.of_nat (seq (S s) (S p))))).
    { apply IH.
      - replace (S s + p)%nat with (s + S p)%nat by lia. exact Hend.
      - intros k Hk. apply Hle. lia.
      - intros k Hk. apply Hadj. lia. }
    apply (chain_start _ _ _ _ Hch). lra.
Qed.

Lemma chain_of_cuts (cut : Z -> Q * Q) (a c : Q) (n : Z) :
  (1 <= n)%Z ->
  fst (cut 0%Z) == a -> snd (cut (n - 1)%Z) == c ->
  (forall k, (0 <= k < n)%Z -> fst (cut k) <= snd (cut k)) ->
  (forall k, (0 <= k < n - 1)%Z -> snd (cut k) == fst (cut (k + 1)%Z)) ->
  chain a c (map cut (Py.range n)).
Proof.
  intros Hn Ha Hc Hle Hadj. unfold Py.range.
  destruct (Z.to_nat n) as [|p] eqn:En; [lia|].
  assert (Hch : chain (fst (cut (Z.of_nat 0))) c (map cut (map Z.of_nat (seq 0 (S p))))).
  { apply chain_of_cuts_from.
    - replace (Z.of_nat (0 + p)) with (n - 1)%Z by lia. exact Hc.
    - intros k Hk. apply Hle. lia.
    - intros k Hk. replace (Z.of_nat (S k)) with (Z.of_nat k + 1)%Z by lia.
      apply Hadj. lia. }
  cbn [Z.of_nat] in Hch. apply (chain_start _ _ _ _ Hch). exact Ha.
Qed.

Lemma inject_Z_pos (z : Z) : (0 < z)%Z -> 0 < inject_Z z.
Proof. intros H. change 0 with (inject_Z 0). rewrite <- Zlt_Qlt. exact H. Qed.

Lemma inject_Z_div_le (a b d : Z) :
  (a <= b)%Z -> (0 < d)%Z -> inject_Z a / inject_Z d <= inject_Z b / inject_Z d.
Proof.
  intros Hab Hd. unfold Qdiv. apply Qmult_le_compat_r.
  - rewrite <- Zle_Qle. exact Hab.
  - apply Qlt_le_weak, Qinv_lt_0_compat, inject_Z_pos, Hd.
Qed.

Lemma even_cut_chain (n : Z) : (1 <= n)%Z -> chain 0 1 (map (even_cut n) (Py.range n)).
Proof.
  intros Hn.
  assert (Hpos : 0 < inject_Z n) by (apply inject_Z_pos; lia).
  assert (Hinv : 0 < 1 / inject_Z n).
  { unfold Qdiv. rewrite Qmult_1_l. now apply Qinv_lt_0_compat. }
  apply chain_of_cuts; [exact Hn | | | |]; unfold even_cut; cbn [fst snd].
  - change (inject_Z 0) with 0. lra.
  - replace (n - 1 + 1)%Z with n by lia. field. lra.
  - intros k _. rewrite inject_Z_plus. change (inject_Z 1) with 1.
    rewrite Qmult_plus_distr_r. lra.
  - intros k _. reflexivity.
Qed.

Lemma max_cut_chain (m len : Z) :
  (1 <= m)%Z -> (1 <= len)%Z ->
  chain 0 1 (map (max_cut m len) (Py.range (ceil_div len m))).
Proof.
  intros Hm Hlen.
  pose proof (ceil_div_bounds len m ltac:(lia)) as Hb.
  pose proof (ceil_div_pos len m ltac:(lia) Hlen) as Hn.
  assert (Hpos : 0 < inject_Z len) by (apply inject_Z_pos; lia).
  apply chain_of_cuts; [exact Hn | | | |]; unfold max_cut; cbn [fst snd].
  - rewrite Z.mul_0_r. change (inject_Z 0) with 0. unfold Qdiv. lra.
  - rewrite Z.min_r by nia. field. lra.
  - intros k Hk. apply inject_Z_div_le; [|lia]. apply Z.min_glb; nia.
  - intros k Hk. rewrite Z.min_l by nia. reflexivity.
Qed.

End Cuts.

(** ** The crop boxes of the tiles *)

Lemma grid_boxes_of (fx fy : Z -> Q * Q) (px py : Z) :
  grid px py (fun row col => (fst (fx row), snd (fx row), fst (fy col), snd (fy col)))
  = boxes_of (map fx (Py.range px)) (map fy (Py.range py)).
Proof.
  unfold grid, boxes_of.
  induction (Py.range px) as [|row rows IH]; cbn [flat_map map]; [reflexivity|].
  rewrite IH. f_equal.
  destruct (fx row) as [x0 x1]. cbn [fst snd].
  rewrite map_map. apply map_ext. intros col. destruct (fy col); reflexivity.
Qed.

Lemma map_grid {A B} (f : A -> B) (px py : Z) (tile : Z -> Z -> A) :
  map f (grid px py tile) = grid px py (fun row col => f (tile row col)).
Proof.
  unfold grid. induction (Py.range px) as [|row rows IH]; cbn [flat_map map]; [reflexivity|].
  rewrite map_app, IH, map_map. reflexivity.
Qed.

Lemma length_range (n : Z) : length (Py.range n) = Z.to_nat n.
Proof. unfold Py.range. now rewrite length_map, length_seq. Qed.

Lemma crop_box_tile_settings mode basepath m rx ry px py b0 row col :
  crop_box (tile_settings mode basepath m rx ry px py b0 row col)
  = tile_box mode m rx ry px py b0 row col.
Proof.
  unfold tile_settings. destruct (tile_box mode m rx ry px py b0 row col) as [[[x0 x1] y0] y1].
  reflexivity.
Qed.

Lemma tile_boxes_even basepath m rx ry px py b0 :
  map crop_box (grid px py (tile_settings evensize basepath m rx ry px py b0))
  = boxes_of (map (even_cut px) (Py.range px)) (map (even_cut py) (Py.range py)).
Proof.
  rewrite map_grid, <- grid_boxes_of. unfold grid.
  apply flat_map_ext. intros row. apply map_ext. intros col.
  apply crop_box_tile_settings.
Qed.

Lemma tile_boxes_max basepath m rx ry px py b0 :
  map crop_box (grid px py (tile_settings maxsize basepath m rx ry px py b0))
  = boxes_of (map (max_cut m rx) (Py.range px)) (map (max_cut m ry) (Py.range py)).
Proof.
  rewrite map_grid, <- grid_boxes_of. unfold grid.
  apply flat_map_ext. intros row. apply map_ext. intros col.
  apply crop_box_tile_settings.
Qed.

Lemma full_frame_chain : chain 0 1 [(0, 1)%Q].
Proof. apply chain_last; lra. Qed.

(** ** The tiled render: C1 and C2 *)

(** C1.  For every resolution [(w, h)] with [w, h >= 1] and every positive
    [max_res], under [evensize] or [maxsize] the crop boxes of the images
    that [render] writes partition the unit square: the boxes lie in it and
    cover it, no point of a box lies inside another box, the areas add up to
    one, and neighbouring tiles share their boundary coordinate. *)
Theorem C1_tiles_partition_unit_square (h : Host) (wm : WindowManager)
    (basepath : string) (m : Z) (w : World) :
  (forall r, host_render_ok h r = true) ->
  1 <= m ->
  1 <= resolution_x (render_settings w) ->
  1 <= resolution_y (render_settings w) ->
  orthobatch_imgDivideMode wm = evensize \/ orthobatch_imgDivideMode wm = maxsize ->
  exists w' tiles,
    render h wm basepath m w = (Ok tt, w') /\
    rendered w' = rendered w ++ tiles /\
    partitions_unit_square (map crop_box tiles) /\
    boundaries_coincide
      (Z.to_nat (ceil_div (resolution_x (render_settings w)) m))
      (Z.to_nat (ceil_div (resolution_y (render_settings w)) m))
      (map crop_box tiles).
Proof.
  intros Hok Hm Hrx Hry Hmode.
  destruct (render_run h wm basepath m w Hok ltac:(lia)) as (w' & Erun & Erend).
  cbv zeta in Erend.
  set (rx := resolution_x (render_settings w)) in *.
  set (ry := resolution_y (render_settings w)) in *.
  pose proof (ceil_div_pos rx m ltac:(lia) Hrx) as Hpx.
  pose proof (ceil_div_pos ry m ltac:(lia) Hry) as Hpy.
  set (px := ceil_div rx m) in *. set (py := ceil_div ry m) in *.
  eexists w', _. split; [exact Erun|]. split; [exact Erend|].
  destruct ((px =? 1) && (py =? 1)) eqn:E1.
  - apply andb_prop in E1 as [Ex Ey]. apply Z.eqb_eq in Ex, Ey. rewrite Ex, Ey.
    change (map crop_box _) with (boxes_of [(0, 1)%Q] [(0, 1)%Q]).
    split; [apply chains_partition | apply (chains_boundaries [(0, 1)%Q] [(0, 1)%Q])];
      apply full_frame_chain.
  - destruct Hmode as [-> | ->].
    + rewrite tile_boxes_even.
      pose proof (even_cut_chain px Hpx) as Cx. pose proof (even_cut_chain py Hpy) as Cy.
      split; [now apply chains_partition|].
      pose proof (chains_boundaries _ _ Cx Cy) as B.
      rewrite !length_map, !length_range in B. exact B.
    + rewrite tile_boxes_max.
      pose proof (max_cut_chain m rx Hm Hrx) as Cx.
      pose proof (max_cut_chain m ry Hm Hry) as Cy.
      split; [now apply chains_partition|].
      pose proof (chains_boundaries _ _ Cx Cy) as B.
      rewrite !length_map, !length_range in B. exact B.
Qed.

Lemma C1_witness :
  exists w' tiles,
    render (example_host Posix (Folder "models" [] []) []) example_wm "/out/cube_Z" 4096
      (empty_world 4097 5000) = (Ok tt, w') /\
    rendered w' = rendered (empty_world 4097 5000) ++ tiles /\
    partitions_unit_square (map crop_box tiles) /\
    boundaries_coincide 2 2 (map crop_box tiles).
Proof.
  apply (C1_tiles_partition_unit_square
           (example_host Posix (Folder "models" [] []) []) example_wm "/out/cube_Z" 4096
           (empty_world 4097 5000)).
  - intros r. reflexivity.
  - lia.
  - simpl. lia.
  - simpl. lia.
  - right. reflexivity.
Defined.

Lemma tile_settings_filepath mode basepath m rx ry px py b0 row col :
  render_filepath (tile_settings mode basepath m rx ry px py b0 row col)
  = rndrpath basepath row col.
Proof.
  unfold tile_settings. destruct (tile_box mode m rx ry px py b0 row col) as [[[x0 x1] y0] y1].
  reflexivity.
Qed.

Lemma tile_settings_border_on mode basepath m rx ry px py b0 row col :
  use_border (tile_settings mode basepath m rx ry px py b0 row col) = true /\
  use_crop_to_border (tile_settings mode basepath m rx ry px py b0 row col) = true.
Proof.
  unfold tile_settings. destruct (tile_box mode m rx ry px py b0 row col) as [[[x0 x1] y0] y1].
  split; reflexivity.
Qed.

Lemma grid_ext {A} (px py : Z) (f g : Z -> Z -> A) :
  (forall row col, f row col = g row col) -> grid px py f = grid px py g.
Proof.
  intros E. unfold grid. apply flat_map_ext. intros row. apply map_ext. intros col. apply E.
Qed.

Lemma In_grid {A} (px py : Z) (f : Z -> Z -> A) (x : A) :
  In x (grid px py f) <-> exists row col, 0 <= row < px /\ 0 <= col < py /\ x = f row col.
Proof.
  unfold grid. rewrite in_flat_map. split.
  - intros (row & Hrow & Hx). apply in_map_iff in Hx as (col & <- & Hcol).
    apply In_range in Hrow, Hcol. eauto.
  - intros (row & col & Hrow & Hcol & ->). exists row.
    split; [now apply In_range|]. apply in_map_iff. exists col.
    split; [reflexivity | now apply In_range].
Qed.

(** C2.  [render] cuts a resolution [(w, h)] with [tileCountX = ceil(w / m)]
    and [tileCountY = ceil(h / m)].  With one tile each way it writes one
    full-frame image (border off) to [basepath]; otherwise it writes the tile
    at [(row, col)] to [basepath + "_" + str(row + 1) + "_" + str(col + 1)],
    a function of its arguments alone.  Width 4096 with [m = 4096] is one
    tile; width 4097 gives two, and under [maxsize] the second is one pixel
    wide. *)
Theorem C2_tiling_decomposition (h : Host) (wm : WindowManager)
    (basepath : string) (m : Z) (w : World) :
  (forall r, host_render_ok h r = true) ->
  1 <= m ->
  let rx := resolution_x (render_settings w) in
  let ry := resolution_y (render_settings w) in
  let tileCountX := ceil_div rx m in
  let tileCountY := ceil_div ry m in
  pieces rx m = Ok tileCountX /\ pieces ry m = Ok tileCountY /\
  m * (tileCountX - 1) < rx <= m * tileCountX /\
  m * (tileCountY - 1) < ry <= m * tileCountY /\
  pieces 4096 4096 = Ok 1 /\ pieces 4097 4096 = Ok 2 /\
  exists w' tiles,
    render h wm basepath m w = (Ok tt, w') /\
    rendered w' = rendered w ++ tiles /\
    (tileCountX = 1 /\ tileCountY = 1 ->
       exists r, tiles = [r] /\ render_filepath r = basepath /\
                 use_border r = false /\ use_crop_to_border r = false /\
                 crop_box r = (0, 1, 0, 1)%Q /\
                 resolution_x r = rx /\ resolution_y r = ry) /\
    (~ (tileCountX = 1 /\ tileCountY = 1) ->
       map render_filepath tiles =
         grid tileCountX tileCountY
           (fun row col => basepath +:+ "_" +:+ Py.str_of_int (row + 1)
                                    +:+ "_" +:+ Py.str_of_int (col + 1)) /\
       (forall r, In r tiles -> use_border r = true /\ use_crop_to_border r = true) /\
       (orthobatch_imgDivideMode wm = maxsize ->
          map crop_box tiles =
            grid tileCountX tileCountY
              (fun row col =>
                 (inject_Z (m * row) / inject_Z rx,
                  inject_Z (Z.min (m * (row + 1)) rx) / inject_Z rx,
                  inject_Z (m * col) / inject_Z ry,
                  inject_Z (Z.min (m * (col + 1)) ry) / inject_Z ry)%Q))) /\
    (rx = 4097 -> m = 4096 -> 1 <= ry <= 4096 ->
     orthobatch_imgDivideMode wm = maxsize ->
       exists t1 t2, tiles = [t1; t2] /\
         render_filepath t1 = basepath +:+ "_1_1" /\
         render_filepath t2 = basepath +:+ "_2_1" /\
         ((border_max_x t2 - border_min_x t2) * inject_Z rx == 1)%Q).
Proof.
  intros Hok Hm rx ry px py.
  split; [apply pieces_ceil_div; lia|]. split; [apply pieces_ceil_div; lia|].
  split; [apply ceil_div_bounds; lia|]. split; [apply ceil_div_bounds; lia|].
  split; [reflexivity|]. split; [reflexivity|].
  destruct (render_run h wm basepath m w Hok ltac:(lia)) as (w' & Erun & Erend).
  cbv zeta in Erend. fold rx ry in Erend. fold px py in Erend.
  eexists w', _. split; [exact Erun|]. split; [exact Erend|].
  split; [|split].
  - intros [Ex Ey]. rewrite Ex, Ey. cbn [Z.eqb Pos.eqb andb].
    eexists. split; [reflexivity|]. cbn. auto 10.
  - intros Hn.
    assert (E1 : (px =? 1) && (py =? 1) = false).
    { apply Bool.not_true_is_false. intros E. apply andb_prop in E as [Ex Ey].
      apply Z.eqb_eq in Ex, Ey. auto. }
    rewrite E1. split; [|split].
    + rewrite map_grid. apply grid_ext. intros row col. apply tile_settings_filepath.
    + intros r Hr. apply In_grid in Hr as (row & col & _ & _ & ->).
      apply tile_settings_border_on.
    + intros Emode. rewrite Emode, map_grid. apply grid_ext. intros row col.
      apply crop_box_tile_settings.
  - intros Erx Em Hry Emode.
    assert (Epx : px = 2) by (subst px; rewrite Erx, Em; reflexivity).
    assert (Epy : py = 1) by (subst py; apply ceil_div_one; lia).
    rewrite Epx, Epy, Emode, Erx, Em. cbn [Z.eqb Pos.eqb andb].
    eexists _, _. split; [reflexivity|].
    split; [reflexivity|]. split; [reflexivity|].
    cbn. reflexivity.
Qed.

Lemma C2_witness :
  exists w' tiles,
    render (example_host Posix (Folder "models" [] []) []) example_wm "/out/cube_Z" 4096
      (empty_world 4097 4096) = (Ok tt, w') /\
    rendered w' = tiles /\
    map render_filepath tiles = ["/out/cube_Z_1_1"; "/out/cube_Z_2_1"] /\
    map crop_box tiles =
      [(inject_Z 0 / inject_Z 4097, inject_Z 4096 / inject_Z 4097,
        inject_Z 0 / inject_Z 4096, inject_Z 4096 / inject_Z 4096);
       (inject_Z 4096 / inject_Z 4097, inject_Z 4097 / inject_Z 4097,
        inject_Z 0 / inject_Z 4096, inject_Z 4096 / inject_Z 4096)]%Q.
Proof.
  destruct (C2_tiling_decomposition
              (example_host Posix (Folder "models" [] []) []) example_wm "/out/cube_Z" 4096
              (empty_world 4097 4096) (fun _ => eq_refl) ltac:(lia))
    as (_ & _ & _ & _ & _ & _ & w' & tiles & Erun & Erend & _ & Htiled & _).
  exists w', tiles. split; [exact Erun|]. split; [exact Erend|].
  destruct Htiled as (Hpaths & _ & Hboxes).
  - simpl. intros [E _]. discriminate E.
  - split; [exact Hpaths | exact (Hboxes eq_refl)].
Defined.

(** A width of 0 gives no tile at all: the loops of [render] run over an
    empty range and nothing is rendered. *)
Example render_zero_width_renders_nothing :
  render (example_host Posix (Folder "models" [] []) []) example_wm "/out/cube_Z" 4096
    (empty_world 0 5000)
  = (Ok tt, with_render (set_use_border true true) (empty_world 0 5000)).
Proof. reflexivity. Qed.

(** ** The resolution policy: C3 and C4 *)

Section Resolution.
Local Open Scope Q_scope.

Lemma Py_max_cases (a b : Q) :
  (Py.max a b = a /\ b <= a) \/ (Py.max a b = b /\ a < b).
Proof. unfold Py.max. destruct (Qlt_le_dec a b); [right | left]; auto. Qed.

Lemma Py_max_pos (a b : Q) : 0 < a -> 0 < b -> 0 < Py.max a b.
Proof. intros Ha Hb. destruct (Py_max_cases a b) as [[-> _]|[-> _]]; assumption. Qed.

Lemma Qceiling_gt (m : Z) (x : Q) : (m < Qceiling x)%Z <-> inject_Z m < x.
Proof.
  split; intros H.
  - apply Qle_lt_trans with (inject_Z (Qceiling x - 1)); [|apply Qceiling_lt].
    rewrite <- Zle_Qle. lia.
  - rewrite Zlt_Qlt. apply Qlt_le_trans with x; [exact H | apply Qle_ceiling].
Qed.

Lemma Qceiling_pos (x : Q) : 0 < x -> (1 <= Qceiling x)%Z.
Proof.
  intros H. assert (0 < Qceiling x)%Z; [|lia]. apply Qceiling_gt. exact H.
Qed.

Lemma max_image_size_pos (wm : WindowManager) (m : Z) :
  max_image_size wm = Ok m -> (256 <= m)%Z.
Proof.
  unfold max_image_size. destruct (orthobatch_maxImgSize wm); intros [= <-]; lia.
Qed.

(** The test of [reduceres] on the extents is the test on the resolution. *)
Lemma reduce_test (m p : Z) (ew eh : Q) :
  0 < ew -> 0 < eh -> (0 <= m)%Z ->
  (inject_Z m < Py.max ew eh * inject_Z p
   <-> (m < Z.max (Qceiling (inject_Z p * ew)) (Qceiling (inject_Z p * eh)))%Z).
Proof.
  intros Hew Heh Hm.
  assert (Hm' : 0 <= inject_Z m) by (change 0 with (inject_Z 0); rewrite <- Zle_Qle; lia).
  rewrite Z.max_lt_iff, !Qceiling_gt.
  destruct (Z_lt_le_dec p 0) as [Hneg|Hpos].
  - assert (Hp : inject_Z p < 0) by (change 0 with (inject_Z 0); rewrite <- Zlt_Qlt; lia).
    pose proof (Py_max_pos ew eh Hew Heh).
    split; [intros H1 | intros [H1|H1]]; exfalso; nra.
  - assert (Hp : 0 <= inject_Z p) by (change 0 with (inject_Z 0); rewrite <- Zle_Qle; lia).
    destruct (Py_max_cases ew eh) as [[-> Hle]|[-> Hlt]].
    + split; [intros H1; left; lra | intros [H1|H1]; nra].
    + split; [intros H1; right; lra | intros [H1|H1]; nra].
Qed.

End Resolution.

(** The policy for the preset sizes.  For a positive view extent
    [(ew, eh)], pixels per unit [p] and a max dimension [m] of the presets:
    under [samesize] the scale is [m / max(ew, eh)], the
    resolution is its ceiling per axis, and the longer axis is [m]; under
    [uniformscale] with [reduceres] the scale is [p] unless the resolution
    [p] gives exceeds [m], and then it is [m / max(ew, eh)]; under
    [uniformscale] with [evensize] or [maxsize] the resolution
    [(ceil(p * ew), ceil(p * eh))] is kept and [render] is called with it. *)
Lemma resolution_policy_presets (wm : WindowManager) (m : Z) (ew eh : Q) :
  (0 < ew)%Q -> (0 < eh)%Q ->
  max_image_size wm = Ok m ->
  let p := inject_Z (orthobatch_imgSize wm) in
  let longest := Py.max ew eh in
  (orthobatch_scaleMode wm = samesize ->
     let px := (inject_Z m / longest)%Q in
     resolution_policy wm (ew, eh)
       = Ok (px, (Qceiling (px * ew), Qceiling (px * eh))) /\
     Z.max (Qceiling (px * ew)) (Qceiling (px * eh)) = m) /\
  (orthobatch_scaleMode wm = uniformscale ->
   orthobatch_imgDivideMode wm = reduceres ->
     let px := if m <? Z.max (Qceiling (p * ew)) (Qceiling (p * eh))
               then (inject_Z m / longest)%Q else p in
     resolution_policy wm (ew, eh)
       = Ok (px, (Qceiling (px * ew), Qceiling (px * eh)))) /\
  (orthobatch_scaleMode wm = uniformscale ->
   orthobatch_imgDivideMode wm = evensize \/ orthobatch_imgDivideMode wm = maxsize ->
     resolution_policy wm (ew, eh) = Ok (p, (Qceiling (p * ew), Qceiling (p * eh))) /\
     forall (h : Host) (camera target : nat) (direction : shootDirection)
            (path : string) (w : World) (o : Object),
       objects w !! target = Some o ->
       target_bb_viewsize (dimensions o) direction (orthobatch_imgPadding wm) = (ew, eh) ->
       shoottarget h wm camera target direction path w
       = render h wm path m
           (with_render (set_resolution (Qceiling (p * ew)) (Qceiling (p * eh)))
              (with_objects (alter (select_set false) target) w))).
Proof.
  intros Hew Heh Hm p longest.
  pose proof (max_image_size_pos wm m Hm) as Hmpos.
  assert (Hlong : (0 < longest)%Q) by (apply Py_max_pos; assumption).
  assert (Hdiv : Py.div (inject_Z m) longest = Ok (inject_Z m / longest)%Q).
  { apply Py_div_ok. intros E. rewrite E in Hlong. apply (Qlt_irrefl 0), Hlong. }
  split; [|split].
  - intros Escale px. unfold resolution_policy. rewrite Hm. unfold bind at 1.
    unfold px_per_unit. rewrite Escale. cbn [fst snd].
    fold longest. rewrite Hdiv. cbn [bind]. split; [reflexivity|].
    assert (Epx : (px * longest == inject_Z m)%Q) by (unfold px; field; lra).
    assert (Hpx : (0 < px)%Q).
    { unfold px. apply Qlt_shift_div_l; [exact Hlong|].
      rewrite Qmult_0_l. change 0%Q with (inject_Z 0). rewrite <- Zlt_Qlt. lia. }
    assert (Etop : Qceiling (px * longest) = m) by (rewrite Epx; apply Qceiling_Z).
    destruct (Py_max_cases ew eh) as [[E Hle]|[E Hlt]]; fold longest in E.
    + rewrite E in Etop. rewrite Etop. apply Z.max_l.
      rewrite <- Etop. apply Qceiling_resp_le. nra.
    + rewrite E in Etop. rewrite Etop. apply Z.max_r.
      rewrite <- Etop. apply Qceiling_resp_le. nra.
  - intros Escale Emode px. unfold resolution_policy. rewrite Hm. unfold bind at 1.
    unfold px_per_unit. rewrite Escale, Emode. cbn [fst snd].
    fold longest. fold p.
    pose proof (reduce_test m (orthobatch_imgSize wm) ew eh Hew Heh ltac:(lia)) as Htest.
    fold longest in Htest. fold p in Htest.
    destruct (Qlt_le_dec (inject_Z m) (longest * p)) as [Hlt|Hge].
    + apply Htest in Hlt. apply Z.ltb_lt in Hlt. subst px. rewrite Hlt, Hdiv. reflexivity.
    + assert (Hn : (m <? Z.max (Qceiling (p * ew)) (Qceiling (p * eh))) = false).
      { apply Z.ltb_ge. apply Z.le_ngt. intros Hlt. apply Htest in Hlt.
        apply (Qlt_irrefl (inject_Z m)). eapply Qlt_le_trans; eassumption. }
      subst px. rewrite Hn. reflexivity.
  - intros Escale Emode.
    assert (Epx : px_per_unit wm m (ew, eh) = Ok p).
    { unfold px_per_unit. rewrite Escale. destruct Emode as [-> | ->]; reflexivity. }
    unfold resolution_policy. rewrite Hm. unfold bind at 1.
    rewrite Epx. split; [reflexivity|].
    intros h camera target direction path w o Ho Hview.
    unfold shoottarget. unfold bindM at 1. cbn [modify].
    unfold bindM at 1. cbn [get].
    cbn [with_objects objects]. rewrite lookup_alter_eq, Ho. cbn [fmap option_fmap option_map].
    change (dimensions (select_set false o)) with (dimensions o). rewrite Hview.
    unfold bindM at 1. unfold lift at 1. rewrite Hm.
    unfold bindM at 1. unfold lift at 1. rewrite Epx.
    cbn [fst snd]. unfold bindM at 1. cbn [modify]. unfold bindM at 1. cbn [modify].
    reflexivity.
Qed.

Example resolution_policy_presets_examples :
  resolution_policy (example_settings samesize maxsize size1024 folder "/models") (2, 1)%Q
    = Ok ((inject_Z 1024 / 2)%Q, (1024, 512)) /\
  resolution_policy (example_settings uniformscale reduceres size1024 folder "/models") (10, 10)%Q
    = Ok ((inject_Z 1024 / 10)%Q, (1024, 1024)) /\
  resolution_policy (example_settings uniformscale maxsize size1024 folder "/models") (10, 10)%Q
    = Ok (inject_Z 256, (2560, 2560)).
Proof.
  split; [|split].
  - exact (proj1 (proj1 (resolution_policy_presets
             (example_settings samesize maxsize size1024 folder "/models") 1024 2 1
             eq_refl eq_refl eq_refl) eq_refl)).
  - exact (proj1 (proj2 (resolution_policy_presets
             (example_settings uniformscale reduceres size1024 folder "/models") 1024 10 10
             eq_refl eq_refl eq_refl)) eq_refl eq_refl).
  - exact (proj1 (proj2 (proj2 (resolution_policy_presets
             (example_settings uniformscale maxsize size1024 folder "/models") 1024 10 10
             eq_refl eq_refl eq_refl)) eq_refl (or_intror eq_refl))).
Qed.

(** C3 (code defect).  With the maximum image size set to "other" the
    resolution policy computes no resolution: the [match] of [shoottarget]
    reads the attribute [other] of the string [orthobatch_maxImgSize] where
    the property [orthobatch_maxImgSize_other] holds the size, so for every
    view extent and in every scale mode the policy raises [AttributeError],
    and a shot of an object of the scene raises it before a resolution is
    set and before [render] is called. *)
Theorem C3_custom_max_dimension_raises (wm : WindowManager) :
  orthobatch_maxImgSize wm = size_other ->
  let error := AttributeError "'str' object has no attribute 'other'" in
  (forall viewsize : Q * Q, resolution_policy wm viewsize = Raise error) /\
  (forall (h : Host) (camera target : nat) (direction : shootDirection)
          (path : string) (w : World) (o : Object),
     objects w !! target = Some o ->
     shoottarget h wm camera target direction path w
     = (Raise error, with_objects (alter (select_set false) target) w)).
Proof.
  intros Hother error.
  assert (Hm : max_image_size wm = Raise error).
  { unfold max_image_size. now rewrite Hother. }
  split.
  - intros viewsize. unfold resolution_policy. now rewrite Hm.
  - intros h camera target direction path w o Ho.
    unfold shoottarget. unfold bindM at 1. cbn [modify].
    unfold bindM at 1. cbn [get].
    cbn [with_objects objects]. rewrite lookup_alter_eq, Ho. cbn [fmap option_fmap option_map].
    unfold bindM at 1. unfold lift at 1. rewrite Hm. reflexivity.
Qed.

(** A custom size of 4096 pixels and the view extent [(2, 1)] under
    [samesize]: the resolution would be [(4096, 2048)]. *)
Lemma C3_witness :
  orthobatch_maxImgSize_other
    (example_settings samesize maxsize size_other folder "/models") = 4096 /\
  resolution_policy (example_settings samesize maxsize size_other folder "/models") (2, 1)%Q
  = Raise (AttributeError "'str' object has no attribute 'other'").
Proof.
  split; [reflexivity|].
  apply (C3_custom_max_dimension_raises
           (example_settings samesize maxsize size_other folder "/models")).
  reflexivity.
Defined.

(** C4 (as the code has it).  For a view extent with positive components,
    positive pixels per unit and a preset max dimension, the resolution is
    computed without error and both components are at least 1.  A zero
    extent is not detected: under [uniformscale] a zero width gives the
    value 0 for the horizontal resolution without any error, and under
    [samesize] an extent that is zero both ways raises a division by zero. *)
Theorem C4_resolution_at_least_one (wm : WindowManager) (m : Z) (ew eh : Q) :
  (0 < ew)%Q -> (0 < eh)%Q ->
  0 < orthobatch_imgSize wm ->
  max_image_size wm = Ok m ->
  (exists px rx ry,
     resolution_policy wm (ew, eh) = Ok (px, (rx, ry)) /\ 1 <= rx /\ 1 <= ry) /\
  (orthobatch_scaleMode wm = uniformscale ->
     forall e : Q, exists px ry, resolution_policy wm (0%Q, e) = Ok (px, (0, ry))) /\
  (orthobatch_scaleMode wm = samesize ->
     resolution_policy wm (0, 0)%Q = Raise ZeroDivisionError).
Proof.
  intros Hew Heh Hp Hm.
  pose proof (max_image_size_pos wm m Hm) as Hmpos.
  assert (HpQ : (0 < inject_Z (orthobatch_imgSize wm))%Q).
  { change 0%Q with (inject_Z 0). rewrite <- Zlt_Qlt. exact Hp. }
  assert (HmQ : (0 < inject_Z m)%Q).
  { change 0%Q with (inject_Z 0). rewrite <- Zlt_Qlt. lia. }
  split; [|split].
  - assert (Hpx : exists px, px_per_unit wm m (ew, eh) = Ok px /\ (0 < px)%Q).
    { pose proof (Py_max_pos ew eh Hew Heh) as Hlong.
      assert (Hdiv : Py.div (inject_Z m) (Py.max ew eh) = Ok (inject_Z m / Py.max ew eh)%Q).
      { apply Py_div_ok. intros E. rewrite E in Hlong. apply (Qlt_irrefl 0), Hlong. }
      assert (Hq : (0 < inject_Z m / Py.max ew eh)%Q).
      { apply Qlt_shift_div_l; [exact Hlong|]. rewrite Qmult_0_l. exact HmQ. }
      unfold px_per_unit. cbn [fst snd].
      destruct (orthobatch_scaleMode wm).
      - destruct (orthobatch_imgDivideMode wm); eauto.
        destruct (Qlt_le_dec _ _); eauto.
      - eauto. }
    destruct Hpx as (px & Epx & Hpx).
    unfold resolution_policy. rewrite Hm. unfold bind at 1. rewrite Epx. cbn [bind fst snd].
    eexists _, _, _. split; [reflexivity|].
    split; apply Qceiling_pos; apply Qmult_lt_0_compat; assumption.
  - intros Escale e.
    assert (Hpx : exists px, px_per_unit wm m (0%Q, e) = Ok px).
    { unfold px_per_unit. rewrite Escale. cbn [fst snd].
      destruct (orthobatch_imgDivideMode wm); eauto.
      destruct (Qlt_le_dec _ _) as [Hlt|_]; eauto.
      rewrite Py_div_ok; eauto.
      intros E. rewrite E, Qmult_0_l in Hlt.
      apply (Qlt_irrefl 0). eapply Qlt_trans; eassumption. }
    destruct Hpx as (px & Epx).
    unfold resolution_policy. rewrite Hm. unfold bind at 1. rewrite Epx. cbn [bind fst snd].
    eexists _, _. do 3 f_equal.
    unfold Py.ceil. rewrite Qmult_0_r. reflexivity.
  - intros Escale. unfold resolution_policy. rewrite Hm. unfold bind at 1.
    unfold px_per_unit. rewrite Escale. reflexivity.
Qed.

Lemma C4_witness :
  (exists px rx ry,
     resolution_policy example_wm (2, 1)%Q = Ok (px, (rx, ry)) /\ 1 <= rx /\ 1 <= ry) /\
  (orthobatch_scaleMode example_wm = uniformscale ->
     forall e : Q, exists px ry, resolution_policy example_wm (0%Q, e) = Ok (px, (0, ry))) /\
  (orthobatch_scaleMode example_wm = samesize ->
     resolution_policy example_wm (0, 0)%Q = Raise ZeroDivisionError).
Proof.
  apply (C4_resolution_at_least_one example_wm 4096 2 1).
  - reflexivity.
  - reflexivity.
  - simpl. lia.
  - reflexivity.
Defined.

(** C4 as the specification states it fails: a zero extent gives a 0 x 0
    resolution without any error under [uniformscale], and a division by
    zero under [samesize]. *)
Lemma C4_zero_extent_counterexample :
  resolution_policy example_wm (0, 0)%Q = Ok (inject_Z 256, (0, 0)) /\
  resolution_policy (example_settings samesize maxsize size4096 folder "/models") (0, 0)%Q
    = Raise ZeroDivisionError /\
  ~ (forall (wm : WindowManager) (ext : Q * Q),
       (0 <= fst ext)%Q -> (0 <= snd ext)%Q ->
       exists px rx ry,
         resolution_policy wm ext = Ok (px, (rx, ry)) /\ 1 <= rx /\ 1 <= ry).
Proof.
  split; [reflexivity|]. split; [reflexivity|].
  intros H.
  destruct (H example_wm (0, 0)%Q ltac:(discriminate) ltac:(discriminate))
    as (px & rx & ry & E & Hrx & _).
  change (resolution_policy example_wm (0, 0)%Q) with (Ok (inject_Z 256, (0, 0))) in E.
  injection E as _ <- _. lia.
Qed.

(** ** Export paths *)

Lemma split_nonempty (s : string) (sep : ascii) : Py.split s sep <> [].
Proof.
  destruct s as [|c s]; cbn; [discriminate|].
  destruct (Ascii.eqb c sep); [discriminate|].
  destruct (Py.split s sep); discriminate.
Qed.

Lemma append_cons (x : ascii) (a b : string) : String x a +:+ b = String x (a +:+ b).
Proof. reflexivity. Qed.

Lemma append_nil (b : string) : EmptyString +:+ b = b.
Proof. reflexivity. Qed.

Lemma append_assoc (a b c : string) : (a +:+ b) +:+ c = a +:+ (b +:+ c).
Proof.
  induction a as [|x a IH]; [reflexivity|]. rewrite !append_cons. f_equal. exact IH.
Qed.

Lemma append_empty_r (a : string) : a +:+ EmptyString = a.
Proof.
  induction a as [|x a IH]; [reflexivity|]. rewrite append_cons. f_equal. exact IH.
Qed.

(** The last item of the split is the text after the last separator. *)
Lemma split_last_from (s : string) (sep : ascii) (acc : string) :
  match Py.split s sep with
  | h :: t => List.last (map Some ((acc +:+ h) :: t)) None
  | [] => None
  end = Some (last_component_from s sep acc).
Proof.
  revert acc. induction s as [|c s IH]; intros acc.
  - cbn. now rewrite append_empty_r.
  - cbn [Py.split last_component_from]. destruct (Ascii.eqb c sep).
    + specialize (IH EmptyString). rewrite append_empty_r.
      destruct (Py.split s sep) as [|h t] eqn:E; [discriminate|].
      rewrite append_nil in IH. exact IH.
    + specialize (IH (acc +:+ String c EmptyString)).
      destruct (Py.split s sep) as [|h t] eqn:E; [discriminate|].
      rewrite append_assoc, append_cons, append_nil in IH. exact IH.
Qed.

Lemma split_last (s : string) (sep : ascii) :
  Py.last_item (Py.split s sep) = Some (last_component s sep).
Proof.
  unfold Py.last_item, last_component.
  pose proof (split_last_from s sep EmptyString) as H.
  destruct (Py.split s sep) as [|h t]; [discriminate|]. exact H.
Qed.

Lemma replace_underscored (s : string) (sep : ascii) :
  Py.replace s sep "_" = underscored s sep.
Proof.
  induction s as [|c s IH]; cbn; [reflexivity|].
  rewrite IH. destruct (Ascii.eqb c sep); reflexivity.
Qed.

Lemma suffixName_suffixed (direction n : string) (placement : exportNameMode) :
  ModelPathM.suffixName direction n placement = suffixed placement direction n.
Proof. destruct placement; reflexivity. Qed.

Example imageExportPath_posix_examples :
  let cube := ModelPathM.__init__ Posix "cube.obj" "/models/props/big/cube.obj" "/models/" in
  subpath cube = "props/big/" /\
  ModelPathM.imageExportPath Posix cube "Z" "/out/" flatten append = "/out/cube_Z" /\
  ModelPathM.imageExportPath Posix cube "Z" "/out/" flatten prepend = "/out/Z_cube" /\
  ModelPathM.imageExportPath Posix cube "-X" "/out/" keeppath append
    = "/out/props/big/cube_-X" /\
  ModelPathM.imageExportPath Posix cube "Z" "/out/" flatten_pathname append
    = "/out/props_big_cube_Z" /\
  ModelPathM.imageExportPath Posix cube "Z" "/out/" flatten_foldername append
    = "/out/big_Z".
Proof. repeat split. Qed.

Example imageExportPath_windows_examples :
  let cube := ModelPathM.__init__ Windows "cube.obj" "C:\models\props\big\cube.obj"
                "C:\models\" in
  subpath cube = "props\big" /\
  ModelPathM.imageExportPath Windows cube "Z" "C:\out\" flatten append = "C:\out\cube_Z" /\
  ModelPathM.imageExportPath Windows cube "Z" "C:\out\" keeppath prepend
    = "C:\out\props\big\Z_cube" /\
  ModelPathM.imageExportPath Windows cube "Z" "C:\out\" flatten_pathname append
    = "C:\out\props_big_cube_Z" /\
  ModelPathM.imageExportPath Windows cube "Z" "C:\out\" flatten_foldername append
    = "C:\out\big_Z".
Proof. repeat split. Qed.

(** ** Discovery: C7 *)

Lemma length_append (a b : string) :
  String.length (a +:+ b) = (String.length a + String.length b)%nat.
Proof.
  induction a as [|x a IH]; [reflexivity|]. rewrite append_cons. cbn. now rewrite IH.
Qed.

Lemma substring_all (s : string) : substring 0 (String.length s) s = s.
Proof. induction s as [|c s IH]; cbn; [reflexivity | now rewrite IH]. Qed.

Lemma substring_append_r (pre suf : string) :
  substring (String.length pre) (String.length suf) (pre +:+ suf) = suf.
Proof.
  induction pre as [|c pre IH]; [apply substring_all|].
  rewrite append_cons. cbn. exact IH.
Qed.

Lemma substring_split (s : string) (a : nat) :
  (a <= String.length s)%nat ->
  s = substring 0 a s +:+ substring a (String.length s - a) s.
Proof.
  revert a. induction s as [|c s IH]; intros a Ha.
  - cbn in Ha. assert (a = 0%nat) as -> by lia. reflexivity.
  - destruct a as [|a].
    + cbn [substring String.length Nat.sub]. rewrite append_nil.
      now rewrite substring_all.
    + cbn [substring String.length Nat.sub]. rewrite append_cons. f_equal.
      apply IH. cbn in Ha. lia.
Qed.

(** [endswith] is a suffix test on the characters as they are. *)
Lemma endswith_spec (s suffix : string) :
  Py.endswith s suffix = true <-> exists stem, s = stem +:+ suffix.
Proof.
  unfold Py.endswith. rewrite andb_true_iff, Nat.leb_le, String.eqb_eq. split.
  - intros [Hle E]. set (k := String.length suffix) in *.
    exists (substring 0 (String.length s - k) s). rewrite <- E.
    replace (substring (String.length s - k) k s)
      with (substring (String.length s - k) (String.length s - (String.length s - k)) s)
      by (f_equal; lia).
    apply substring_split. lia.
  - intros [stem ->]. rewrite length_append. split; [lia|].
    replace (String.length stem + String.length suffix - String.length suffix)%nat
      with (String.length stem) by lia.
    apply substring_append_r.
Qed.

Lemma endswith_any_spec (s : string) (suffixes : list string) :
  Py.endswith_any s suffixes = true <->
  exists e stem, In e suffixes /\ s = stem +:+ e.
Proof.
  unfold Py.endswith_any. rewrite existsb_exists. split.
  - intros (e & He & H). apply endswith_spec in H as [stem ->]. eauto.
  - intros (e & stem & He & ->). exists e. split; [exact He|].
    apply endswith_spec. eauto.
Qed.

Lemma fold_left_collect {A B} (P : A -> bool) (f : A -> B) (l : list A) (acc : list B) :
  fold_left (fun acc x => if P x then acc ++ [f x] else acc) l acc
  = acc ++ map f (List.filter P l).
Proof.
  revert acc. induction l as [|x l IH]; intros acc; cbn [fold_left List.filter map].
  - now rewrite app_nil_r.
  - rewrite IH. destruct (P x); [|reflexivity].
    cbn [map]. now rewrite <- app_assoc.
Qed.

(** The two nested loops of [getAllModelPaths] collect, directory by
    directory, the files that pass [endswith]. *)
Lemma getAllModelPaths_flat_map (pl : platform) (tree : fsnode) (basepath : string)
    (extensions : list string) :
  getAllModelPaths pl tree basepath extensions
  = flat_map
      (fun '(subdir, _, files) =>
         map (fun file => ModelPathM.__init__ pl file
                            (os.path_join pl basepath [subdir; file]) basepath)
           (List.filter (fun file => Py.endswith_any file extensions) files))
      (os_walk pl basepath tree).
Proof.
  unfold getAllModelPaths.
  generalize (os_walk pl basepath tree) as triples.
  assert (G : forall (triples : list (string * list string * list string))
                    (acc : list ModelPath),
    fold_left
      (fun modelpaths '(subdir, _, files) =>
         fold_left
           (fun modelpaths file =>
              if Py.endswith_any file extensions
              then modelpaths ++
                   [ModelPathM.__init__ pl file (os.path_join pl basepath [subdir; file])
                      basepath]
              else modelpaths) files modelpaths) triples acc
    = acc ++ flat_map
        (fun '(subdir, _, files) =>
           map (fun file => ModelPathM.__init__ pl file
                              (os.path_join pl basepath [subdir; file]) basepath)
             (List.filter (fun file => Py.endswith_any file extensions) files))
        triples).
  { induction triples as [|[[subdir dirs] files] triples IH]; intros acc.
    - cbn. now rewrite app_nil_r.
    - cbn [fold_left flat_map]. rewrite IH.
      rewrite (fold_left_collect (fun file => Py.endswith_any file extensions)
                 (fun file => ModelPathM.__init__ pl file
                                (os.path_join pl basepath [subdir; file]) basepath)).
      now rewrite <- app_assoc. }
  intros triples. apply (G triples []).
Qed.

(** C7 (as the code has it).  [getAllModelPaths] includes a file of the
    walk if and only if its name ends, character for character, with one of
    the allowed extensions; the result may be empty. *)
Theorem C7_discover_by_exact_suffix (pl : platform) (tree : fsnode) (basepath : string)
    (extensions : list string) (mp : ModelPath) :
  (In mp (getAllModelPaths pl tree basepath extensions) <->
   exists subdir dirs files file,
     In (subdir, dirs, files) (os_walk pl basepath tree) /\
     In file files /\
     (exists e stem, In e extensions /\ file = stem +:+ e) /\
     mp = ModelPathM.__init__ pl file (os.path_join pl basepath [subdir; file]) basepath) /\
  getAllModelPaths pl (Folder (fs_name tree) [] []) basepath extensions = [].
Proof.
  split; [|reflexivity].
  rewrite getAllModelPaths_flat_map, in_flat_map. split.
  - intros ([[subdir dirs] files] & Hin & Hmp).
    apply in_map_iff in Hmp as (file & <- & Hfile).
    apply filter_In in Hfile as [Hfile Hends].
    apply endswith_any_spec in Hends.
    exists subdir, dirs, files, file. auto.
  - intros (subdir & dirs & files & file & Hin & Hfile & Hends & ->).
    exists (subdir, dirs, files). split; [exact Hin|].
    apply in_map_iff. exists file. split; [reflexivity|].
    apply filter_In. split; [exact Hfile|]. now apply endswith_any_spec.
Qed.

(** C7 as the specification states it fails: [MODEL.OBJ] has an allowed
    extension once case is ignored, and is not discovered. *)
Lemma C7_uppercase_extension_counterexample :
  extension_allowed "MODEL.OBJ" VALID_IMPORT_EXTENSIONS = true /\
  getAllModelPaths Posix (Folder "models" ["MODEL.OBJ"] []) "/models/"
    VALID_IMPORT_EXTENSIONS = [] /\
  getAllModelPaths Windows (Folder "models" ["MODEL.OBJ"] []) "C:\models\"
    VALID_IMPORT_EXTENSIONS = [] /\
  ~ (forall pl tree basepath extensions subdir dirs files file,
       In (subdir, dirs, files) (os_walk pl basepath tree) -> In file files ->
       (extension_allowed file extensions = true <->
        exists mp, In mp (getAllModelPaths pl tree basepath extensions) /\
                   filename mp = file)).
Proof.
  split; [reflexivity|]. split; [reflexivity|]. split; [reflexivity|].
  intros H.
  destruct (proj1 (H Posix (Folder "models" ["MODEL.OBJ"] []) "/models/"
                     VALID_IMPORT_EXTENSIONS "/models/" [] ["MODEL.OBJ"] "MODEL.OBJ"
                     (or_introl eq_refl) (or_introl eq_refl)) eq_refl)
    as (mp & Hin & _).
  exact Hin.
Qed.

(** ** Ordering: C5 *)

(** *** Insertion sort with a strict weak order *)

Section InsertionSort.
Context {A : Type} (lt : A -> A -> bool).
Hypothesis lt_asym : forall a b, lt a b = true -> lt b a = false.
Hypothesis lt_trans : forall a b c, lt a b = true -> lt b c = true -> lt a c = true.
Hypothesis lt_negtrans : forall a b c, lt a c = true -> lt a b = true \/ lt b c = true.

Lemma insert_sorted_perm (x : A) (l : list A) : insert_sorted lt x l ≡ₚ x :: l.
Proof.
  induction l as [|y l IH]; cbn; [reflexivity|].
  destruct (lt x y); [reflexivity|]. rewrite IH. apply Permutation_swap.
Qed.

Lemma fold_insert_perm (l acc : list A) :
  fold_left (fun acc x => insert_sorted lt x acc) l acc ≡ₚ acc ++ l.
Proof.
  revert acc. induction l as [|x l IH]; intros acc; cbn [fold_left].
  - now rewrite app_nil_r.
  - rewrite IH, insert_sorted_perm. apply Permutation_middle.
Qed.

Lemma sorted_perm (l : list A) : sorted lt l ≡ₚ l.
Proof. unfold sorted. now rewrite fold_insert_perm. Qed.

Lemma insert_sorted_Forall (P : A -> Prop) (x : A) (l : list A) :
  P x -> Forall P l -> Forall P (insert_sorted lt x l).
Proof.
  intros Hx Hl. eapply Permutation_Forall; [symmetry; apply insert_sorted_perm|].
  now constructor.
Qed.

Lemma insert_sorted_sorted (x : A) (l : list A) :
  StronglySorted (not_after lt) l -> StronglySorted (not_after lt) (insert_sorted lt x l).
Proof.
  induction 1 as [|y l Hl IH Hy]; cbn.
  - repeat constructor.
  - destruct (lt x y) eqn:E.
    + constructor; [now constructor|].
      constructor; [now apply lt_asym|].
      eapply Forall_impl; [exact Hy|]. intros z Hz. unfold not_after in *.
      destruct (lt z x) eqn:Ezx; [|reflexivity].
      rewrite (lt_trans z x y Ezx E) in Hz. discriminate.
    + constructor; [exact IH|]. now apply insert_sorted_Forall.
Qed.

Lemma fold_insert_sorted (l acc : list A) :
  StronglySorted (not_after lt) acc ->
  StronglySorted (not_after lt) (fold_left (fun acc x => insert_sorted lt x acc) l acc).
Proof.
  revert acc. induction l as [|x l IH]; intros acc Hacc; cbn [fold_left]; [exact Hacc|].
  now apply IH, insert_sorted_sorted.
Qed.

Lemma sorted_sorted (l : list A) : StronglySorted (not_after lt) (sorted lt l).
Proof. apply fold_insert_sorted. constructor. Qed.

(** Stability: what ties with [y] keeps its order. *)
Lemma insert_sorted_stable (x y : A) (l : list A) :
  StronglySorted (not_after lt) l ->
  List.filter (ties lt y) (insert_sorted lt x l)
  = List.filter (ties lt y) l ++ (if ties lt y x then [x] else []).
Proof.
  induction 1 as [|z l Hl IH Hz]; cbn [insert_sorted List.filter].
  - destruct (ties lt y x); reflexivity.
  - destruct (lt x z) eqn:E.
    + cbn [List.filter]. destruct (ties lt y x) eqn:T.
      * apply andb_prop in T as [Tyx Txy]. apply negb_true_iff in Tyx, Txy.
        assert (Hyz : lt y z = true).
        { destruct (lt_negtrans x y z E) as [H|H]; [congruence | exact H]. }
        assert (Tz : ties lt y z = false) by (unfold ties; now rewrite Hyz).
        assert (Tl : List.filter (ties lt y) l = []).
        { clear IH. induction Hz as [|w l Hw Hz IHz]; [reflexivity|].
          inversion Hl; subst. cbn [List.filter].
          assert (Hyw : lt y w = true).
          { destruct (lt_negtrans y w z Hyz) as [H|H]; [exact H|].
            unfold not_after in Hw. congruence. }
          unfold ties at 1. rewrite Hyw. cbn. now apply IHz. }
        rewrite Tz, Tl. reflexivity.
      * now rewrite app_nil_r.
    + cbn [List.filter]. rewrite IH. destruct (ties lt y z); reflexivity.
Qed.

Lemma fold_insert_stable (y : A) (l acc : list A) :
  StronglySorted (not_after lt) acc ->
  List.filter (ties lt y) (fold_left (fun acc x => insert_sorted lt x acc) l acc)
  = List.filter (ties lt y) acc ++ List.filter (ties lt y) l.
Proof.
  revert acc. induction l as [|x l IH]; intros acc Hacc; cbn [fold_left List.filter].
  - now rewrite app_nil_r.
  - rewrite IH by now apply insert_sorted_sorted.
    rewrite insert_sorted_stable by exact Hacc.
    rewrite <- app_assoc. destruct (ties lt y x); reflexivity.
Qed.

Lemma sorted_stable (y : A) (l : list A) :
  List.filter (ties lt y) (sorted lt l) = List.filter (ties lt y) l.
Proof. unfold sorted. rewrite fold_insert_stable by constructor. reflexivity. Qed.

Lemma sorted_lookup_order (l : list A) (i j : nat) (a b : A) :
  (i < j)%nat -> sorted lt l !! i = Some a -> sorted lt l !! j = Some b -> lt b a = false.
Proof.
  intros Hij Hi Hj. pose proof (sorted_sorted l) as Hs.
  revert i j Hij Hi Hj. induction Hs as [|x s Hs IH Hx]; intros i j Hij Hi Hj.
  - rewrite lookup_nil in Hi. discriminate.
  - destruct j as [|j]; [lia|]. cbn in Hj. destruct i as [|i].
    + cbn in Hi. injection Hi as ->.
      rewrite Forall_forall in Hx. apply Hx.
      eapply list_elem_of_lookup_2; eassumption.
    + cbn in Hi. apply (IH i j); [lia | assumption | assumption].
Qed.

End InsertionSort.

(** *** The order of [__lt__] *)

Lemma str_lt_le (a b : string) : Py.str_lt a b = true <-> String.le a b /\ a <> b.
Proof.
  unfold Py.str_lt, String.ltb, String.le, String.leb.
  destruct (String.compare a b) eqn:E.
  - apply String.compare_eq_iff in E. split; [discriminate | intros [_ H]; contradiction].
  - split; [|reflexivity]. intros _. split; [exact I|].
    intros ->. pose proof (String.compare_antisym b b) as H. rewrite E in H. discriminate.
  - split; [discriminate | intros [[] _]].
Qed.

Lemma str_lt_asym (a b : string) : Py.str_lt a b = true -> Py.str_lt b a = false.
Proof.
  intros [Hab Hne]%str_lt_le. apply Bool.not_true_is_false.
  intros [Hba _]%str_lt_le. apply Hne. now apply (anti_symm String.le).
Qed.

Lemma str_lt_trans (a b c : string) :
  Py.str_lt a b = true -> Py.str_lt b c = true -> Py.str_lt a c = true.
Proof.
  intros [Hab Hne]%str_lt_le [Hbc Hne']%str_lt_le. apply str_lt_le.
  split; [now transitivity b|].
  intros ->. apply Hne. now apply (anti_symm String.le).
Qed.

Lemma str_lt_total (a b : string) :
  Py.str_lt a b = false -> Py.str_lt b a = false -> a = b.
Proof.
  intros Hab Hba. destruct (decide (a = b)) as [|Hne]; [assumption|]. exfalso.
  destruct (total String.le a b) as [H|H].
  - assert (Py.str_lt a b = true) by (apply str_lt_le; auto). congruence.
  - assert (Py.str_lt b a = true) by (apply str_lt_le; auto). congruence.
Qed.

Lemma str_lt_negtrans (a b c : string) :
  Py.str_lt a c = true -> Py.str_lt a b = true \/ Py.str_lt b c = true.
Proof.
  intros Hac. destruct (Py.str_lt a b) eqn:Eab; [now left|]. right.
  destruct (Py.str_lt b c) eqn:Ebc; [reflexivity|]. exfalso.
  destruct (Py.str_lt b a) eqn:Eba.
  - pose proof (str_lt_trans b a c Eba Hac). congruence.
  - pose proof (str_lt_total a b Eab Eba) as ->. congruence.
Qed.

Lemma str_lt_irrefl (a : string) : Py.str_lt a a = false.
Proof.
  destruct (Py.str_lt a a) eqn:E; [|reflexivity]. now rewrite (str_lt_asym a a E) in E.
Qed.

Lemma ModelPath_lt_key (pl : platform) (a b : ModelPath) :
  ModelPathM.__lt__ pl a b =
  if (folder_count pl a =? folder_count pl b)%nat
  then Py.str_lt (lower_name a) (lower_name b)
  else (folder_count pl a <? folder_count pl b)%nat.
Proof. reflexivity. Qed.

Ltac lt_cases :=
  repeat match goal with
    | H : context [(?x =? ?y)%nat] |- _ => destruct (Nat.eqb_spec x y)
    | |- context [(?x =? ?y)%nat] => destruct (Nat.eqb_spec x y)
    | H : (_ <? _)%nat = true |- _ => apply Nat.ltb_lt in H
    | H : (_ <? _)%nat = false |- _ => apply Nat.ltb_ge in H
    | |- (_ <? _)%nat = true => apply Nat.ltb_lt
    | |- (_ <? _)%nat = false => apply Nat.ltb_ge
    end.

Lemma ModelPath_lt_asym (pl : platform) (a b : ModelPath) :
  ModelPathM.__lt__ pl a b = true -> ModelPathM.__lt__ pl b a = false.
Proof.
  rewrite !ModelPath_lt_key. intros H. lt_cases; try lia. now apply str_lt_asym.
Qed.

Lemma ModelPath_lt_trans (pl : platform) (a b c : ModelPath) :
  ModelPathM.__lt__ pl a b = true -> ModelPathM.__lt__ pl b c = true ->
  ModelPathM.__lt__ pl a c = true.
Proof.
  rewrite !ModelPath_lt_key. intros H1 H2. lt_cases; try lia.
  eapply str_lt_trans; eassumption.
Qed.

Lemma ModelPath_lt_negtrans (pl : platform) (a b c : ModelPath) :
  ModelPathM.__lt__ pl a c = true ->
  ModelPathM.__lt__ pl a b = true \/ ModelPathM.__lt__ pl b c = true.
Proof.
  rewrite !ModelPath_lt_key. intros H.
  destruct (Nat.lt_trichotomy (folder_count pl a) (folder_count pl b)) as [Hab|[Hab|Hab]];
    destruct (Nat.lt_trichotomy (folder_count pl b) (folder_count pl c)) as [Hbc|[Hbc|Hbc]];
    lt_cases; try lia;
    first [ now apply str_lt_negtrans
          | left; apply Nat.ltb_lt; lia
          | right; apply Nat.ltb_lt; lia ].
Qed.

Lemma ties_same_key (pl : platform) (a b : ModelPath) :
  ties (ModelPathM.__lt__ pl) a b = same_key pl a b.
Proof.
  unfold ties, same_key. rewrite !ModelPath_lt_key.
  destruct (Nat.eqb_spec (folder_count pl a) (folder_count pl b)) as [E|E].
  - rewrite E, Nat.eqb_refl. cbn [andb].
    destruct (String.eqb_spec (lower_name a) (lower_name b)) as [->|Hne].
    + now rewrite str_lt_irrefl.
    + destruct (Py.str_lt (lower_name a) (lower_name b)) eqn:E1; [reflexivity|].
      destruct (Py.str_lt (lower_name b) (lower_name a)) eqn:E2; [reflexivity|].
      exfalso. apply Hne. now apply str_lt_total.
  - destruct (Nat.eqb_spec (folder_count pl b) (folder_count pl a)) as [E'|_]; [congruence|].
    destruct (folder_count pl a <? folder_count pl b)%nat eqn:E1; [reflexivity|].
    destruct (folder_count pl b <? folder_count pl a)%nat eqn:E2; [reflexivity|].
    lt_cases. lia.
Qed.

(** C5 as the specification states it fails: two folders of the same depth
    that each hold [a.obj] tie, neither model is less than the other, and
    the sorted order follows the order in which the folders are listed. *)
Lemma C5_same_name_ties_counterexample :
  let found_xy := getAllModelPaths Posix twins_xy "/models/" VALID_IMPORT_EXTENSIONS in
  let found_yx := getAllModelPaths Posix twins_yx "/models/" VALID_IMPORT_EXTENSIONS in
  found_xy ≡ₚ found_yx /\
  map filepath (sorted (ModelPathM.__lt__ Posix) found_xy)
    = ["/models/x/a.obj"; "/models/y/a.obj"] /\
  map filepath (sorted (ModelPathM.__lt__ Posix) found_yx)
    = ["/models/y/a.obj"; "/models/x/a.obj"] /\
  (forall a b, found_xy = [a; b] ->
     a <> b /\ ModelPathM.__lt__ Posix a b = false /\ ModelPathM.__lt__ Posix b a = false).
Proof.
  cbv zeta. split; [|split; [reflexivity|split; [reflexivity|]]].
  - apply Permutation_swap.
  - intros a b [= <- <-]. split; [discriminate|]. split; reflexivity.
Qed.

(** On Windows a model in the root of the source folder and a model one
    folder deeper get the same folder count, so their file names decide:
    [sub\a.obj] sorts before [z.obj]. *)
Example windows_root_ties_with_subfolder :
  let found := getAllModelPaths Windows nested_models "C:\models\" VALID_IMPORT_EXTENSIONS in
  map filepath found = ["C:\models\z.obj"; "C:\models\sub\a.obj"] /\
  map (fun mp => folder_depth Windows (subpath mp)) found = [0; 1]%nat /\
  map pathminusfilename found = ["C:\models\"; "C:\models\sub"] /\
  map (folder_count Windows) found = [3; 3]%nat /\
  map filepath (sorted (ModelPathM.__lt__ Windows) found)
    = ["C:\models\sub\a.obj"; "C:\models\z.obj"].
Proof. repeat split. Qed.

(** At equal depth the file names decide, without regard to case. *)
Example sorts_names_case_insensitively :
  map filename
    (sorted (ModelPathM.__lt__ Posix)
       (getAllModelPaths Posix (Folder "models" ["Zebra.obj"; "apple.obj"; "Banana.obj"] [])
          "/models/" VALID_IMPORT_EXTENSIONS))
  = ["apple.obj"; "Banana.obj"; "Zebra.obj"].
Proof. reflexivity. Qed.
(** ** The import loop *)

(** The run of [main] on the three models: the first and the third are
    rendered and reported as imported, the second is reported as failed. *)
Example main_three_models :
  let h := example_host Posix three_models ["/models/b.obj"] in
  let w' := snd (main h example_wm (cube_world false)) in
  map render_filepath (rendered w') = ["/out/a_Z"; "/out/c_Z"] /\
  messages w' =
    [ImportReport
       [("/models/a.obj", "succeeded"); ("/models/c.obj", "succeeded")]
       [("/models/b.obj", "FAILED: cannot read file")]].
Proof. split; vm_compute; reflexivity. Qed.

(** ** Restoring the scene: C9 *)

(** C9 (code defect).  The restore of [main] does not always run, and the
    restore of the culling flags does not always restore.
    - With no model file in the source folder, [main] returns from inside
      its [try]: the cube that was visible stays hidden from renders.
    - When a render raises while the objects of the file are shot, the
      culling flag of the cube's material keeps the value of the run.
    - When the cube has one material in two slots, the backup of the second
      slot reads the flag the first slot has just overwritten, and the run,
      though it succeeds, leaves the flag changed. *)
Theorem C9_scene_state_not_restored :
  (let h := example_host Posix (Folder "models" [] []) [] in
   let w' := snd (main h example_wm (cube_world false)) in
   hide_render <$> objects (cube_world false) !! 0%nat = Some false /\
   hide_render <$> objects w' !! 0%nat = Some true /\
   messages w' =
     [Aborting "ABORTING: Source directory has no valid model files (valid extensions are)"]) /\
  (let wm := example_settings uniformscale maxsize size4096 currentfile "/models" in
   let w' := snd (main failing_render_host wm (cube_world false)) in
   culling (cube_world false) !! 0%nat = Some false /\
   culling w' !! 0%nat = Some true /\
   hide_render <$> objects w' !! 0%nat = Some false /\
   messages w' = [ErrorOccurred (HostError "Error: render failed")]) /\
  (let h := example_host Posix (Folder "models" [] []) [] in
   let wm := example_settings uniformscale maxsize size4096 currentfile "/models" in
   let w' := snd (main h wm (cube_world true)) in
   culling (cube_world true) !! 0%nat = Some false /\
   culling w' !! 0%nat = Some true /\
   map render_filepath (rendered w') = ["/out/Cube_Z"] /\
   messages w' = []).
Proof. repeat split; vm_compute; reflexivity. Qed.

(** When nothing raises and no material is shared, the run does restore the
    visibility and the culling flags of the cube. *)
Example main_restores_plain_scene :
  let h := example_host Posix (Folder "models" [] []) [] in
  let wm := example_settings uniformscale maxsize size4096 currentfile "/models" in
  let w' := snd (main h wm (cube_world false)) in
  objects w' = objects (cube_world false) /\ culling w' = culling (cube_world false).
Proof. split; vm_compute; reflexivity. Qed.


(** ** The start index: C10 *)

Lemma main_try_toggle (h : Host) (wm : WindowManager) (b : bool) (camera : nat) (w : World) :
  main_try h (set_overrideStartSearch wm b) camera w = main_try h wm camera w.
Proof. destruct wm. reflexivity. Qed.

Lemma set_sourcePath_toggle (wm : WindowManager) (b : bool) (p : string) :
  set_sourcePath (set_overrideStartSearch wm b) p
  = set_overrideStartSearch (set_sourcePath wm p) b.
Proof. reflexivity. Qed.

Lemma main_toggle (h : Host) (wm : WindowManager) (b : bool) (w : World) :
  main h (set_overrideStartSearch wm b) w
  = (set_overrideStartSearch (fst (main h wm w)) b, snd (main h wm w)).
Proof.
  unfold main.
  change (orthobatch_shootDirections (set_overrideStartSearch wm b))
    with (orthobatch_shootDirections wm).
  change (orthobatch_sourcePath (set_overrideStartSearch wm b))
    with (orthobatch_sourcePath wm).
  destruct (length (orthobatch_shootDirections wm) <? 1)%nat; [reflexivity|].
  destruct (hide_all (scene_objects w) w) as [hidden w1].
  destruct (prepareorthocam w1) as [camera w2].
  destruct (negb _).
  - rewrite set_sourcePath_toggle, main_try_toggle.
    destruct (main_try h _ camera w2) as [[[]|e] w3]; reflexivity.
  - rewrite main_try_toggle.
    destruct (main_try h wm camera w2) as [[[]|e] w3]; reflexivity.
Qed.

(** C10.  In the folder mode the slice [modelpaths[min(startSearch, len):]]
    is taken whatever the toggle [orthobatch_overrideStartSearch] of the
    session says, because the guard reads the property definition on the
    class, which is true; two runs that differ in the toggle alone shoot the
    same models and leave the same world. *)
Theorem C10_start_index_ignores_toggle (h : Host) (wm : WindowManager) (w : World)
    (b : bool) (modelpaths : list ModelPath) :
  truthy bpy_types_WindowManager.orthobatch_overrideStartSearch = true /\
  select_models wm modelpaths =
    (let sliced :=
       skipn (Nat.min (orthobatch_startSearch wm) (length modelpaths)) modelpaths in
     if orthobatch_limitSearch wm
     then firstn (Nat.min (orthobatch_maxFiles wm) (length sliced)) sliced
     else sliced) /\
  select_models (set_overrideStartSearch wm b) modelpaths = select_models wm modelpaths /\
  snd (main h (set_overrideStartSearch wm b) w) = snd (main h wm w) /\
  fst (main h (set_overrideStartSearch wm b) w)
    = set_overrideStartSearch (fst (main h wm w)) b.
Proof.
  split; [reflexivity|]. split; [reflexivity|]. split; [reflexivity|].
  rewrite main_toggle. split; reflexivity.
Qed.

(** With the toggle off and the start index at 1, the first model is
    skipped all the same. *)
Example start_index_applies_with_toggle_off :
  let h := example_host Posix three_models [] in
  let wm :=
    {| orthobatch_scaleMode := uniformscale; orthobatch_imgSize := 256;
       orthobatch_maxImgSize := size4096; orthobatch_maxImgSize_other := 4096;
       orthobatch_imgDivideMode := maxsize; orthobatch_imgPadding := 0;
       orthobatch_sourcePath := "/models"; orthobatch_exportPath := "/out/";
       orthobatch_importMode := folder; orthobatch_limitSearch := false;
       orthobatch_overrideStartSearch := false; orthobatch_startSearch := 1;
       orthobatch_maxFiles := 10; orthobatch_exportPathMode := flatten;
       orthobatch_exportNameMode := append; orthobatch_shootDirections := [dir_Z];
       orthobatch_backCulling := true |} in
  map render_filepath (rendered (snd (main h wm (cube_world false))))
    = ["/out/b_Z"; "/out/c_Z"].
Proof. vm_compute. reflexivity. Qed.

(** * Further properties *)

(** ** [filter_meshes_from_objlist] *)

Lemma fold_left_seq_S {A} (f : A -> nat -> A) (n : nat) (a : A) :
  fold_left f (seq 0 (S n)) a = f (fold_left f (seq 0 n) a) n.
Proof. rewrite seq_S, fold_left_app. reflexivity. Qed.

Lemma filter_meshes_steps (w : World) (objlist : list nat) (i : nat) :
  (i <= length objlist)%nat ->
  fold_left
    (fun l i =>
       let j := (length objlist - i - 1)%nat in
       match l !! j with
       | Some obj =>
           match objects w !! obj with
           | Some o => match obj_type o with MESH => l | _ => delete j l end
           | None => delete j l
           end
       | None => l
       end)
    (seq 0 i) objlist
  = take (length objlist - i) objlist
    ++ List.filter (is_mesh w) (drop (length objlist - i) objlist).
Proof.
  induction i as [|i IH]; intros Hi.
  - cbn [seq fold_left]. rewrite Nat.sub_0_r, take_ge, drop_ge by lia.
    now rewrite app_nil_r.
  - rewrite fold_left_seq_S, IH by lia. cbv zeta.
    set (n := length objlist) in *.
    replace (n - S i)%nat with (n - i - 1)%nat by lia.
    assert (Hk : (n - i = S (n - i - 1))%nat) by lia.
    assert (Hj : (n - i - 1 < n)%nat) by lia.
    revert Hk Hj. generalize (n - i - 1)%nat as k. intros k Hk Hj. rewrite Hk.
    destruct (lookup_lt_is_Some_2 objlist k Hj) as [obj Hobj].
    assert (Hlen : length (take k objlist) = k) by (rewrite length_take; lia).
    rewrite (take_S_r _ _ _ Hobj), <- app_assoc. cbn [app].
    rewrite (list_lookup_middle _ _ obj k) by (symmetry; exact Hlen).
    rewrite (drop_S _ _ _ Hobj). cbn [List.filter].
    assert (Hm : is_mesh w obj
                 = match objects w !! obj with
                   | Some o => match obj_type o with MESH => true | _ => false end
                   | None => false
                   end) by reflexivity.
    assert (Hdel : delete k
                     (take k objlist
                      ++ obj :: List.filter (is_mesh w) (drop (S k) objlist))
                   = take k objlist
                     ++ List.filter (is_mesh w) (drop (S k) objlist)).
    { rewrite <- Hlen at 1. apply delete_middle. }
    destruct (objects w !! obj) as [o|]; [|rewrite Hm, Hdel; reflexivity].
    destruct (obj_type o); rewrite Hm; [reflexivity | rewrite Hdel; reflexivity ..].
Qed.

(** X1.  The loop of [filter_meshes_from_objlist], which pops from the end
    of the list what is no mesh, returns exactly the meshes of the list, in
    their order. *)
Theorem filter_meshes_is_filter (w : World) (objlist : list nat) :
  filter_meshes_from_objlist w objlist = List.filter (is_mesh w) objlist.
Proof.
  pose proof (filter_meshes_steps w objlist (length objlist) (Nat.le_refl _)) as H.
  rewrite Nat.sub_diag in H. exact H.
Qed.

(** ** [select_models] and [sorted] *)

(** X2.  The models a folder run processes are one segment of the sorted
    list: it starts at the start index (at the end of the list when the
    index is beyond it), runs to the end of the list when the search is not
    limited, and holds at most [orthobatch_maxFiles] models when it is. *)
Theorem select_models_segment (wm : WindowManager) (modelpaths : list ModelPath) :
  exists skipped rest,
    modelpaths = skipped ++ select_models wm modelpaths ++ rest /\
    length skipped = Nat.min (orthobatch_startSearch wm) (length modelpaths) /\
    (orthobatch_limitSearch wm = false -> rest = []) /\
    (orthobatch_limitSearch wm = true ->
     length (select_models wm modelpaths)
     = Nat.min (orthobatch_maxFiles wm)
         (length modelpaths - orthobatch_startSearch wm)) /\
    (length modelpaths <= orthobatch_startSearch wm -> select_models wm modelpaths = [])%nat.
Proof.
  unfold select_models. cbn [truthy bpy_types_WindowManager.orthobatch_overrideStartSearch].
  unfold Py.list_from, Py.list_upto.
  set (start := Nat.min (orthobatch_startSearch wm) (length modelpaths)).
  set (tail := skipn start modelpaths).
  assert (Htail : length tail = (length modelpaths - orthobatch_startSearch wm)%nat).
  { unfold tail. rewrite length_skipn. unfold start. lia. }
  destruct (orthobatch_limitSearch wm).
  - exists (firstn start modelpaths),
           (skipn (Nat.min (orthobatch_maxFiles wm) (length tail)) tail).
    rewrite firstn_skipn. unfold tail. rewrite firstn_skipn.
    repeat split.
    + rewrite length_firstn. unfold start. lia.
    + discriminate.
    + intros _. rewrite length_firstn. fold tail. rewrite Htail. lia.
    + intros Hle. fold tail. destruct tail; [now rewrite firstn_nil|].
      cbn [length] in Htail. lia.
  - exists (firstn start modelpaths), []. rewrite app_nil_r, firstn_skipn.
    repeat split.
    + rewrite length_firstn. unfold start. lia.
    + discriminate.
    + intros Hle. fold tail. destruct tail; [reflexivity|].
      cbn [length] in Htail. lia.
Qed.

Lemma insert_sorted_last {A} (lt : A -> A -> bool) (x : A) (l : list A) :
  Forall (fun y => lt x y = false) l -> insert_sorted lt x l = l ++ [x].
Proof.
  induction 1 as [|y l Hy Hl IH]; [reflexivity|].
  cbn [insert_sorted app]. now rewrite Hy, IH.
Qed.

Lemma fold_insert_ordered {A} (lt : A -> A -> bool) (l acc : list A) :
  StronglySorted (not_after lt) (acc ++ l) ->
  fold_left (fun acc x => insert_sorted lt x acc) l acc = acc ++ l.
Proof.
  revert acc. induction l as [|x l IH]; intros acc H; cbn [fold_left].
  - now rewrite app_nil_r.
  - rewrite insert_sorted_last.
    + rewrite IH; rewrite <- app_assoc; [reflexivity | exact H].
    + clear IH. induction acc as [|y acc IHacc]; [constructor|].
      cbn [app] in H. apply StronglySorted_inv in H as [Hs Hy].
      constructor; [|exact (IHacc Hs)].
      rewrite Forall_app in Hy. destruct Hy as [_ Hy].
      apply Forall_inv in Hy. exact Hy.
Qed.

(** X3.  Sorting the model paths again changes nothing: a list that is in
    the order of [__lt__] is returned as it is. *)
Theorem sorted_modelpaths_idempotent (pl : platform) (l : list ModelPath) :
  sorted (ModelPathM.__lt__ pl) (sorted (ModelPathM.__lt__ pl) l)
  = sorted (ModelPathM.__lt__ pl) l.
Proof.
  unfold sorted at 1.
  apply (fold_insert_ordered (ModelPathM.__lt__ pl) (sorted (ModelPathM.__lt__ pl) l) []).
  cbn [app].
  apply sorted_sorted;
    first [apply ModelPath_lt_asym | apply ModelPath_lt_trans | apply ModelPath_lt_negtrans].
Qed.

(** ** [ModelPath.__init__]: name and extension *)

Lemma dot_free_cons (c : ascii) (s : string) :
  dot_free (String c s) <-> c <> "."%char /\ dot_free s.
Proof.
  unfold dot_free, Py.char_in. cbn [list_ascii_of_string existsb].
  rewrite orb_false_iff, Ascii.eqb_neq. intuition congruence.
Qed.

Lemma prefix_dot (c : ascii) (s : string) :
  String.prefix "." (String c s) = if Ascii.eqb c "." then true else false.
Proof.
  cbn [String.prefix]. destruct (ascii_dec "." c) as [<-|Hne]; [now destruct s|].
  destruct (Ascii.eqb_spec c "."); congruence.
Qed.

Lemma rfind_from_dot_free (s : string) (i : Z) :
  dot_free s -> Py.rfind_from "." s i = -1.
Proof.
  revert i. induction s as [|c s IH]; intros i H; [reflexivity|].
  apply dot_free_cons in H as [Hc Hs]. cbn [Py.rfind_from]. cbv zeta.
  rewrite (IH _ Hs), prefix_dot.
  destruct (Ascii.eqb_spec c "."); [contradiction | reflexivity].
Qed.

Lemma rfind_from_last_dot (stem ext : string) (i : Z) :
  0 <= i -> dot_free ext ->
  Py.rfind_from "." (stem +:+ "." +:+ ext) i = i + Z.of_nat (String.length stem).
Proof.
  revert i. induction stem as [|c stem IH]; intros i Hi Hext.
  - rewrite append_nil, append_cons, append_nil. cbn [Py.rfind_from]. cbv zeta.
    rewrite (rfind_from_dot_free _ _ Hext), prefix_dot. cbn. lia.
  - rewrite append_cons. cbn [Py.rfind_from]. cbv zeta.
    rewrite IH by (lia || assumption).
    replace (0 <=? i + 1 + Z.of_nat (String.length stem)) with true
      by (symmetry; apply Z.leb_le; lia).
    cbn [String.length]. lia.
Qed.

Lemma substring_append_l (a b : string) : substring 0 (String.length a) (a +:+ b) = a.
Proof.
  induction a as [|c a IH]; [now destruct b|].
  rewrite append_cons. cbn. now rewrite IH.
Qed.

Lemma substring_none (n : nat) (s : string) : substring n 0 s = EmptyString.
Proof.
  revert n. induction s as [|c s IH]; intros [|n]; cbn; auto.
Qed.

Lemma name_extension_split (stem ext : string) :
  dot_free ext ->
  Py.slice (stem +:+ "." +:+ ext) None (Some (Py.rfind (stem +:+ "." +:+ ext) ".")) = stem /\
  Py.slice (stem +:+ "." +:+ ext) (Some (Py.rfind (stem +:+ "." +:+ ext) "." + 1)) None = ext.
Proof.
  intros Hext. unfold Py.rfind.
  rewrite (rfind_from_last_dot stem ext 0) by (lia || assumption).
  unfold Py.slice, Py.norm_index. cbv zeta.
  rewrite !length_append. cbn [String.length].
  set (a := String.length stem). set (b := String.length ext).
  replace (0 + Z.of_nat a <? 0) with false by (symmetry; apply Z.ltb_ge; lia).
  replace (0 + Z.of_nat a + 1 <? 0) with false by (symmetry; apply Z.ltb_ge; lia).
  split.
  - replace (Z.to_nat (Z.min (0 + Z.of_nat a) (Z.of_nat (a + (1 + b))) - 0)) with a by lia.
    apply substring_append_l.
  - replace (Z.to_nat (Z.min (0 + Z.of_nat a + 1) (Z.of_nat (a + (1 + b)))))
      with (String.length (stem +:+ ".")) by (rewrite length_append; cbn; lia).
    replace (Z.to_nat (Z.of_nat (a + (1 + b))
                       - Z.min (0 + Z.of_nat a + 1) (Z.of_nat (a + (1 + b)))))
      with (String.length ext) by lia.
    rewrite <- append_assoc. apply substring_append_r.
Qed.

Lemma ModelPath_name_of_split (pl : platform) (stem ext filepath sourcepathused : string) :
  dot_free ext ->
  name (ModelPathM.__init__ pl (stem +:+ "." +:+ ext) filepath sourcepathused) = stem.
Proof.
  intros Hext. unfold ModelPathM.__init__. cbn [name].
  apply name_extension_split, Hext.
Qed.

Lemma ModelPath_extension_of_split (pl : platform) (stem ext filepath sourcepathused : string) :
  dot_free ext ->
  extension (ModelPathM.__init__ pl (stem +:+ "." +:+ ext) filepath sourcepathused) = ext.
Proof.
  intros Hext. unfold ModelPathM.__init__. cbn [extension].
  apply name_extension_split, Hext.
Qed.

(** X4.  A file name [stem.ext] whose [ext] has no dot is split at its last
    dot: the name of the model is [stem], dots included, and the extension
    is [ext]. *)
Theorem ModelPath_splits_at_last_dot (pl : platform) (stem ext filepath sourcepathused : string) :
  dot_free ext ->
  name (ModelPathM.__init__ pl (stem +:+ "." +:+ ext) filepath sourcepathused) = stem /\
  extension (ModelPathM.__init__ pl (stem +:+ "." +:+ ext) filepath sourcepathused) = ext.
Proof.
  intros Hext. split.
  - now apply ModelPath_name_of_split.
  - now apply ModelPath_extension_of_split.
Qed.

Lemma ModelPath_splits_at_last_dot_witness :
  dot_free "obj" /\
  name (ModelPathM.__init__ Posix ("chair.v2" +:+ "." +:+ "obj") "/models/chair.v2.obj"
          "/models/") = "chair.v2" /\
  extension (ModelPathM.__init__ Posix ("chair.v2" +:+ "." +:+ "obj") "/models/chair.v2.obj"
               "/models/") = "obj".
Proof.
  split; [reflexivity|].
  apply (ModelPath_splits_at_last_dot Posix "chair.v2" "obj"). reflexivity.
Defined.

(** X5.  A file name without a dot is not left with an empty extension:
    [rfind] answers -1, so the extension is the whole file name and the name
    of the model is the file name without its last character. *)
Theorem ModelPath_without_dot (pl : platform) (stem : string) (c : ascii)
    (filepath sourcepathused : string) :
  dot_free (stem +:+ String c EmptyString) ->
  name (ModelPathM.__init__ pl (stem +:+ String c EmptyString) filepath sourcepathused)
  = stem /\
  extension (ModelPathM.__init__ pl (stem +:+ String c EmptyString) filepath sourcepathused)
  = stem +:+ String c EmptyString.
Proof.
  intros H. unfold ModelPathM.__init__. cbn [name extension].
  unfold Py.rfind. rewrite (rfind_from_dot_free _ 0 H).
  unfold Py.slice, Py.norm_index. cbv zeta.
  rewrite !length_append. cbn [String.length].
  set (a := String.length stem).
  replace (-1 <? 0) with true by reflexivity.
  replace (-1 + 1 <? 0) with false by reflexivity.
  split.
  - replace (Z.to_nat (Z.max 0 (-1 + Z.of_nat (a + 1)) - 0)) with a by lia.
    apply substring_append_l.
  - replace (Z.to_nat (Z.min (-1 + 1) (Z.of_nat (a + 1)))) with 0%nat by lia.
    replace (Z.to_nat (Z.of_nat (a + 1) - Z.min (-1 + 1) (Z.of_nat (a + 1))))
      with (String.length (stem +:+ String c EmptyString))
      by (rewrite length_append; cbn; lia).
    apply substring_all.
Qed.

Lemma ModelPath_without_dot_witness :
  dot_free ("READM" +:+ String "E" EmptyString) /\
  name (ModelPathM.__init__ Posix ("READM" +:+ String "E" EmptyString) "/models/README"
          "/models/") = "READM" /\
  extension (ModelPathM.__init__ Posix ("READM" +:+ String "E" EmptyString) "/models/README"
               "/models/") = "READM" +:+ String "E" EmptyString.
Proof.
  split; [reflexivity|].
  apply (ModelPath_without_dot Posix "READM" "E"). reflexivity.
Defined.

(** ** Discovery and import fit together *)

(** X6.  Every model path the discovery returns for the valid extensions
    has an extension [tryImport] has a case for: in a folder run the answer
    "improper file extension" is never given. *)
Theorem discovered_models_have_importer (h : Host) (pl : platform) (tree : fsnode)
    (basepath : string) (mp : ModelPath) :
  In mp (getAllModelPaths pl tree basepath VALID_IMPORT_EXTENSIONS) ->
  importer_for h (extension mp) = Some (host_import h).
Proof.
  rewrite getAllModelPaths_flat_map, in_flat_map.
  intros ([[subdir dirs] files] & _ & Hmp).
  apply in_map_iff in Hmp as (file & <- & Hfile).
  apply filter_In in Hfile as [_ Hends].
  apply endswith_any_spec in Hends as (e & stem & He & ->).
  unfold ModelPathM.__init__. cbn [extension].
  assert (Hsplit : forall ext, dot_free ext ->
            Py.slice (stem +:+ "." +:+ ext)
              (Some (Py.rfind (stem +:+ "." +:+ ext) "." + 1)) None = ext)
    by (intros ext Hext; apply (name_extension_split stem ext Hext)).
  cbn [VALID_IMPORT_EXTENSIONS In] in He.
  destruct He as [<-|[<-|[<-|[<-|[]]]]].
  - change (stem +:+ ".glb") with (stem +:+ "." +:+ "glb").
    rewrite Hsplit; reflexivity.
  - change (stem +:+ ".gltf") with (stem +:+ "." +:+ "gltf").
    rewrite Hsplit; reflexivity.
  - change (stem +:+ ".obj") with (stem +:+ "." +:+ "obj").
    rewrite Hsplit; reflexivity.
  - change (stem +:+ ".fbx") with (stem +:+ "." +:+ "fbx").
    rewrite Hsplit; reflexivity.
Qed.

Lemma discovered_models_have_importer_witness :
  let h := example_host Posix nested_models [] in
  let mp := ModelPathM.__init__ Posix "a.obj" "/models/sub/a.obj" "/models/" in
  In mp (getAllModelPaths Posix nested_models "/models/" VALID_IMPORT_EXTENSIONS) /\
  importer_for h (extension mp) = Some (host_import h).
Proof.
  assert (H : In (ModelPathM.__init__ Posix "a.obj" "/models/sub/a.obj" "/models/")
                (getAllModelPaths Posix nested_models "/models/" VALID_IMPORT_EXTENSIONS))
    by (vm_compute; right; left; reflexivity).
  split; [exact H|].
  exact (discovered_models_have_importer (example_host Posix nested_models []) Posix
           nested_models "/models/" _ H).
Defined.

(** ** The stand-in model paths of the current-file modes *)

Lemma prefix_refl (s : string) : String.prefix s s = true.
Proof.
  induction s as [|c s IH]; [reflexivity|].
  cbn [String.prefix]. destruct (ascii_dec c c); [exact IH | contradiction].
Qed.

Lemma find_self (s : string) : Py.find s s = 0.
Proof. unfold Py.find. destruct s; cbn [Py.find_from]; now rewrite prefix_refl. Qed.

Lemma standin_fields (pl : platform) (obj_name sourcePath : string) :
  name (standin_modelpath pl obj_name sourcePath) = obj_name /\
  extension (standin_modelpath pl obj_name sourcePath) = "standin" /\
  subpath (standin_modelpath pl obj_name sourcePath) = EmptyString.
Proof.
  unfold standin_modelpath.
  change (obj_name +:+ ".standin") with (obj_name +:+ "." +:+ "standin").
  split; [|split].
  - apply (ModelPath_name_of_split pl obj_name "standin"). reflexivity.
  - apply (ModelPath_extension_of_split pl obj_name "standin"). reflexivity.
  - unfold ModelPathM.__init__. cbn [subpath]. rewrite find_self.
    unfold Py.slice, Py.norm_index. cbv zeta.
    set (len := Z.of_nat (String.length (obj_name +:+ "." +:+ "standin"))).
    set (k := Z.of_nat (String.length (Py.strip sourcePath "\"))).
    replace (k <? 0) with false by (symmetry; apply Z.ltb_ge; lia).
    replace (0 <? 0) with false by reflexivity.
    replace (Z.to_nat (Z.min 0 len - Z.min k len)) with 0%nat by lia.
    rewrite substring_none. reflexivity.
Qed.

(** X7.  In the current-file modes an object is shot under the model path
    [name.standin]: the image is named after the object, whatever dots its
    name has, and there is no subfolder.  So with the path mode "flatten"
    the image goes to the export folder under the object's name, and with
    "flatten_foldername" the image name does not depend on the object at
    all: all objects of the file are written to the same path. *)
Theorem standin_export_paths (pl : platform) (obj_name other_name sourcePath : string)
    (direction exportpath : string) (nameMode : exportNameMode) :
  name (standin_modelpath pl obj_name sourcePath) = obj_name /\
  subpath (standin_modelpath pl obj_name sourcePath) = EmptyString /\
  ModelPathM.imageExportPath pl (standin_modelpath pl obj_name sourcePath)
    direction exportpath flatten nameMode
  = os.path_join pl exportpath [ModelPathM.suffixName direction obj_name nameMode] /\
  ModelPathM.imageExportPath pl (standin_modelpath pl obj_name sourcePath)
    direction exportpath flatten_foldername nameMode
  = ModelPathM.imageExportPath pl (standin_modelpath pl other_name sourcePath)
      direction exportpath flatten_foldername nameMode.
Proof.
  destruct (standin_fields pl obj_name sourcePath) as (Hn & _ & Hs).
  destruct (standin_fields pl other_name sourcePath) as (_ & _ & Hs').
  repeat split; [exact Hn | exact Hs | |].
  - unfold ModelPathM.imageExportPath. now rewrite Hn.
  - unfold ModelPathM.imageExportPath, ModelPathM.subpathtrimmed. now rewrite Hs, Hs'.
Qed.

(** ** What a computation leaves alone *)

Section Keeps.
Context (R : World -> World -> Prop).
Hypothesis R_refl : forall w, R w w.
Hypothesis R_trans : forall a b c, R a b -> R b c -> R a c.

Lemma keeps_ret {A} (a : A) : keeps R (ret a).
Proof. intros w r w' [= _ <-]. apply R_refl. Qed.

Lemma keeps_raise {A} (e : exception) : keeps R (raise (A := A) e).
Proof. intros w r w' [= _ <-]. apply R_refl. Qed.

Lemma keeps_lift {A} (x : result A) : keeps R (lift x).
Proof. intros w r w' [= _ <-]. apply R_refl. Qed.

Lemma keeps_get : keeps R get.
Proof. intros w r w' [= _ <-]. apply R_refl. Qed.

Lemma keeps_modify (f : World -> World) : (forall w, R w (f w)) -> keeps R (modify f).
Proof. intros Hf w r w' [= _ <-]. apply Hf. Qed.

Lemma keeps_bind {A B} (m : M A) (k : A -> M B) :
  keeps R m -> (forall a, keeps R (k a)) -> keeps R (bindM m k).
Proof.
  intros Hm Hk w r w' H. unfold bindM in H.
  destruct (m w) as [[a|e] w1] eqn:E.
  - apply (R_trans _ w1); [exact (Hm _ _ _ E) | exact (Hk a _ _ _ H)].
  - injection H as _ <-. exact (Hm _ _ _ E).
Qed.

Lemma keeps_for_each {A} (l : list A) (body : A -> M unit) :
  (forall x, keeps R (body x)) -> keeps R (for_each l body).
Proof.
  intros Hb. induction l as [|x l IH]; cbn [for_each].
  - apply keeps_ret.
  - apply keeps_bind; [apply Hb | intros _; exact IH].
Qed.

Lemma keeps_for_each_acc {A S} (l : list A) (body : A -> S -> M S) (s : S) :
  (forall x s, keeps R (body x s)) -> keeps R (for_each_acc l body s).
Proof.
  intros Hb. revert s. induction l as [|x l IH]; intros s; cbn [for_each_acc].
  - apply keeps_ret.
  - apply keeps_bind; [apply Hb | intros s'; apply IH].
Qed.

End Keeps.

Lemma same_rendered_refl (w : World) : same_rendered w w.
Proof. reflexivity. Qed.

Lemma same_rendered_trans (a b c : World) :
  same_rendered a b -> same_rendered b c -> same_rendered a c.
Proof. unfold same_rendered. congruence. Qed.

Lemma same_culling_refl (w : World) : same_culling w w.
Proof. reflexivity. Qed.

Lemma same_culling_trans (a b c : World) :
  same_culling a b -> same_culling b c -> same_culling a c.
Proof. unfold same_culling. congruence. Qed.

Lemma same_slots_refl (id : nat) (w : World) : same_slots id w w.
Proof. reflexivity. Qed.

Lemma same_slots_trans (id : nat) (a b c : World) :
  same_slots id a b -> same_slots id b c -> same_slots id a c.
Proof. unfold same_slots. congruence. Qed.

Lemma same_scene_refl (w : World) : same_scene w w.
Proof. unfold same_scene. tauto. Qed.

Lemma same_scene_trans (a b c : World) :
  same_scene a b -> same_scene b c -> same_scene a c.
Proof. unfold same_scene. intuition congruence. Qed.

(** Steps of a proof that a computation keeps a relation: the relation is
    given with its two laws. *)
Ltac keeps_step refl trans :=
  first
    [ apply (keeps_bind _ trans)
    | apply (keeps_ret _ refl)
    | apply (keeps_raise _ refl)
    | apply (keeps_lift _ refl)
    | apply (keeps_get _ refl)
    | apply (keeps_for_each _ refl trans)
    | apply (keeps_for_each_acc _ refl trans)
    | apply (keeps_modify _)
    | intro ].

Lemma keeps_render_op (R : World -> World -> Prop) (h : Host) :
  (forall w, R w w) ->
  (forall w, R w {| objects := objects w; next_id := next_id w; culling := culling w;
                    active_object := active_object w;
                    render_settings := render_settings w;
                    rendered := rendered w ++ [render_settings w];
                    messages := messages w |}) ->
  keeps R (render_op h).
Proof.
  intros Hrefl HR w r w' H. unfold render_op, bpy_ops_render_render in H.
  destruct (host_render_ok h (render_settings w)); injection H as _ <-;
    [apply HR | apply Hrefl].
Qed.

Lemma set_tile_border_keeps (R : World -> World -> Prop) (wm : WindowManager)
    (max_res pieces_x pieces_y row column : Z) :
  (forall w, R w w) -> (forall a b c, R a b -> R b c -> R a c) ->
  (forall f w, (forall r, resolution_x (f r) = resolution_x r /\
                          resolution_y (f r) = resolution_y r) ->
               R w (with_render f w)) ->
  keeps R (set_tile_border wm max_res pieces_x pieces_y row column).
Proof.
  intros Hrefl Htrans Hrender. unfold set_tile_border.
  destruct (orthobatch_imgDivideMode wm);
    repeat (keeps_step Hrefl Htrans); try (apply Hrender; intros r; split; reflexivity).
Qed.

(** [render] changes the render settings other than the resolution, and
    the log of renders; nothing else. *)
Lemma render_same_scene (h : Host) (wm : WindowManager) (basepath : string) (max_res : Z) :
  keeps same_scene (render h wm basepath max_res).
Proof.
  assert (Hrender : forall f w,
            (forall r, resolution_x (f r) = resolution_x r /\
                       resolution_y (f r) = resolution_y r) ->
            same_scene w (with_render f w)).
  { intros f w Hf. unfold same_scene. cbn. destruct (Hf (render_settings w)). tauto. }
  assert (Hop : keeps same_scene (render_op h)).
  { apply keeps_render_op; [apply same_scene_refl|].
    intros w. unfold same_scene. cbn. tauto. }
  unfold render.
  apply (keeps_bind _ same_scene_trans); [apply keeps_get, same_scene_refl|].
  intros w0.
  apply (keeps_bind _ same_scene_trans); [apply keeps_lift, same_scene_refl|].
  intros pieces_x.
  apply (keeps_bind _ same_scene_trans); [apply keeps_lift, same_scene_refl|].
  intros pieces_y.
  destruct ((pieces_x =? 1) && (pieces_y =? 1)).
  - apply (keeps_bind _ same_scene_trans).
    { apply keeps_modify. intros w. apply Hrender. intros r. split; reflexivity. }
    intros _. apply (keeps_bind _ same_scene_trans).
    { apply keeps_modify. intros w. apply Hrender. intros r. split; reflexivity. }
    intros _. exact Hop.
  - apply (keeps_bind _ same_scene_trans).
    { apply keeps_modify. intros w. apply Hrender. intros r. split; reflexivity. }
    intros _. apply (keeps_for_each _ same_scene_refl same_scene_trans). intros row.
    apply (keeps_for_each _ same_scene_refl same_scene_trans). intros column.
    apply (keeps_bind _ same_scene_trans).
    { apply keeps_modify. intros w. apply Hrender. intros r. split; reflexivity. }
    intros _. apply (keeps_bind _ same_scene_trans).
    { apply (set_tile_border_keeps same_scene);
        [apply same_scene_refl | apply same_scene_trans | exact Hrender]. }
    intros _. exact Hop.
Qed.

(** ** [render]: no image larger than the maximum *)

Section TilePixels.
Local Open Scope Q_scope.

Lemma even_cut_pixels (n len m k : Z) :
  (1 <= n)%Z -> (1 <= len)%Z -> (len <= m * n)%Z ->
  0 < width (even_cut n k) * inject_Z len <= inject_Z m.
Proof.
  intros Hn Hlen Hle.
  assert (Hpn : 0 < inject_Z n) by (apply inject_Z_pos; lia).
  assert (Hpl : 0 < inject_Z len) by (apply inject_Z_pos; lia).
  assert (Hq : inject_Z len <= inject_Z m * inject_Z n).
  { rewrite <- inject_Z_mult, <- Zle_Qle. exact Hle. }
  assert (E : width (even_cut n k) * inject_Z len == inject_Z len / inject_Z n).
  { unfold width, even_cut. rewrite inject_Z_plus. change (inject_Z 1) with 1.
    field. lra. }
  rewrite E. split.
  - apply Qlt_shift_div_l; [exact Hpn | lra].
  - apply Qle_shift_div_r; [exact Hpn | exact Hq].
Qed.

Lemma max_cut_pixels (m len k : Z) :
  (1 <= m)%Z -> (1 <= len)%Z -> (m * k < len)%Z ->
  0 < width (max_cut m len k) * inject_Z len <= inject_Z m.
Proof.
  intros Hm Hlen Hk.
  assert (Hpl : 0 < inject_Z len) by (apply inject_Z_pos; lia).
  assert (E : width (max_cut m len k) * inject_Z len
              == inject_Z (Z.min (m * (k + 1)) len - m * k)).
  { unfold width, max_cut. unfold Zminus. rewrite inject_Z_plus, inject_Z_opp.
    field. lra. }
  rewrite E. split.
  - apply inject_Z_pos. lia.
  - rewrite <- Zle_Qle. lia.
Qed.

End TilePixels.

Lemma image_pixels_tile (mode : imgDivideMode) (basepath : string)
    (m rx ry px py : Z) (b0 : Q * Q * Q * Q) (row col : Z) :
  image_pixels (tile_settings mode basepath m rx ry px py b0 row col)
  = (let '(x0, x1, y0, y1) := tile_box mode m rx ry px py b0 row col in
     ((x1 - x0) * inject_Z rx, (y1 - y0) * inject_Z ry)%Q).
Proof.
  unfold image_pixels. rewrite crop_box_tile_settings.
  unfold tile_settings.
  destruct (tile_box mode m rx ry px py b0 row col) as [[[x0 x1] y0] y1]. reflexivity.
Qed.

(** X8.  With [evensize] or [maxsize], a resolution of at least one pixel
    each way and renders that succeed, [render] writes
    [ceil(w / m) * ceil(h / m)] images, and none of them is empty or larger
    than [m] pixels on an axis. *)
Theorem render_images_within_max_res (h : Host) (wm : WindowManager)
    (basepath : string) (m : Z) (w : World) :
  (forall r, host_render_ok h r = true) ->
  1 <= m ->
  1 <= resolution_x (render_settings w) ->
  1 <= resolution_y (render_settings w) ->
  orthobatch_imgDivideMode wm <> reduceres ->
  exists w' images,
    render h wm basepath m w = (Ok tt, w') /\
    rendered w' = rendered w ++ images /\
    length images
    = (Z.to_nat (ceil_div (resolution_x (render_settings w)) m)
       * Z.to_nat (ceil_div (resolution_y (render_settings w)) m))%nat /\
    forall r, In r images -> within_max_res m (image_pixels r).
Proof.
  intros Hok Hm Hrx Hry Hmode.
  destruct (render_run h wm basepath m w Hok ltac:(lia)) as (w' & Hrun & Hrend).
  cbv zeta in Hrend.
  set (rx := resolution_x (render_settings w)) in *.
  set (ry := resolution_y (render_settings w)) in *.
  pose proof (ceil_div_bounds rx m ltac:(lia)) as Hbx.
  pose proof (ceil_div_bounds ry m ltac:(lia)) as Hby.
  pose proof (ceil_div_pos rx m ltac:(lia) Hrx) as Hpx.
  pose proof (ceil_div_pos ry m ltac:(lia) Hry) as Hpy.
  set (px := ceil_div rx m) in *. set (py := ceil_div ry m) in *.
  exists w'. eexists. split; [exact Hrun|]. split; [exact Hrend|].
  destruct ((px =? 1) && (py =? 1)) eqn:E1.
  - apply andb_true_iff in E1 as [Ex Ey]. apply Z.eqb_eq in Ex, Ey.
    rewrite Ex, Ey. split; [reflexivity|].
    intros r [<-|[]]. unfold within_max_res, image_pixels, crop_box.
    cbn [use_border set_filepath set_use_border resolution_x resolution_y fst snd].
    fold rx ry.
    assert (Hqx : (0 < inject_Z rx <= inject_Z m)%Q).
    { split; [apply inject_Z_pos; lia | rewrite <- Zle_Qle; lia]. }
    assert (Hqy : (0 < inject_Z ry <= inject_Z m)%Q).
    { split; [apply inject_Z_pos; lia | rewrite <- Zle_Qle; lia]. }
    split; lra.
  - split.
    + unfold grid. rewrite (flat_map_constant_length (c := Z.to_nat py)).
      * now rewrite length_range.
      * intros row _. now rewrite length_map, length_range.
    + intros r Hr. apply In_grid in Hr as (row & col & Hrow & Hcol & ->).
      rewrite image_pixels_tile. unfold within_max_res.
      destruct (orthobatch_imgDivideMode wm); [contradiction | |]; cbn [tile_box fst snd].
      * split.
        -- apply (even_cut_pixels px rx m row); lia.
        -- apply (even_cut_pixels py ry m col); lia.
      * split.
        -- apply (max_cut_pixels m rx row); nia.
        -- apply (max_cut_pixels m ry col); nia.
Qed.

Lemma render_images_within_max_res_witness :
  exists w' images,
    render (example_host Posix three_models []) example_wm "/out/a_Z" 4096
      (empty_world 5000 3000) = (Ok tt, w') /\
    rendered w' = rendered (empty_world 5000 3000) ++ images /\
    length images = (2 * 1)%nat /\
    forall r, In r images -> within_max_res 4096 (image_pixels r).
Proof.
  apply (render_images_within_max_res (example_host Posix three_models []) example_wm
           "/out/a_Z" 4096 (empty_world 5000 3000)).
  - reflexivity.
  - lia.
  - cbn. lia.
  - cbn. lia.
  - discriminate.
Defined.

(** ** [shoottarget]: when one image is written *)

Lemma shoottarget_run (h : Host) (wm : WindowManager) (camera target : nat)
    (direction : shootDirection) (path : string) (w : World) (o : Object)
    (m : Z) (px : Q) :
  objects w !! target = Some o ->
  max_image_size wm = Ok m ->
  px_per_unit wm m
    (target_bb_viewsize (dimensions o) direction (orthobatch_imgPadding wm)) = Ok px ->
  shoottarget h wm camera target direction path w
  = render h wm path m
      (with_render
         (set_resolution
            (Py.ceil (px * fst (target_bb_viewsize (dimensions o) direction
                                  (orthobatch_imgPadding wm))))
            (Py.ceil (px * snd (target_bb_viewsize (dimensions o) direction
                                  (orthobatch_imgPadding wm)))))
         (with_objects (alter (select_set false) target) w)).
Proof.
  intros Ho Hm Hpx.
  unfold shoottarget. unfold bindM at 1. cbn [modify].
  unfold bindM at 1. cbn [get].
  cbn [with_objects objects]. rewrite lookup_alter_eq, Ho. cbn [fmap option_fmap option_map].
  change (dimensions (select_set false o)) with (dimensions o).
  unfold bindM at 1. unfold lift at 1. rewrite Hm.
  unfold bindM at 1. unfold lift at 1. rewrite Hpx.
  unfold bindM at 1. cbn [modify]. unfold bindM at 1. cbn [modify].
  reflexivity.
Qed.

Section SingleImage.
Local Open Scope Q_scope.

(** Under [samesize], and under [reduceres], the pixels per unit are
    positive and bring the longer side to at most the maximum. *)
Lemma px_per_unit_fits (wm : WindowManager) (m : Z) (ew eh : Q) :
  0 < ew -> 0 < eh -> (1 <= m)%Z -> (1 <= orthobatch_imgSize wm)%Z ->
  orthobatch_scaleMode wm = samesize \/ orthobatch_imgDivideMode wm = reduceres ->
  exists px, px_per_unit wm m (ew, eh) = Ok px /\
             0 < px /\ px * Py.max ew eh <= inject_Z m.
Proof.
  intros Hew Heh Hm Hp Hmode.
  pose proof (Py_max_pos ew eh Hew Heh) as Hlong.
  set (longest := Py.max ew eh) in *.
  assert (Hqm : 0 < inject_Z m) by (apply inject_Z_pos; lia).
  assert (Hqp : 0 < inject_Z (orthobatch_imgSize wm)) by (apply inject_Z_pos; lia).
  assert (Hdiv : Py.div (inject_Z m) longest = Ok (inject_Z m / longest)).
  { apply Py_div_ok. intros E. rewrite E in Hlong. apply (Qlt_irrefl 0), Hlong. }
  assert (Hreduced : 0 < inject_Z m / longest /\
                     inject_Z m / longest * longest <= inject_Z m).
  { split.
    - apply Qlt_shift_div_l; [exact Hlong | lra].
    - assert (E : inject_Z m / longest * longest == inject_Z m) by (field; lra).
      rewrite E. apply Qle_refl. }
  unfold px_per_unit. cbn [fst snd]. fold longest.
  destruct (orthobatch_scaleMode wm) eqn:Escale.
  - destruct Hmode as [Hs | Hd]; [discriminate|]. rewrite Hd.
    destruct (Qlt_le_dec (inject_Z m) (longest * inject_Z (orthobatch_imgSize wm)))
      as [Hlt|Hge].
    + rewrite Hdiv. eexists. split; [reflexivity | exact Hreduced].
    + eexists. split; [reflexivity|]. split; [exact Hqp | lra].
  - rewrite Hdiv. eexists. split; [reflexivity | exact Hreduced].
Qed.

Lemma ceil_within (px e longest : Q) (m : Z) :
  0 < px -> 0 < e -> e <= longest -> px * longest <= inject_Z m ->
  (1 <= Py.ceil (px * e) <= m)%Z.
Proof.
  intros Hpx He Hle Hm. unfold Py.ceil. split.
  - apply Qceiling_pos. nra.
  - rewrite <- (Qceiling_Z m). apply Qceiling_resp_le. nra.
Qed.

Lemma Py_max_ge (a b : Q) : a <= Py.max a b /\ b <= Py.max a b.
Proof.
  destruct (Py_max_cases a b) as [[-> H]|[-> H]]; split; lra.
Qed.

End SingleImage.

(** X9.  With "uniform output size", or with the division mode
    "reduce resolution", a shot of an object with positive view size writes
    exactly one image: full frame, to the path given, at least one pixel
    and at most the maximum size on both axes.  The tile loop, which has no
    case for [reduceres], is not entered. *)
Theorem shoottarget_single_image (h : Host) (wm : WindowManager) (camera target : nat)
    (direction : shootDirection) (path : string) (w : World) (o : Object) (m : Z) :
  (forall r, host_render_ok h r = true) ->
  objects w !! target = Some o ->
  (0 < fst (target_bb_viewsize (dimensions o) direction (orthobatch_imgPadding wm)))%Q ->
  (0 < snd (target_bb_viewsize (dimensions o) direction (orthobatch_imgPadding wm)))%Q ->
  max_image_size wm = Ok m ->
  1 <= orthobatch_imgSize wm ->
  orthobatch_scaleMode wm = samesize \/ orthobatch_imgDivideMode wm = reduceres ->
  exists w' r,
    shoottarget h wm camera target direction path w = (Ok tt, w') /\
    rendered w' = rendered w ++ [r] /\
    render_filepath r = path /\
    use_border r = false /\
    1 <= resolution_x r <= m /\
    1 <= resolution_y r <= m.
Proof.
  intros Hok Ho Hew Heh Hm Hp Hmode.
  pose proof (max_image_size_pos wm m Hm) as Hmpos.
  destruct (target_bb_viewsize (dimensions o) direction (orthobatch_imgPadding wm))
    as [ew eh] eqn:Hview.
  cbn [fst snd] in Hew, Heh.
  destruct (px_per_unit_fits wm m ew eh Hew Heh ltac:(lia) Hp Hmode)
    as (px & Hpx & Hpos & Hfit).
  destruct (Py_max_ge ew eh) as [Hge1 Hge2].
  pose proof (ceil_within px ew _ m Hpos Hew Hge1 Hfit) as Hrx.
  pose proof (ceil_within px eh _ m Hpos Heh Hge2 Hfit) as Hry.
  rewrite <- Hview in Hpx.
  rewrite (shoottarget_run h wm camera target direction path w o m px Ho Hm Hpx).
  rewrite Hview. cbn [fst snd].
  set (w1 := with_render _ _).
  destruct (render_run h wm path m w1 Hok ltac:(lia)) as (w' & Hrun & Hrend).
  cbv zeta in Hrend.
  change (resolution_x (render_settings w1)) with (Py.ceil (px * ew)) in Hrend.
  change (resolution_y (render_settings w1)) with (Py.ceil (px * eh)) in Hrend.
  assert (E1 : ceil_div (Py.ceil (px * ew)) m = 1) by (apply ceil_div_one; lia).
  assert (E2 : ceil_div (Py.ceil (px * eh)) m = 1) by (apply ceil_div_one; lia).
  rewrite E1, E2 in Hrend. cbn [Z.eqb Pos.eqb andb] in Hrend.
  exists w'. eexists. split; [exact Hrun|]. split; [exact Hrend|].
  cbn [render_filepath use_border resolution_x resolution_y set_filepath set_use_border
       render_settings w1 with_render set_resolution].
  repeat split; lia.
Qed.

Lemma shoottarget_single_image_witness :
  exists w' r,
    shoottarget (example_host Posix three_models [])
      (example_settings samesize evensize size1024 currentfile "/models/")
      1 0 dir_Z "/out/Cube_Z" (cube_world false) = (Ok tt, w') /\
    rendered w' = rendered (cube_world false) ++ [r] /\
    render_filepath r = "/out/Cube_Z" /\
    use_border r = false /\
    1 <= resolution_x r <= 1024 /\
    1 <= resolution_y r <= 1024.
Proof.
  apply (shoottarget_single_image (example_host Posix three_models [])
           (example_settings samesize evensize size1024 currentfile "/models/")
           1 0 dir_Z "/out/Cube_Z" (cube_world false)
           (example_mesh "Cube" 2 [Some 0%nat; Some 1%nat]) 1024).
  - reflexivity.
  - reflexivity.
  - reflexivity.
  - reflexivity.
  - reflexivity.
  - cbn. lia.
  - left. reflexivity.
Defined.

(** ** The [shoottarget] of version 1.1 and the present one *)

(** X10.  With "uniform pixels per unit" and a resolution that stays within
    the maximum size, the present [shoottarget] writes what the one of
    version 1.1 wrote: one image, to the same path, at the same resolution.
    The only difference is that it switches the render border off. *)
Theorem shoottarget_agrees_with_v1_1 (h : Host) (wm : WindowManager) (camera target : nat)
    (direction : shootDirection) (path : string) (w : World) (o : Object) (m : Z) :
  (forall r, host_render_ok h r = true) ->
  objects w !! target = Some o ->
  let viewsize := target_bb_viewsize (dimensions o) direction (orthobatch_imgPadding wm) in
  let p := inject_Z (orthobatch_imgSize wm) in
  (0 < fst viewsize)%Q -> (0 < snd viewsize)%Q ->
  max_image_size wm = Ok m ->
  orthobatch_scaleMode wm = uniformscale ->
  1 <= Py.ceil (p * fst viewsize) <= m ->
  1 <= Py.ceil (p * snd viewsize) <= m ->
  exists w1 w2 r,
    shoottarget_v1_1 h wm camera target direction path w = (Ok tt, w1) /\
    shoottarget h wm camera target direction path w = (Ok tt, w2) /\
    rendered w1 = rendered w ++ [r] /\
    rendered w2 = rendered w ++ [set_use_border false false r] /\
    render_filepath r = path /\
    resolution_x r = Py.ceil (p * fst viewsize) /\
    resolution_y r = Py.ceil (p * snd viewsize) /\
    objects w1 = objects w2.
Proof.
  intros Hok Ho viewsize p Hew Heh Hm Hscale Hrx Hry.
  pose proof (max_image_size_pos wm m Hm) as Hmpos.
  assert (Hpx : px_per_unit wm m viewsize = Ok p).
  { unfold px_per_unit. rewrite Hscale. fold p.
    destruct (orthobatch_imgDivideMode wm); try reflexivity.
    destruct (Qlt_le_dec (inject_Z m) (Py.max (fst viewsize) (snd viewsize) * p))
      as [Hlt|Hge]; [|reflexivity].
    exfalso.
    apply (reduce_test m (orthobatch_imgSize wm) _ _ Hew Heh ltac:(lia)) in Hlt.
    fold p in Hlt. unfold Py.ceil in Hrx, Hry. lia. }
  rewrite (shoottarget_run h wm camera target direction path w o m p Ho Hm Hpx).
  fold viewsize.
  set (w0 := with_render _ _).
  destruct (render_run h wm path m w0 Hok ltac:(lia)) as (w2 & Hrun & Hrend).
  cbv zeta in Hrend.
  change (resolution_x (render_settings w0)) with (Py.ceil (p * fst viewsize)) in Hrend.
  change (resolution_y (render_settings w0)) with (Py.ceil (p * snd viewsize)) in Hrend.
  assert (E1 : ceil_div (Py.ceil (p * fst viewsize)) m = 1) by (apply ceil_div_one; lia).
  assert (E2 : ceil_div (Py.ceil (p * snd viewsize)) m = 1) by (apply ceil_div_one; lia).
  rewrite E1, E2 in Hrend. cbn [Z.eqb Pos.eqb andb] in Hrend.
  assert (Hobj : objects w2 = objects w0).
  { apply (render_same_scene h wm path m w0 _ _ Hrun). }
  unfold shoottarget_v1_1. unfold bindM at 1. cbn [modify].
  unfold bindM at 1. cbn [get].
  cbn [with_objects objects]. rewrite lookup_alter_eq, Ho. cbn [fmap option_fmap option_map].
  change (dimensions (select_set false o)) with (dimensions o). fold viewsize. fold p.
  unfold bindM, modify, render_op, bpy_ops_render_render. cbn. rewrite Hok.
  eexists. exists w2. eexists.
  split; [reflexivity|]. split; [exact Hrun|]. cbn.
  split; [reflexivity|]. split; [exact Hrend|].
  rewrite Hobj. repeat split.
Qed.

Lemma shoottarget_agrees_with_v1_1_witness :
  let h := example_host Posix three_models [] in
  let wm := example_settings uniformscale reduceres size1024 currentfile "/models/" in
  exists w1 w2 r,
    shoottarget_v1_1 h wm 1 0 dir_Z "/out/Cube_Z" (cube_world false) = (Ok tt, w1) /\
    shoottarget h wm 1 0 dir_Z "/out/Cube_Z" (cube_world false) = (Ok tt, w2) /\
    rendered w1 = rendered (cube_world false) ++ [r] /\
    rendered w2 = rendered (cube_world false) ++ [set_use_border false false r] /\
    render_filepath r = "/out/Cube_Z" /\
    resolution_x r = 512 /\
    resolution_y r = 512 /\
    objects w1 = objects w2.
Proof.
  apply (shoottarget_agrees_with_v1_1 (example_host Posix three_models [])
           (example_settings uniformscale reduceres size1024 currentfile "/models/")
           1 0 dir_Z "/out/Cube_Z" (cube_world false)
           (example_mesh "Cube" 2 [Some 0%nat; Some 1%nat]) 1024).
  - reflexivity.
  - reflexivity.
  - reflexivity.
  - reflexivity.
  - reflexivity.
  - reflexivity.
  - vm_compute. split; discriminate.
  - vm_compute. split; discriminate.
Defined.

(** ** What [shoottarget] does to the scene *)

Lemma keeps_weaken {A} (R1 R2 : World -> World -> Prop) (m : M A) :
  (forall w w', R1 w w' -> R2 w w') -> keeps R1 m -> keeps R2 m.
Proof. intros H Hm w r w' E. apply H, (Hm _ _ _ E). Qed.

Lemma same_data_refl (w : World) : same_data w w.
Proof. unfold same_data. tauto. Qed.

Lemma same_data_trans (a b c : World) : same_data a b -> same_data b c -> same_data a c.
Proof. unfold same_data. intuition congruence. Qed.

Lemma same_data_with_render (f : RenderSettings -> RenderSettings) (w : World) :
  same_data w (with_render f w).
Proof. unfold same_data. cbn. tauto. Qed.

Lemma render_same_data (h : Host) (wm : WindowManager) (basepath : string) (max_res : Z) :
  keeps same_data (render h wm basepath max_res).
Proof.
  apply (keeps_weaken same_scene); [|apply render_same_scene].
  unfold same_scene, same_data. tauto.
Qed.

(** Whether it returns or raises, [shoottarget] deselects its target and
    changes nothing else of the scene. *)
Lemma shoottarget_effect (h : Host) (wm : WindowManager) (camera target : nat)
    (direction : shootDirection) (path : string) (w w' : World) (r : result unit) :
  shoottarget h wm camera target direction path w = (r, w') ->
  objects w' = alter (select_set false) target (objects w) /\
  culling w' = culling w /\ next_id w' = next_id w /\
  active_object w' = active_object w /\ messages w' = messages w.
Proof.
  unfold shoottarget. unfold bindM at 1. cbn [modify].
  set (w1 := with_objects (alter (select_set false) target) w).
  intros H.
  assert (Hk : same_data w1 w').
  { revert H. generalize w1 r w'.
    apply (keeps_bind _ same_data_trans); [apply keeps_get, same_data_refl|].
    intros w0. destruct (objects w0 !! target) as [o|];
      [|apply keeps_raise, same_data_refl].
    cbv zeta.
    apply (keeps_bind _ same_data_trans); [apply keeps_lift, same_data_refl|].
    intros m.
    apply (keeps_bind _ same_data_trans); [apply keeps_lift, same_data_refl|].
    intros px.
    apply (keeps_bind _ same_data_trans);
      [apply keeps_modify; intros w2; apply same_data_with_render|].
    intros _.
    apply (keeps_bind _ same_data_trans);
      [apply keeps_modify; intros w2; apply same_data_with_render|].
    intros _. apply render_same_data. }
  destruct Hk as (Ho & Hc & Hn & Ha & Hm). subst w1. cbn in Ho, Hc, Hn, Ha, Hm.
  tauto.
Qed.

Lemma shoottarget_same_culling (h : Host) (wm : WindowManager) (camera target : nat)
    (direction : shootDirection) (path : string) :
  keeps same_culling (shoottarget h wm camera target direction path).
Proof. intros w r w' H. apply shoottarget_effect in H. unfold same_culling. tauto. Qed.

(** ** [prepare_shoot_clean_object]: the culling flags come back *)

Lemma for_each_acc_app {A S} (l1 l2 : list A) (body : A -> S -> M S) (s : S) (w : World) :
  for_each_acc (l1 ++ l2) body s w
  = (s' <~ for_each_acc l1 body s ;; for_each_acc l2 body s') w.
Proof.
  revert s w. induction l1 as [|x l1 IH]; intros s w; cbn [for_each_acc app].
  - reflexivity.
  - unfold bindM. destruct (body x s w) as [[s1|e] w1]; [|reflexivity].
    rewrite IH. reflexivity.
Qed.

Lemma for_each_app {A} (l1 l2 : list A) (body : A -> M unit) (w : World) :
  for_each (l1 ++ l2) body w = (for_each l1 body ;;; for_each l2 body) w.
Proof.
  revert w. induction l1 as [|x l1 IH]; intros w; cbn [for_each app].
  - reflexivity.
  - unfold bindM. destruct (body x w) as [[[]|e] w1]; [|reflexivity].
    rewrite IH. reflexivity.
Qed.

Lemma slot_materials_take_S (mats : list (option nat)) (k : nat) (x : option nat) :
  mats !! k = Some x ->
  slot_materials (take (S k) mats)
  = slot_materials (take k mats) ++ match x with Some mid => [mid] | None => [] end.
Proof.
  intros H. rewrite (take_S_r _ _ _ H). unfold slot_materials.
  rewrite omap_app. reflexivity.
Qed.

Lemma slot_materials_fresh (mats : list (option nat)) (k mid : nat) :
  NoDup (slot_materials mats) -> mats !! k = Some (Some mid) ->
  mid ∉ slot_materials (take k mats).
Proof.
  intros Hnd H.
  rewrite <- (take_drop_middle _ _ _ H) in Hnd. unfold slot_materials in Hnd.
  rewrite omap_app in Hnd. cbn in Hnd.
  apply NoDup_app in Hnd as (_ & Hnot & _).
  intros Hin. apply (Hnot _ Hin). left.
Qed.

Lemma if_in_snoc {B} (l : list nat) (mid m : nat) (x y : B) :
  m <> mid ->
  (if decide (m ∈ l ++ [mid]) then x else y) = (if decide (m ∈ l) then x else y).
Proof.
  intros Hne.
  destruct (decide (m ∈ l)) as [Hin|Hn];
    destruct (decide (m ∈ l ++ [mid])) as [Hin'|Hn']; try reflexivity; exfalso.
  - apply Hn', elem_of_app. now left.
  - apply elem_of_app in Hin' as [Hl|Hr]; [contradiction|].
    apply list_elem_of_singleton in Hr. contradiction.
Qed.

Lemma if_in_snoc_last {B} (l : list nat) (mid : nat) (x y : B) :
  (if decide (mid ∈ l ++ [mid]) then x else y) = x.
Proof.
  destruct (decide (mid ∈ l ++ [mid])) as [_|Hn]; [reflexivity|].
  exfalso. apply Hn, elem_of_app. right. now apply list_elem_of_singleton.
Qed.

(** The backup loop: the flag of every slot is remembered as it was, and
    the culling of the materials in the slots is set to the override. *)
Lemma backup_loop (wm : WindowManager) (mats : list (option nat)) (w : World) (k : nat) :
  NoDup (slot_materials mats) -> (k <= length mats)%nat ->
  exists old c,
    for_each_acc (seq 0 k)
      (fun i old_culling =>
         w <~ get ;;
         match mats !! i with
         | Some (Some mid) =>
             modify (with_culling (<[mid := orthobatch_backCulling wm]>)) ;;;
             ret (<[i := read_culling w mid]> old_culling)
         | _ => ret (<[i := false]> old_culling)
         end)
      (replicate (length mats) false) w
    = (Ok old, with_culling (fun _ => c) w) /\
    length old = length mats /\
    (forall i mid, (i < k)%nat -> mats !! i = Some (Some mid) ->
                   old !! i = Some (read_culling w mid)) /\
    (forall m, c !! m = if decide (m ∈ slot_materials (take k mats))
                        then Some (orthobatch_backCulling wm) else culling w !! m).
Proof.
  intros Hnd. induction k as [|k IH]; intros Hk.
  - exists (replicate (length mats) false), (culling w). cbn [seq for_each_acc].
    split; [destruct w; reflexivity|]. split; [apply length_replicate|].
    split; [intros i mid Hi; lia|].
    intros m. rewrite take_0. cbn. destruct (decide (m ∈ [])) as [Hin|_]; [|reflexivity].
    now apply elem_of_nil in Hin.
  - destruct (IH ltac:(lia)) as (old & c & Hrun & Hlen & Hold & Hc).
    rewrite seq_S, for_each_acc_app. unfold bindM at 1. rewrite Hrun.
    cbn [plus for_each_acc]. unfold bindM at 1. cbn [get].
    destruct (lookup_lt_is_Some_2 mats k ltac:(lia)) as [x Hx].
    rewrite Hx, (slot_materials_take_S _ _ _ Hx).
    destruct x as [mid|].
    + pose proof (slot_materials_fresh mats k mid Hnd Hx) as Hfresh.
      exists (<[k := read_culling w mid]> old), (<[mid := orthobatch_backCulling wm]> c).
      split.
      { cbv zeta. unfold bindM, modify, ret. cbn. unfold read_culling at 1. cbn.
        rewrite Hc. destruct (decide (mid ∈ slot_materials (take k mats))); [contradiction|].
        reflexivity. }
      split; [now rewrite length_insert|].
      split.
      * intros i mid' Hi Hmid'. destruct (decide (i = k)) as [->|Hne].
        -- rewrite Hx in Hmid'. injection Hmid' as <-.
           apply list_lookup_insert_eq. lia.
        -- rewrite list_lookup_insert_ne by congruence. apply Hold; [lia | exact Hmid'].
      * intros m. destruct (decide (m = mid)) as [->|Hne].
        -- rewrite lookup_insert_eq. now rewrite if_in_snoc_last.
        -- rewrite lookup_insert_ne by congruence. rewrite Hc.
           now rewrite if_in_snoc.
    + exists (<[k := false]> old), c. rewrite app_nil_r.
      split; [reflexivity|]. split; [now rewrite length_insert|].
      split; [|exact Hc].
      intros i mid' Hi Hmid'. destruct (decide (i = k)) as [->|Hne].
      * rewrite Hx in Hmid'. discriminate.
      * rewrite list_lookup_insert_ne by congruence. apply Hold; [lia | exact Hmid'].
Qed.

(** The restore loop writes back what the list holds for each slot. *)
Lemma restore_loop (mats : list (option nat)) (old : list bool) (v : nat -> bool)
    (w : World) (k : nat) :
  (forall i mid, mats !! i = Some (Some mid) -> old !! i = Some (v mid)) ->
  (k <= length mats)%nat ->
  exists c,
    for_each (seq 0 k)
      (fun i =>
         match mats !! i with
         | Some (Some mid) =>
             modify (with_culling (<[mid := default false (old !! i)]>))
         | _ => ret tt
         end) w
    = (Ok tt, with_culling (fun _ => c) w) /\
    (forall m, c !! m = if decide (m ∈ slot_materials (take k mats))
                        then Some (v m) else culling w !! m).
Proof.
  intros Hold. induction k as [|k IH]; intros Hk.
  - exists (culling w). cbn [seq for_each].
    split; [destruct w; reflexivity|].
    intros m. rewrite take_0. cbn. destruct (decide (m ∈ [])) as [Hin|_]; [|reflexivity].
    now apply elem_of_nil in Hin.
  - destruct (IH ltac:(lia)) as (c & Hrun & Hc).
    rewrite seq_S, for_each_app. unfold bindM at 1. rewrite Hrun.
    cbn [plus for_each]. unfold bindM at 1.
    destruct (lookup_lt_is_Some_2 mats k ltac:(lia)) as [x Hx].
    rewrite Hx, (slot_materials_take_S _ _ _ Hx).
    destruct x as [mid|].
    + exists (<[mid := v mid]> c). rewrite (Hold _ _ Hx). split; [reflexivity|].
      intros m. destruct (decide (m = mid)) as [->|Hne].
      * rewrite lookup_insert_eq. now rewrite if_in_snoc_last.
      * rewrite lookup_insert_ne by congruence. rewrite Hc.
        now rewrite if_in_snoc.
    + exists c. rewrite app_nil_r. split; [reflexivity | exact Hc].
Qed.

(** X11.  When the materials in the slots of the object are distinct and
    exist, and the shooting raises nothing, [prepare_shoot_clean_object]
    leaves the backface culling of every material in the slots of the
    object as it found it. *)
Theorem prepare_shoot_restores_culling (h : Host) (wm : WindowManager) (object cam : nat)
    (modelpath : ModelPath) (w w' : World) (o : Object) :
  objects w !! object = Some o ->
  NoDup (slot_materials (materials o)) ->
  (forall mid, mid ∈ slot_materials (materials o) -> is_Some (culling w !! mid)) ->
  prepare_shoot_clean_object h wm object cam modelpath w = (Ok tt, w') ->
  forall mid, mid ∈ slot_materials (materials o) -> culling w' !! mid = culling w !! mid.
Proof.
  intros Ho Hnd Hex.
  unfold prepare_shoot_clean_object. unfold bindM at 1. cbn [get]. rewrite Ho.
  unfold bindM at 1. unfold lift at 1. unfold data_materials.
  destruct (obj_type o); [|discriminate ..].
  destruct (backup_loop wm (materials o) w (length (materials o)) Hnd (Nat.le_refl _))
    as (old & c1 & Hrun1 & Hlen & Hold & Hc1).
  unfold bindM at 1. rewrite Hrun1.
  unfold bindM at 1. cbn [modify].
  set (w1 := with_objects _ _).
  unfold bindM at 1.
  destruct (for_each (orthobatch_shootDirections wm) _ w1) as [[[]|e] w2] eqn:Eshoot;
    [|discriminate].
  unfold bindM at 1. cbn [modify].
  set (w3 := with_objects _ w2).
  destruct (restore_loop (materials o) old (read_culling w) w3 (length (materials o)))
    as (c3 & Hrun3 & Hc3).
  { intros i mid Hi. apply (Hold i mid); [|exact Hi].
    apply lookup_lt_is_Some_1. eauto. }
  { lia. }
  rewrite Hrun3. intros [= <-] mid Hin. cbn [culling with_culling].
  rewrite Hc3, take_ge by lia.
  destruct (decide (mid ∈ slot_materials (materials o))); [|contradiction].
  destruct (Hex mid Hin) as [b Hb]. unfold read_culling. rewrite Hb. reflexivity.
Qed.

Lemma prepare_shoot_restores_culling_witness :
  let h := example_host Posix three_models [] in
  let wm := example_settings uniformscale maxsize size4096 currentfile "/models/" in
  let mp := standin_modelpath Posix "Cube" "/models/" in
  culling (snd (prepare_shoot_clean_object h wm 0 1 mp cube_world_with_camera)) !! 0%nat
  = culling cube_world_with_camera !! 0%nat /\
  culling (snd (prepare_shoot_clean_object h wm 0 1 mp cube_world_with_camera)) !! 1%nat
  = culling cube_world_with_camera !! 1%nat.
Proof.
  assert (H : forall mid, mid ∈ [0%nat; 1%nat] ->
            culling (snd (prepare_shoot_clean_object (example_host Posix three_models [])
                            (example_settings uniformscale maxsize size4096 currentfile
                               "/models/")
                            0 1 (standin_modelpath Posix "Cube" "/models/")
                            cube_world_with_camera)) !! mid
            = culling cube_world_with_camera !! mid).
  { apply (prepare_shoot_restores_culling (example_host Posix three_models [])
             (example_settings uniformscale maxsize size4096 currentfile "/models/")
             0 1 (standin_modelpath Posix "Cube" "/models/") cube_world_with_camera _
             (example_mesh "Cube" 2 [Some 0%nat; Some 1%nat])).
    - reflexivity.
    - vm_compute. apply NoDup_cons. split; [|apply NoDup_singleton].
      intros H. apply list_elem_of_singleton in H. discriminate.
    - intros mid Hmid. vm_compute in Hmid.
      apply elem_of_cons in Hmid as [->|Hmid]; [vm_compute; eauto|].
      apply elem_of_cons in Hmid as [->|Hmid]; [vm_compute; eauto|].
      now apply elem_of_nil in Hmid.
    - vm_compute. reflexivity. }
  split; apply H; apply list_elem_of_In; cbn; auto.
Defined.

(** ** The snapshot of [main] and its restore *)

Lemma hide_all_spec (old_objs : list nat) (w : World) (k : nat) :
  NoDup old_objs -> (k <= length old_objs)%nat ->
  exists flags os,
    fold_left
      (fun '(old_objs_werehidden, w) oi =>
         match old_objs !! oi with
         | Some id =>
             (<[oi := default false (hide_render <$> objects w !! id)]> old_objs_werehidden,
              with_objects (alter (set_hide_render true) id) w)
         | None => (old_objs_werehidden, w)
         end)
      (seq 0 k) (replicate (length old_objs) false, w)
    = (flags, with_objects (fun _ => os) w) /\
    length flags = length old_objs /\
    (forall i id, (i < k)%nat -> old_objs !! i = Some id ->
       flags !! i = Some (default false (hide_render <$> objects w !! id)) /\
       os !! id = set_hide_render true <$> objects w !! id) /\
    (forall id, (forall i, (i < k)%nat -> old_objs !! i <> Some id) ->
       os !! id = objects w !! id).
Proof.
  intros Hnd. induction k as [|k IH]; intros Hk.
  - exists (replicate (length old_objs) false), (objects w). cbn [seq fold_left].
    split; [destruct w; reflexivity|]. split; [apply length_replicate|].
    split; [intros i id Hi; lia | reflexivity].
  - destruct (IH ltac:(lia)) as (flags & os & Hrun & Hlen & Hin & Hout).
    rewrite fold_left_seq_S, Hrun.
    destruct (lookup_lt_is_Some_2 old_objs k ltac:(lia)) as [idk Hidk].
    rewrite Hidk. cbn [objects with_objects].
    assert (Hfresh : forall i, (i < k)%nat -> old_objs !! i <> Some idk).
    { intros i Hi E. pose proof (NoDup_lookup _ _ _ _ Hnd E Hidk). lia. }
    rewrite (Hout idk Hfresh).
    exists (<[k := default false (hide_render <$> objects w !! idk)]> flags),
           (alter (set_hide_render true) idk os).
    split; [reflexivity|]. split; [now rewrite length_insert|]. split.
    + intros i id Hi Hid. destruct (decide (i = k)) as [->|Hne].
      * rewrite Hidk in Hid. injection Hid as <-.
        rewrite list_lookup_insert_eq by lia. rewrite lookup_alter_eq, (Hout idk Hfresh).
        split; reflexivity.
      * assert (id <> idk).
        { intros ->. pose proof (NoDup_lookup _ _ _ _ Hnd Hid Hidk). lia. }
        rewrite list_lookup_insert_ne by congruence.
        rewrite lookup_alter_ne by congruence. apply Hin; [lia | exact Hid].
    + intros id Hid. rewrite lookup_alter_ne.
      * apply Hout. intros i Hi. apply Hid. lia.
      * intros ->. apply (Hid k); [lia | exact Hidk].
Qed.

Lemma restore_all_spec (old_objs : list nat) (flags : list bool) (w : World) (k : nat) :
  NoDup old_objs -> (k <= length old_objs)%nat ->
  exists os,
    fold_left
      (fun w oi =>
         match old_objs !! oi with
         | Some id =>
             with_objects (alter (set_hide_render (default false (flags !! oi))) id) w
         | None => w
         end)
      (seq 0 k) w
    = with_objects (fun _ => os) w /\
    (forall i id, (i < k)%nat -> old_objs !! i = Some id ->
       os !! id = set_hide_render (default false (flags !! i)) <$> objects w !! id) /\
    (forall id, (forall i, (i < k)%nat -> old_objs !! i <> Some id) ->
       os !! id = objects w !! id).
Proof.
  intros Hnd. induction k as [|k IH]; intros Hk.
  - exists (objects w). cbn [seq fold_left].
    split; [destruct w; reflexivity|].
    split; [intros i id Hi; lia | reflexivity].
  - destruct (IH ltac:(lia)) as (os & Hrun & Hin & Hout).
    rewrite fold_left_seq_S, Hrun.
    destruct (lookup_lt_is_Some_2 old_objs k ltac:(lia)) as [idk Hidk].
    rewrite Hidk.
    assert (Hfresh : forall i, (i < k)%nat -> old_objs !! i <> Some idk).
    { intros i Hi E. pose proof (NoDup_lookup _ _ _ _ Hnd E Hidk). lia. }
    exists (alter (set_hide_render (default false (flags !! k))) idk os).
    split; [reflexivity|]. split.
    + intros i id Hi Hid. destruct (decide (i = k)) as [->|Hne].
      * rewrite Hidk in Hid. injection Hid as <-.
        rewrite lookup_alter_eq, (Hout idk Hfresh). reflexivity.
      * assert (id <> idk).
        { intros ->. pose proof (NoDup_lookup _ _ _ _ Hnd Hid Hidk). lia. }
        rewrite lookup_alter_ne by congruence. apply Hin; [lia | exact Hid].
    + intros id Hid. rewrite lookup_alter_ne.
      * apply Hout. intros i Hi. apply Hid. lia.
      * intros ->. apply (Hid k); [lia | exact Hidk].
Qed.

Lemma scene_objects_NoDup (w : World) : NoDup (scene_objects w).
Proof. apply NoDup_fst_map_to_list. Qed.

Lemma scene_objects_lookup (w : World) (id : nat) :
  (exists i, scene_objects w !! i = Some id) <-> is_Some (objects w !! id).
Proof.
  unfold scene_objects. rewrite <- list_elem_of_lookup, list_elem_of_fmap. split.
  - intros ([id' o] & -> & Hin). apply elem_of_map_to_list in Hin. eauto.
  - intros [o Ho]. exists (id, o). split; [reflexivity|]. now apply elem_of_map_to_list.
Qed.

(** ** The objects after a run on the current file *)

Lemma same_unflagged_refl (w : World) : same_unflagged w w.
Proof. reflexivity. Qed.

Lemma same_unflagged_trans (a b c : World) :
  same_unflagged a b -> same_unflagged b c -> same_unflagged a c.
Proof. unfold same_unflagged. congruence. Qed.

Lemma same_unflagged_alter (f : Object -> Object) (id : nat) (w : World) :
  (forall o, unflagged (f o) = unflagged o) ->
  same_unflagged w (with_objects (alter f id) w).
Proof.
  intros Hf. unfold same_unflagged. cbn [objects with_objects].
  apply map_eq. intros k. rewrite !lookup_fmap.
  destruct (decide (k = id)) as [->|Hne].
  - rewrite lookup_alter_eq. destruct (objects w !! id) as [o|]; cbn; [|reflexivity].
    now rewrite Hf.
  - now rewrite lookup_alter_ne by congruence.
Qed.

Lemma shoottarget_same_unflagged (h : Host) (wm : WindowManager) (camera target : nat)
    (direction : shootDirection) (path : string) :
  keeps same_unflagged (shoottarget h wm camera target direction path).
Proof.
  intros w r w' H. apply shoottarget_effect in H as (Ho & _).
  unfold same_unflagged. rewrite Ho.
  apply (same_unflagged_alter (select_set false) target w). reflexivity.
Qed.

(** [prepare_shoot_clean_object] keeps what its steps keep. *)
Lemma prepare_shoot_keeps (R : World -> World -> Prop) (h : Host) (wm : WindowManager)
    (object cam : nat) (modelpath : ModelPath) :
  (forall w, R w w) -> (forall a b c, R a b -> R b c -> R a c) ->
  (forall f w, R w (with_culling f w)) ->
  (forall b w, R w (with_objects (alter (set_hide_render b) object) w)) ->
  (forall dir path, keeps R (shoottarget h wm cam object dir path)) ->
  keeps R (prepare_shoot_clean_object h wm object cam modelpath).
Proof.
  intros Hrefl Htrans Hcull Hhide Hshoot.
  unfold prepare_shoot_clean_object.
  apply (keeps_bind _ Htrans); [apply keeps_get, Hrefl|].
  intros w0. destruct (objects w0 !! object) as [o|]; [|apply keeps_raise, Hrefl].
  apply (keeps_bind _ Htrans); [apply keeps_lift, Hrefl|].
  intros mats.
  apply (keeps_bind _ Htrans).
  { apply (keeps_for_each_acc _ Hrefl Htrans).
    intros i old.
    apply (keeps_bind _ Htrans); [apply keeps_get, Hrefl|].
    intros w1. destruct (mats !! i) as [[mid|]|]; try (apply keeps_ret, Hrefl).
    apply (keeps_bind _ Htrans);
      [apply keeps_modify; intros w2; apply Hcull | intros _; apply keeps_ret, Hrefl]. }
  intros old.
  apply (keeps_bind _ Htrans); [apply keeps_modify; intros w1; apply Hhide|].
  intros _. apply (keeps_bind _ Htrans).
  { apply (keeps_for_each _ Hrefl Htrans). intros dir. apply Hshoot. }
  intros _. apply (keeps_bind _ Htrans); [apply keeps_modify; intros w1; apply Hhide|].
  intros _. apply (keeps_for_each _ Hrefl Htrans).
  intros i. destruct (mats !! i) as [[mid|]|]; try (apply keeps_ret, Hrefl).
  apply keeps_modify. intros w1. apply Hcull.
Qed.

Lemma prepare_shoot_same_unflagged (h : Host) (wm : WindowManager) (object cam : nat)
    (modelpath : ModelPath) :
  keeps same_unflagged (prepare_shoot_clean_object h wm object cam modelpath).
Proof.
  apply prepare_shoot_keeps.
  - apply same_unflagged_refl.
  - apply same_unflagged_trans.
  - reflexivity.
  - intros b w. now apply same_unflagged_alter.
  - intros dir path. apply shoottarget_same_unflagged.
Qed.

Lemma main_try_current_file (h : Host) (wm : WindowManager) (camera : nat)
    (w w' : World) (r : result bool) :
  orthobatch_importMode wm <> folder ->
  main_try h wm camera w = (r, w') ->
  r <> Ok true /\ same_unflagged w w'.
Proof.
  intros Hmode. unfold main_try.
  assert (G : forall (body : M unit),
            keeps same_unflagged body ->
            (body ;;; ret false) w = (r, w') -> r <> Ok true /\ same_unflagged w w').
  { intros body Hbody. unfold bindM.
    destruct (body w) as [[[]|e] w1] eqn:E; intros [= <- <-];
      (split; [discriminate | exact (Hbody _ _ _ E)]). }
  destruct (orthobatch_importMode wm); [| |contradiction].
  - unfold bindM at 1. cbn [get]. apply G.
    apply (keeps_for_each _ same_unflagged_refl same_unflagged_trans). intros obj.
    apply (keeps_bind _ same_unflagged_trans); [apply keeps_get, same_unflagged_refl|].
    intros w0. destruct (objects w0 !! obj) as [o|];
      [|apply keeps_raise, same_unflagged_refl].
    destruct (obj_type o); try (apply keeps_ret, same_unflagged_refl).
    apply prepare_shoot_same_unflagged.
  - unfold bindM at 1. cbn [get]. apply G.
    apply (keeps_for_each _ same_unflagged_refl same_unflagged_trans). intros obj.
    apply (keeps_bind _ same_unflagged_trans); [apply keeps_get, same_unflagged_refl|].
    intros w0. destruct (objects w0 !! obj) as [o|];
      [|apply keeps_raise, same_unflagged_refl].
    destruct (obj_type o); try (apply keeps_ret, same_unflagged_refl).
    apply prepare_shoot_same_unflagged.
Qed.

(** The snapshot, then anything that keeps the objects up to their two
    flags, then the restore and the disposal of the camera: the objects are
    as before, deselected. *)
Lemma restore_objects (w w2 : World) (flags : list bool) (os1 : gmap nat Object)
    (camobj : Object) :
  objects w !! next_id w = None ->
  hide_all (scene_objects w) w = (flags, with_objects (fun _ => os1) w) ->
  unflagged <$> objects w2 = unflagged <$> <[next_id w := camobj]> os1 ->
  objects (disposeobject (next_id w) (restore_all (scene_objects w) flags w2))
  = select_set false <$> objects w.
Proof.
  intros Hfresh Hhide Hsame.
  pose proof (scene_objects_NoDup w) as Hnd.
  destruct (hide_all_spec (scene_objects w) w (length (scene_objects w)) Hnd (Nat.le_refl _))
    as (flags' & os1' & Hhide' & Hlen & Hin1 & Hout1).
  change (hide_all (scene_objects w) w = (flags', with_objects (fun _ => os1') w)) in Hhide'.
  rewrite Hhide in Hhide'. injection Hhide' as <- <-.
  destruct (restore_all_spec (scene_objects w) flags w2 (length (scene_objects w)) Hnd
              (Nat.le_refl _)) as (os3 & Hrestore & Hin3 & Hout3).
  change (restore_all (scene_objects w) flags w2 = with_objects (fun _ => os3) w2)
    in Hrestore.
  rewrite Hrestore. unfold disposeobject. cbn [objects with_active with_objects].
  apply map_eq. intros id. rewrite lookup_fmap.
  destruct (decide (id = next_id w)) as [->|Hne].
  { rewrite lookup_delete_eq. now rewrite Hfresh. }
  rewrite lookup_delete_ne by congruence. rewrite lookup_fmap.
  assert (Hun : unflagged <$> objects w2 !! id = unflagged <$> os1 !! id).
  { apply (f_equal (fun m => m !! id)) in Hsame. rewrite !lookup_fmap in Hsame.
    rewrite Hsame. now rewrite lookup_insert_ne by congruence. }
  destruct (objects w !! id) as [o|] eqn:Eo.
  - destruct (proj2 (scene_objects_lookup w id) (ex_intro _ o Eo)) as [i Hi].
    assert (Hik : (i < length (scene_objects w))%nat)
      by (apply lookup_lt_is_Some_1; eauto).
    destruct (Hin1 i id Hik Hi) as [Hflag Hos1].
    rewrite (Hin3 i id Hik Hi), Hflag.
    rewrite Hos1, Eo in Hun. rewrite Eo. cbn in Hun |- *.
    destruct (objects w2 !! id) as [o2|]; [|discriminate]. cbn in Hun |- *.
    injection Hun as Hun. f_equal.
    destruct o, o2. unfold unflagged, set_hide_render, select_set in *. cbn in *.
    congruence.
  - assert (Hnot : forall i, (i < length (scene_objects w))%nat ->
                             scene_objects w !! i <> Some id).
    { intros i _ Hi.
      destruct (proj1 (scene_objects_lookup w id) (ex_intro _ i Hi)) as [o Ho].
      congruence. }
    rewrite (Hout3 id Hnot).
    rewrite (Hout1 id Hnot), Eo in Hun. cbn in Hun |- *.
    destruct (objects w2 !! id); [discriminate | reflexivity].
Qed.

Lemma hide_all_scene (w : World) :
  exists flags os1,
    hide_all (scene_objects w) w = (flags, with_objects (fun _ => os1) w) /\
    forall id, objects w !! id = None -> os1 !! id = None.
Proof.
  pose proof (scene_objects_NoDup w) as Hnd.
  destruct (hide_all_spec (scene_objects w) w (length (scene_objects w)) Hnd (Nat.le_refl _))
    as (flags & os1 & Hhide & _ & _ & Hout1).
  exists flags, os1. split; [exact Hhide|].
  intros id Hid. rewrite Hout1; [exact Hid|].
  intros i _ Hi.
  destruct (proj1 (scene_objects_lookup w id) (ex_intro _ i Hi)) as [o Ho]. congruence.
Qed.

(** X12.  In the current-file modes, from the snapshot of [main] on: the
    [try] block does not return early and, whatever is raised inside it, the
    restore loop and the disposal of the camera that follow it leave every
    object of the scene in place, with its [hide_render] as before the run
    and deselected, and leave no other object.  (The identity the camera
    gets is not in use.  The call of [prepareuniversalrendersettings]
    between the camera and the [try] block is not part of the statement.) *)
Theorem current_file_run_restores_flags (h : Host) (wm : WindowManager) (w : World) :
  orthobatch_importMode wm <> folder ->
  objects w !! next_id w = None ->
  let snapshot := hide_all (scene_objects w) w in
  let cam := prepareorthocam (snd snapshot) in
  let tried := main_try h wm (fst cam) (snd cam) in
  let w' := disposeobject (fst cam)
              (restore_all (scene_objects w) (fst snapshot) (snd tried)) in
  fst tried <> Ok true /\
  forall id,
    hide_render <$> objects w' !! id = hide_render <$> objects w !! id /\
    selected <$> objects w' !! id = (fun _ => false) <$> objects w !! id.
Proof.
  intros Hmode Hfresh. cbv zeta.
  destruct (hide_all_scene w) as (flags & os1 & Hhide & _).
  rewrite Hhide. cbn [fst snd]. unfold prepareorthocam, link_object.
  cbn [fst snd next_id objects with_objects culling active_object render_settings
       rendered messages].
  set (w1 := {| objects := <[next_id w := _]> os1 |}).
  destruct (main_try h wm (next_id w) w1) as [r w2] eqn:Etry.
  apply (main_try_current_file h wm (next_id w) w1 w2 r Hmode) in Etry as [Hr Hsame].
  cbn [fst snd]. split; [exact Hr|].
  intros id.
  assert (Hobj : objects (disposeobject (next_id w)
                            (restore_all (scene_objects w) flags w2))
                 = select_set false <$> objects w).
  { eapply restore_objects; [exact Hfresh | exact Hhide | exact Hsame]. }
  rewrite Hobj, lookup_fmap. now destruct (objects w !! id).
Qed.

Lemma current_file_run_restores_flags_witness :
  let wm := example_settings uniformscale maxsize size4096 currentfile "/models/" in
  let w := cube_world false in
  let snapshot := hide_all (scene_objects w) w in
  let cam := prepareorthocam (snd snapshot) in
  let tried := main_try failing_render_host wm (fst cam) (snd cam) in
  let w' := disposeobject (fst cam)
              (restore_all (scene_objects w) (fst snapshot) (snd tried)) in
  fst tried <> Ok true /\
  forall id,
    hide_render <$> objects w' !! id = hide_render <$> objects w !! id /\
    selected <$> objects w' !! id = (fun _ => false) <$> objects w !! id.
Proof.
  apply (current_file_run_restores_flags failing_render_host
           (example_settings uniformscale maxsize size4096 currentfile "/models/")
           (cube_world false)).
  - discriminate.
  - reflexivity.
Defined.

(** ** The maximum size "other" *)

Lemma shoottarget_other_size (h : Host) (wm : WindowManager) (camera target : nat)
    (direction : shootDirection) (path : string) :
  orthobatch_maxImgSize wm = size_other ->
  keeps same_rendered (shoottarget h wm camera target direction path).
Proof.
  intros Hother w r w'. unfold shoottarget. unfold bindM at 1. cbn [modify].
  unfold bindM at 1. cbn [get].
  destruct (objects _ !! target) as [o|]; [|intros [= _ <-]; reflexivity].
  unfold bindM at 1. unfold lift at 1. unfold max_image_size. rewrite Hother.
  intros [= _ <-]. reflexivity.
Qed.

Lemma link_objects_rendered (objs : list Object) (w : World) :
  rendered (snd (link_objects objs w)) = rendered w.
Proof.
  revert w. induction objs as [|o objs IH]; intros w; cbn [link_objects]; [reflexivity|].
  unfold link_object.
  destruct (link_objects objs _) as [ids w2] eqn:E. cbn [snd].
  apply (f_equal snd) in E. cbn [snd] in E. rewrite <- E, IH. reflexivity.
Qed.

Lemma tryImport_same_rendered (h : Host) (self : ModelPath) :
  keeps same_rendered (tryImport h self).
Proof.
  unfold tryImport.
  apply (keeps_bind _ same_rendered_trans); [apply keeps_get, same_rendered_refl|].
  intros w0. destruct (importer_for h (extension self)) as [import|];
    [|apply keeps_ret, same_rendered_refl].
  apply (keeps_bind _ same_rendered_trans).
  { destruct (host_import_deselects h (filepath self));
      [apply keeps_modify; reflexivity | apply keeps_ret, same_rendered_refl]. }
  intros _.
  destruct (import (filepath self)) as [objs|e]; [|apply keeps_ret, same_rendered_refl].
  apply (keeps_bind _ same_rendered_trans).
  { intros w r w' H. pose proof (link_objects_rendered objs w) as Hl.
    destruct (link_objects objs w) as [ids w1]. injection H as _ <-. exact Hl. }
  intros imported.
  apply (keeps_bind _ same_rendered_trans); [apply keeps_modify; reflexivity|].
  intros _. destruct imported as [|o [|o' rest]]; try (apply keeps_ret, same_rendered_refl).
  destruct (host_join h objs) as [joined|e]; [|apply keeps_ret, same_rendered_refl].
  apply (keeps_bind _ same_rendered_trans); [apply keeps_modify; reflexivity|].
  intros _. apply keeps_ret, same_rendered_refl.
Qed.

Lemma prepare_shoot_other_size (h : Host) (wm : WindowManager) (object cam : nat)
    (modelpath : ModelPath) :
  orthobatch_maxImgSize wm = size_other ->
  keeps same_rendered (prepare_shoot_clean_object h wm object cam modelpath).
Proof.
  intros Hother. apply prepare_shoot_keeps.
  - apply same_rendered_refl.
  - apply same_rendered_trans.
  - reflexivity.
  - reflexivity.
  - intros dir path. now apply shoottarget_other_size.
Qed.

Lemma main_try_other_size (h : Host) (wm : WindowManager) (camera : nat) :
  orthobatch_maxImgSize wm = size_other ->
  keeps same_rendered (main_try h wm camera).
Proof.
  intros Hother. unfold main_try.
  assert (Hcurrent : forall (mode : importMode),
    keeps same_rendered
      (w <~ get ;;
       for_each
         (filter_meshes_from_objlist w
            (List.filter (fun id => match objects w !! id with
                                    | Some o => match mode with
                                                | currentfile => selectable o
                                                | _ => selected o
                                                end
                                    | None => false
                                    end) (scene_objects w)))
         (fun obj =>
            w <~ get ;;
            match objects w !! obj with
            | Some o =>
                match obj_type o with
                | MESH =>
                    prepare_shoot_clean_object h wm obj camera
                      (ModelPathM.__init__ (host_platform h) (obj_name o +:+ ".standin")
                         (obj_name o +:+ ".standin") (orthobatch_sourcePath wm))
                | _ => ret tt
                end
            | None => raise ReferenceError
            end) ;;;
       ret false)).
  { intros mode.
    apply (keeps_bind _ same_rendered_trans); [apply keeps_get, same_rendered_refl|].
    intros w0. apply (keeps_bind _ same_rendered_trans);
      [|intros _; apply keeps_ret, same_rendered_refl].
    apply (keeps_for_each _ same_rendered_refl same_rendered_trans). intros obj.
    apply (keeps_bind _ same_rendered_trans); [apply keeps_get, same_rendered_refl|].
    intros w1. destruct (objects w1 !! obj) as [o|];
      [|apply keeps_raise, same_rendered_refl].
    destruct (obj_type o); try (apply keeps_ret, same_rendered_refl).
    now apply prepare_shoot_other_size. }
  destruct (orthobatch_importMode wm) eqn:Emode.
  - apply (Hcurrent currentfile).
  - apply (Hcurrent currentfile_selected).
  - cbv zeta. destruct (length _ <? 1)%nat.
    + apply (keeps_bind _ same_rendered_trans); [apply keeps_modify; reflexivity|].
      intros _. apply keeps_ret, same_rendered_refl.
    + apply (keeps_bind _ same_rendered_trans).
      * unfold import_loop.
        apply (keeps_for_each_acc _ same_rendered_refl same_rendered_trans).
        intros path [fails successes].
        apply (keeps_bind _ same_rendered_trans); [apply tryImport_same_rendered|].
        intros out. destruct (fst out) as [obj|]; [|apply keeps_ret, same_rendered_refl].
        cbv zeta.
        apply (keeps_bind _ same_rendered_trans); [now apply prepare_shoot_other_size|].
        intros _.
        apply (keeps_bind _ same_rendered_trans); [apply keeps_modify; reflexivity|].
        intros _. apply keeps_ret, same_rendered_refl.
      * intros lists.
        apply (keeps_bind _ same_rendered_trans); [apply keeps_modify; reflexivity|].
        intros _. apply keeps_ret, same_rendered_refl.
Qed.

(** X13.  With the maximum image size set to "other", a run renders
    nothing at all, in any import mode: every shot stops at the read of
    [orthobatch_maxImgSize.other] before [render] is reached. *)
Theorem other_size_renders_nothing (h : Host) (wm : WindowManager) (w : World) :
  orthobatch_maxImgSize wm = size_other ->
  rendered (snd (main h wm w)) = rendered w.
Proof.
  intros Hother. unfold main.
  destruct (length (orthobatch_shootDirections wm) <? 1)%nat; [reflexivity|].
  set (wm' := if negb _ then _ else wm).
  assert (Hother' : orthobatch_maxImgSize wm' = size_other).
  { subst wm'. destruct (negb _); [destruct wm|]; exact Hother. }
  pose proof (scene_objects_NoDup w) as Hnd.
  destruct (hide_all_spec (scene_objects w) w (length (scene_objects w)) Hnd (Nat.le_refl _))
    as (flags & os1 & Hhide & _).
  change (hide_all (scene_objects w) w = (flags, with_objects (fun _ => os1) w)) in Hhide.
  rewrite Hhide. unfold prepareorthocam, link_object.
  cbn [next_id objects with_objects culling active_object render_settings rendered messages].
  set (w1 := {| objects := <[next_id w := _]> os1 |}).
  destruct (main_try h wm' (next_id w) w1) as [r w2] eqn:Etry.
  apply (main_try_other_size h wm' (next_id w) Hother') in Etry.
  unfold same_rendered in Etry. change (rendered w1) with (rendered w) in Etry.
  set (w2' := match r with Raise e => ShowMessageBox (ErrorOccurred e) w2 | Ok _ => w2 end).
  assert (Hr2 : rendered w2' = rendered w) by (subst w2'; now destruct r).
  destruct (restore_all_spec (scene_objects w) flags w2' (length (scene_objects w)) Hnd
              (Nat.le_refl _)) as (os3 & Hrestore & _).
  change (restore_all (scene_objects w) flags w2' = with_objects (fun _ => os3) w2')
    in Hrestore.
  assert (Hgoal : rendered (disposeobject (next_id w)
                              (restore_all (scene_objects w) flags w2')) = rendered w).
  { rewrite Hrestore. exact Hr2. }
  destruct r as [[|]|e]; [exact Etry | exact Hgoal | exact Hgoal].
Qed.

Lemma other_size_renders_nothing_witness :
  rendered (snd (main (example_host Posix three_models [])
                   (example_settings uniformscale maxsize size_other folder "/models")
                   (cube_world false)))
  = rendered (cube_world false).
Proof. apply other_size_renders_nothing. reflexivity. Defined.

(** ** A folder run leaves no import behind *)

Lemma import_loop_body (h : Host) (wm : WindowManager) (camera : nat)
    (modelpaths : list ModelPath) :
  import_loop h wm camera modelpaths
  = for_each_acc modelpaths (import_body h wm camera) ([], []).
Proof. reflexivity. Qed.

Lemma same_unflagged_ids_refl (w : World) : same_unflagged_ids w w.
Proof. split; reflexivity. Qed.

Lemma same_unflagged_ids_trans (a b c : World) :
  same_unflagged_ids a b -> same_unflagged_ids b c -> same_unflagged_ids a c.
Proof.
  intros [H1 N1] [H2 N2]. split; [exact (same_unflagged_trans _ _ _ H1 H2) | congruence].
Qed.

Lemma prepare_shoot_same_unflagged_ids (h : Host) (wm : WindowManager) (object cam : nat)
    (modelpath : ModelPath) :
  keeps same_unflagged_ids (prepare_shoot_clean_object h wm object cam modelpath).
Proof.
  apply prepare_shoot_keeps.
  - apply same_unflagged_ids_refl.
  - apply same_unflagged_ids_trans.
  - intros f w. split; reflexivity.
  - intros b w. split; [now apply same_unflagged_alter | reflexivity].
  - intros dir path w r w' H. split.
    + exact (shoottarget_same_unflagged _ _ _ _ _ _ _ _ _ H).
    + apply shoottarget_effect in H. tauto.
Qed.

Lemma importer_for_host (h : Host) (e : string) (import : string -> result (list Object)) :
  importer_for h e = Some import -> import = host_import h.
Proof.
  unfold importer_for.
  repeat match goal with |- context [if ?b then _ else _] => destruct b end;
    congruence.
Qed.

(** What the importer does to the selection before it reads the file. *)
Lemma import_selection_unflagged (h : Host) (self : ModelPath) (w : World) :
  exists w0,
    (if host_import_deselects h (filepath self)
     then modify (with_objects (fmap (select_set false)))
     else ret tt) w = (Ok tt, w0) /\
    same_unflagged_ids w w0 /\ active_object w0 = active_object w.
Proof.
  destruct (host_import_deselects h (filepath self)).
  - eexists. split; [reflexivity|]. split; [|reflexivity]. split; [|reflexivity].
    unfold same_unflagged. cbn [objects with_objects].
    apply map_eq. intros id. rewrite !lookup_fmap.
    now destruct (objects w !! id).
  - exists w. split; [reflexivity|]. split; [apply same_unflagged_ids_refl | reflexivity].
Qed.

(** The two answers of [tryImport] when the importer brings one object at
    most: no object, the scene kept up to the selection; or the one object,
    linked under the next identity. *)
Lemma tryImport_at_most_one (h : Host) (self : ModelPath) (w : World) :
  (forall objs, host_import h (filepath self) = Ok objs -> (length objs <= 1)%nat) ->
  exists w0, same_unflagged_ids w w0 /\
    ((exists msg, tryImport h self w = (Ok (None, msg), w0)) \/
     (exists o, host_import h (filepath self) = Ok [o] /\
                tryImport h self w
                = (Ok (Some (next_id w0), "succeeded"),
                   with_active (active_object w) (snd (link_object o w0))))).
Proof.
  intros Hone.
  assert (Hnone : importer_for h (extension self) = None ->
                  tryImport h self w = (Ok (None, "FAILED: improper file extension"), w)).
  { intros Ei. unfold tryImport. unfold bindM at 1. cbn [get]. now rewrite Ei. }
  destruct (import_selection_unflagged h self w) as (w0 & Hsel & Hsame & Hact).
  assert (Hsome : importer_for h (extension self) = Some (host_import h) ->
            tryImport h self w
            = match host_import h (filepath self) with
              | Raise error => (Ok (None, "FAILED: " +:+ str_of_exception error), w0)
              | Ok objs =>
                  ((imported <~
                      (fun w => let '(ids, w') := link_objects objs w in (Ok ids, w')) ;;
                    modify (with_active (active_object w)) ;;;
                    match imported with
                    | [] => ret (None, "FAILED: No meshes found in imported object")
                    | [o] => ret (Some o, "succeeded")
                    | o :: rest =>
                        match host_join h objs with
                        | Raise error =>
                            ret (None, "FAILED: " +:+ str_of_exception error)
                        | Ok joined =>
                            modify (with_objects
                                      (fun os => <[o := joined]>
                                         (fold_left (fun os id => delete id os) rest os))) ;;;
                            ret (active_object w, "succeeded")
                        end
                    end) w0)
              end).
  { intros Ei. unfold tryImport. unfold bindM at 1. cbn [get]. rewrite Ei.
    unfold bindM at 1. rewrite Hsel.
    now destruct (host_import h (filepath self)). }
  destruct (importer_for h (extension self)) as [import|] eqn:Ei.
  2:{ exists w. split; [apply same_unflagged_ids_refl | left; eauto]. }
  pose proof (importer_for_host _ _ _ Ei) as ->.
  specialize (Hsome eq_refl).
  exists w0. split; [exact Hsame|].
  destruct (host_import h (filepath self)) as [objs|e] eqn:E; [|left; eauto].
  destruct objs as [|o1 [|o2 rest]].
  - left. eexists. rewrite Hsome. unfold bindM, modify, ret. cbn [link_objects].
    rewrite <- Hact. now destruct w0.
  - right. exists o1. split; [reflexivity|]. rewrite Hsome. reflexivity.
  - specialize (Hone _ eq_refl). cbn [length] in Hone. lia.
Qed.

Lemma import_body_clean (h : Host) (wm : WindowManager) (camera : nat) (path : ModelPath)
    (acc lists : list (string * string) * list (string * string)) (w w' : World) :
  (forall p objs, host_import h p = Ok objs -> (length objs <= 1)%nat) ->
  fresh_from w ->
  import_body h wm camera path acc w = (Ok lists, w') ->
  fresh_from w' /\ same_unflagged w w'.
Proof.
  intros Hone Hfresh. destruct acc as [fails successes]. unfold import_body.
  unfold bindM at 1.
  destruct (tryImport_at_most_one h path w (Hone (filepath path)))
    as (w0 & [Hsame0 Hnext0] & [[msg E]|(o & _ & E)]); rewrite E; cbn [fst snd].
  - intros [= _ <-]. split; [|exact Hsame0].
    intros id Hid. rewrite Hnext0 in Hid.
    apply (f_equal (fun m => m !! id)) in Hsame0. rewrite !lookup_fmap in Hsame0.
    rewrite (Hfresh id Hid) in Hsame0. now destruct (objects w0 !! id).
  - assert (Hfresh0 : fresh_from w0).
    { intros id Hid. rewrite Hnext0 in Hid.
      pose proof Hsame0 as Hs.
      apply (f_equal (fun m => m !! id)) in Hs. rewrite !lookup_fmap in Hs.
      rewrite (Hfresh id Hid) in Hs. now destruct (objects w0 !! id). }
    set (n := next_id w0).
    set (w1 := with_active _ _).
    unfold bindM at 1.
    destruct (prepare_shoot_clean_object h wm n camera path w1) as [[[]|e] w2] eqn:Eps;
      [|discriminate].
    apply prepare_shoot_same_unflagged_ids in Eps as [Hsame Hnext].
    unfold bindM, modify, ret. intros [= _ <-].
    assert (Hun : forall id, id <> n ->
              unflagged <$> objects (disposeobject n w2) !! id
              = unflagged <$> objects w0 !! id).
    { intros id Hne.
      assert (Hne' : n <> id) by (intros Heq; apply Hne; symmetry; exact Heq).
      unfold disposeobject. cbn [objects with_active with_objects].
      rewrite lookup_delete_ne by exact Hne'. rewrite lookup_fmap.
      apply (f_equal (fun m => m !! id)) in Hsame. rewrite !lookup_fmap in Hsame.
      subst w1. cbn [objects with_active link_object snd] in Hsame.
      rewrite lookup_insert_ne in Hsame by exact Hne'.
      rewrite <- Hsame. now destruct (objects w2 !! id). }
    assert (Hn : objects (disposeobject n w2) !! n = None).
    { unfold disposeobject. cbn [objects with_active with_objects].
      apply lookup_delete_eq. }
    assert (Hclean : same_unflagged w0 (disposeobject n w2)).
    { unfold same_unflagged. apply map_eq. intros id. rewrite !lookup_fmap.
      destruct (decide (id = n)) as [->|Hne]; [|now apply Hun].
      rewrite Hn. subst n. now rewrite (Hfresh0 (next_id w0)) by lia. }
    split.
    + intros id Hid.
      change (next_id (disposeobject n w2)) with (next_id w2) in Hid.
      rewrite Hnext in Hid. subst w1. cbn [next_id with_active link_object snd] in Hid.
      assert (Hne : id <> n) by (subst n; lia).
      specialize (Hun id Hne). rewrite (Hfresh0 id) in Hun by (subst n; lia).
      now destruct (objects (disposeobject n w2) !! id).
    + exact (same_unflagged_trans _ _ _ Hsame0 Hclean).
Qed.

Lemma import_loop_clean (h : Host) (wm : WindowManager) (camera : nat)
    (modelpaths : list ModelPath)
    (acc lists : list (string * string) * list (string * string)) (w w' : World) :
  (forall p objs, host_import h p = Ok objs -> (length objs <= 1)%nat) ->
  fresh_from w ->
  for_each_acc modelpaths (import_body h wm camera) acc w = (Ok lists, w') ->
  fresh_from w' /\ same_unflagged w w'.
Proof.
  intros Hone. revert acc w.
  induction modelpaths as [|path paths IH]; intros acc w Hfresh; cbn [for_each_acc].
  - intros [= _ <-]. split; [exact Hfresh | reflexivity].
  - unfold bindM at 1.
    destruct (import_body h wm camera path acc w) as [[acc1|e] w1] eqn:Ebody;
      [|discriminate].
    intros Hrest.
    destruct (import_body_clean _ _ _ _ _ _ _ _ Hone Hfresh Ebody) as [Hfresh1 Hsame1].
    destruct (IH acc1 w1 Hfresh1 Hrest) as [Hfresh' Hsame'].
    split; [exact Hfresh' | exact (same_unflagged_trans _ _ _ Hsame1 Hsame')].
Qed.

Lemma main_try_folder (h : Host) (wm : WindowManager) (camera : nat) (w w2 : World)
    (r : result bool) :
  orthobatch_importMode wm = folder ->
  main_try h wm camera w = (r, w2) ->
  (r = Ok true /\ exists why, messages w2 = messages w ++ [Aborting why]) \/
  (exists e, r = Raise e) \/
  (r = Ok false /\
   exists modelpaths lists w',
     import_loop h wm camera modelpaths w = (Ok lists, w') /\
     objects w2 = objects w').
Proof.
  intros Hmode. unfold main_try. rewrite Hmode. cbv zeta.
  destruct (length _ <? 1)%nat.
  - unfold bindM, modify, ret. intros [= <- <-]. left. split; [reflexivity|]. eauto.
  - unfold bindM at 1.
    destruct (import_loop h wm camera _ w) as [[lists|e] w'] eqn:E.
    + unfold bindM, modify, ret. intros [= <- <-]. right. right.
      split; [reflexivity|]. eauto.
    + intros [= <- _]. right. left. eauto.
Qed.

(** X19.  A folder run that ends with its import report, on a host whose
    importer brings one object per file at most, leaves no imported object
    and no camera behind: the scene holds the objects it held before, each
    with its [hide_render] as before the run and deselected. *)
Theorem folder_run_leaves_no_import (h : Host) (wm : WindowManager) (w : World)
    (successes fails : list (string * string)) :
  orthobatch_importMode wm = folder ->
  (forall p objs, host_import h p = Ok objs -> (length objs <= 1)%nat) ->
  fresh_from w ->
  last (messages (snd (main h wm w))) = Some (ImportReport successes fails) ->
  objects (snd (main h wm w)) = select_set false <$> objects w.
Proof.
  intros Hmode Hone Hfresh. unfold main.
  destruct (length (orthobatch_shootDirections wm) <? 1)%nat.
  { cbn [snd ShowMessageBox messages]. rewrite last_snoc. discriminate. }
  set (wm' := if negb _ then _ else wm).
  assert (Hmode' : orthobatch_importMode wm' = folder).
  { subst wm'. destruct (negb _); [destruct wm|]; exact Hmode. }
  destruct (hide_all_scene w) as (flags & os1 & Hhide & Hnone).
  rewrite Hhide. unfold prepareorthocam, link_object.
  cbn [next_id objects with_objects culling active_object render_settings rendered messages].
  set (w1 := {| objects := <[next_id w := _]> os1 |}).
  assert (Hfresh1 : fresh_from w1).
  { intros id Hid. subst w1. cbn [next_id objects] in *.
    rewrite lookup_insert_ne by lia. apply Hnone, Hfresh. lia. }
  destruct (main_try h wm' (next_id w) w1) as [r w2] eqn:Etry.
  destruct (main_try_folder h wm' (next_id w) w1 w2 r Hmode' Etry)
    as [[-> [why Hmsg]]|[[e ->]|[-> (paths & lists & w' & Hloop & Hobj)]]].
  - cbn [snd]. rewrite Hmsg, last_snoc. discriminate.
  - cbn [snd].
    destruct (restore_all_spec (scene_objects w) flags
                (ShowMessageBox (ErrorOccurred e) w2) (length (scene_objects w))
                (scene_objects_NoDup w) (Nat.le_refl _)) as (os3 & Hrestore & _).
    change (restore_all (scene_objects w) flags (ShowMessageBox (ErrorOccurred e) w2)
            = with_objects (fun _ => os3) (ShowMessageBox (ErrorOccurred e) w2))
      in Hrestore.
    rewrite Hrestore. unfold disposeobject.
    cbn [messages with_active with_objects ShowMessageBox].
    rewrite last_snoc. discriminate.
  - cbn [snd]. intros _.
    rewrite import_loop_body in Hloop.
    apply (import_loop_clean h wm' (next_id w) paths _ _ w1 w' Hone Hfresh1) in Hloop
      as [_ Hsame].
    eapply restore_objects; [apply Hfresh; lia | exact Hhide |].
    rewrite Hobj. exact Hsame.
Qed.

Lemma folder_run_leaves_no_import_witness :
  let h := example_host Posix three_models ["/models/b.obj"] in
  objects (snd (main h example_wm (cube_world false)))
  = select_set false <$> objects (cube_world false).
Proof.
  eapply (folder_run_leaves_no_import (example_host Posix three_models ["/models/b.obj"])
            example_wm (cube_world false)).
  - reflexivity.
  - intros p objs. cbn [host_import example_host].
    destruct (existsb _ _); [discriminate|]. intros [= <-]. cbn. lia.
  - intros id Hid. cbn [next_id cube_world] in Hid. cbn [objects cube_world].
    apply lookup_singleton_ne. lia.
  - vm_compute. reflexivity.
Defined.

(** ** The answers of [tryImport] *)

Lemma link_objects_spec (objs : list Object) (w : World) :
  fst (link_objects objs w) = seq (next_id w) (length objs) /\
  (forall id, objects (snd (link_objects objs w)) !! id
              = if decide (next_id w <= id < next_id w + length objs)%nat
                then objs !! (id - next_id w)%nat else objects w !! id) /\
  culling (snd (link_objects objs w)) = culling w /\
  active_object (snd (link_objects objs w)) = active_object w.
Proof.
  revert w. induction objs as [|o objs IH]; intros w.
  - cbn. repeat split. intros id. destruct (decide _) as [H|_]; [lia | reflexivity].
  - cbn [link_objects]. unfold link_object.
    set (w1 := {| objects := <[next_id w := o]> (objects w) |}).
    destruct (IH w1) as (Hids & Hobj & Hc & Ha).
    destruct (link_objects objs w1) as [ids w2]. cbn [fst snd] in *.
    change (next_id w1) with (S (next_id w)) in *.
    split; [cbn [length seq]; now rewrite Hids|].
    split; [|split; [exact Hc | exact Ha]].
    intros id. rewrite Hobj. cbn [length].
    destruct (decide (S (next_id w) <= id < S (next_id w) + length objs)%nat) as [H1|H1];
      destruct (decide (next_id w <= id < next_id w + S (length objs))%nat) as [H2|H2];
      try lia.
    + replace (id - next_id w)%nat with (S (id - S (next_id w))) by lia. reflexivity.
    + assert (id = next_id w) as -> by lia.
      subst w1. cbn [objects]. rewrite lookup_insert_eq, Nat.sub_diag. reflexivity.
    + subst w1. cbn [objects]. rewrite lookup_insert_ne by lia. reflexivity.
Qed.

(** X15.  When the importer brings two or more objects and the join goes
    through, the import counts as succeeded, but the object [tryImport]
    answers with is the one that was active before the import, not the
    imported one; with no active object the answer is [None]. *)
Theorem tryImport_several_objects (h : Host) (self : ModelPath) (w : World)
    (o1 o2 joined : Object) (rest : list Object) :
  importer_for h (extension self) = Some (host_import h) ->
  host_import h (filepath self) = Ok (o1 :: o2 :: rest) ->
  host_join h (o1 :: o2 :: rest) = Ok joined ->
  fst (tryImport h self w) = Ok (active_object w, "succeeded").
Proof.
  intros Himp Hobjs Hjoin.
  unfold tryImport. unfold bindM at 1. cbn [get]. rewrite Himp, Hobjs.
  unfold bindM at 1.
  destruct ((if host_import_deselects h (filepath self)
             then modify (with_objects (fmap (select_set false)))
             else ret tt) w) as [r w0] eqn:Esel.
  assert (r = Ok tt) as ->.
  { destruct (host_import_deselects h (filepath self)); now injection Esel as <- _. }
  destruct (link_objects_spec (o1 :: o2 :: rest) w0) as (Hids & _).
  unfold bindM at 1.
  destruct (link_objects (o1 :: o2 :: rest) w0) as [ids w1]. cbn [fst snd] in *.
  subst ids. cbn [length seq]. rewrite Hjoin. unfold bindM, modify, ret.
  reflexivity.
Qed.

Lemma tryImport_several_objects_witness :
  let h := {| host_platform := Posix; host_tree := three_models;
              host_import := fun _ => Ok [example_mesh "body" 1 []; example_mesh "lid" 1 []];
              host_import_deselects := fun _ => true;
              host_join := fun _ => Ok (example_mesh "body" 2 []);
              host_render_ok := fun _ => true |} in
  let self := ModelPathM.__init__ Posix "a.obj" "/models/a.obj" "/models/" in
  fst (tryImport h self (cube_world false)) = Ok (None, "succeeded").
Proof.
  apply (tryImport_several_objects
           {| host_platform := Posix; host_tree := three_models;
              host_import := fun _ => Ok [example_mesh "body" 1 []; example_mesh "lid" 1 []];
              host_import_deselects := fun _ => true;
              host_join := fun _ => Ok (example_mesh "body" 2 []);
              host_render_ok := fun _ => true |}
           (ModelPathM.__init__ Posix "a.obj" "/models/a.obj" "/models/")
           (cube_world false) (example_mesh "body" 1 []) (example_mesh "lid" 1 [])
           (example_mesh "body" 2 []) []).
  - reflexivity.
  - reflexivity.
  - reflexivity.
Defined.

(** ** The camera of [shoottarget] *)

(** X16.  For a bounding box from [lo] to [hi] with the dimensions
    [hi - lo], the point the camera looks at is the middle of the box, and
    the camera is put on the line through it along the shoot axis, half a
    dimension beyond the face of the box on the side of the direction: on
    the other axes it has the coordinates of the middle. *)
Theorem camera_beyond_the_box (lo hi : Vector) (direction : shootDirection) :
  let center := bound_box_mean (box_corners lo hi) in
  let dims := vec_sub hi lo in
  let cam := camera_location center dims direction in
  vec_eq center (vec_scale (1 # 2) (vec_add lo hi)) /\
  (axis_coord direction cam ==
   if is_positive direction
   then axis_coord direction hi + axis_coord direction dims / 2
   else axis_coord direction lo - axis_coord direction dims / 2)%Q /\
  (forall other : shootDirection,
     (forall v, axis_coord other v = axis_coord direction v) \/
     (axis_coord other cam == axis_coord other center)%Q).
Proof.
  destruct lo as [[x0 y0] z0], hi as [[x1 y1] z1].
  cbv zeta. unfold bound_box_mean, box_corners, vec_sub, vec_add, vec_scale.
  cbn [fold_left vec_add].
  split; [|split].
  - unfold vec_eq. repeat split; field.
  - destruct direction; cbn [camera_location axis_coord is_positive]; field.
  - intros other.
    destruct direction, other; cbn [camera_location axis_coord];
      first [ left; intros [[vx vy] vz]; reflexivity | right; reflexivity ].
Qed.

(** ** The tiles of [render] go to different files *)

Lemma str_of_int_inj (a b : Z) : Py.str_of_int a = Py.str_of_int b -> a = b.
Proof.
  unfold Py.str_of_int. intros H.
  apply (f_equal NilEmpty.int_of_string) in H. rewrite !NilEmpty.isi in H.
  injection H as H. now apply DecimalZ.to_int_inj.
Qed.

Lemma string_of_uint_no_underscore (d : Decimal.uint) :
  Py.char_in "_" (NilEmpty.string_of_uint d) = false.
Proof. induction d; cbn; [reflexivity | exact IHd ..]. Qed.

Lemma str_of_int_no_underscore (n : Z) : Py.char_in "_" (Py.str_of_int n) = false.
Proof.
  unfold Py.str_of_int. destruct (Z.to_int n) as [d|d]; cbn [NilEmpty.string_of_int].
  - apply string_of_uint_no_underscore.
  - apply (string_of_uint_no_underscore d).
Qed.

Lemma append_inj_l (a x y : string) : a +:+ x = a +:+ y -> x = y.
Proof.
  induction a as [|c a IH]; [now rewrite !append_nil|].
  rewrite !append_cons. intros [= H]. exact (IH H).
Qed.

Lemma split_at_underscore (s s' t t' : string) :
  Py.char_in "_" s = false -> Py.char_in "_" s' = false ->
  s +:+ String "_" t = s' +:+ String "_" t' -> s = s' /\ t = t'.
Proof.
  revert s'. induction s as [|c s IH]; intros [|c' s'] Hs Hs'.
  - rewrite !append_nil. intros [= ->]. auto.
  - rewrite append_nil, append_cons. intros [= <- _].
    unfold Py.char_in in Hs'. cbn in Hs'. discriminate.
  - rewrite append_nil, append_cons. intros [= -> _].
    unfold Py.char_in in Hs. cbn in Hs. discriminate.
  - rewrite !append_cons. intros [= <- H].
    unfold Py.char_in in Hs, Hs'. cbn [list_ascii_of_string existsb] in Hs, Hs'.
    apply orb_false_iff in Hs as [_ Hs]. apply orb_false_iff in Hs' as [_ Hs'].
    destruct (IH s' Hs Hs' H) as [-> ->]. auto.
Qed.

Lemma rndrpath_inj (basepath : string) (row column row' column' : Z) :
  rndrpath basepath row column = rndrpath basepath row' column' ->
  row = row' /\ column = column'.
Proof.
  unfold rndrpath. intros H. apply append_inj_l in H.
  rewrite !append_cons, !append_nil in H. injection H as H.
  apply split_at_underscore in H as [H1 H2]; try apply str_of_int_no_underscore.
  apply str_of_int_inj in H1, H2. lia.
Qed.

Lemma NoDup_flat_map {A B} (f : A -> list B) (l : list A) :
  NoDup l ->
  (forall x, x ∈ l -> NoDup (f x)) ->
  (forall x1 x2 y, x1 ∈ l -> x2 ∈ l -> y ∈ f x1 -> y ∈ f x2 -> x1 = x2) ->
  NoDup (flat_map f l).
Proof.
  induction 1 as [|x l Hx Hl IH]; intros Hf Hdis; cbn [flat_map]; [constructor|].
  apply NoDup_app. split; [apply Hf; left|]. split.
  - intros y Hy Hin. apply list_elem_of_In, in_flat_map in Hin as (x2 & Hx2 & Hy2).
    apply list_elem_of_In in Hx2, Hy2.
    assert (x = x2) as <-; [|contradiction].
    apply (Hdis x x2 y); [left | now right | exact Hy | exact Hy2].
  - apply IH.
    + intros x' Hx'. apply Hf. now right.
    + intros x1 x2 y H1 H2. apply Hdis; now right.
Qed.

Lemma NoDup_range (n : Z) : NoDup (Py.range n).
Proof.
  unfold Py.range. apply (NoDup_fmap_2 Z.of_nat). apply NoDup_ListNoDup, seq_NoDup.
Qed.

Lemma NoDup_grid {A} (px py : Z) (f : Z -> Z -> A) :
  (forall r c r' c', f r c = f r' c' -> r = r' /\ c = c') ->
  NoDup (grid px py f).
Proof.
  intros Hinj. unfold grid. apply NoDup_flat_map.
  - apply NoDup_range.
  - intros row _.
    assert (Hrow : Inj eq eq (f row)) by (intros c c' H; now apply Hinj in H).
    apply (NoDup_fmap_2 (f row)), NoDup_range.
  - intros r r' y _ _ Hy Hy'.
    apply list_elem_of_fmap in Hy as (c & -> & _).
    apply list_elem_of_fmap in Hy' as (c' & H & _).
    now apply Hinj in H.
Qed.

(** X17.  No image of a call of [render] overwrites another: when the
    renders succeed, the images it writes go to pairwise different paths. *)
Theorem render_paths_distinct (h : Host) (wm : WindowManager) (basepath : string)
    (m : Z) (w : World) :
  (forall r, host_render_ok h r = true) ->
  1 <= m ->
  exists w' images,
    render h wm basepath m w = (Ok tt, w') /\
    rendered w' = rendered w ++ images /\
    NoDup (map render_filepath images).
Proof.
  intros Hok Hm.
  destruct (render_run h wm basepath m w Hok ltac:(lia)) as (w' & Hrun & Hrend).
  cbv zeta in Hrend.
  exists w'. eexists. split; [exact Hrun|]. split; [exact Hrend|].
  destruct (_ && _).
  - cbn [map]. apply NoDup_singleton.
  - rewrite map_grid.
    rewrite (grid_ext _ _ _ (rndrpath basepath))
      by (intros row col; apply tile_settings_filepath).
    apply NoDup_grid. apply rndrpath_inj.
Qed.

Lemma render_paths_distinct_witness :
  exists w' images,
    render (example_host Posix three_models []) example_wm "/out/a_Z" 4096
      (empty_world 9000 5000) = (Ok tt, w') /\
    rendered w' = rendered (empty_world 9000 5000) ++ images /\
    NoDup (map render_filepath images).
Proof.
  apply (render_paths_distinct (example_host Posix three_models []) example_wm
           "/out/a_Z" 4096 (empty_world 9000 5000)).
  - reflexivity.
  - lia.
Defined.

(** ** The source path setting after a run *)

(** X18.  A run with at least one direction enabled changes the settings in
    one place at most: the source path gets the path separator appended
    when it does not end with it, so that after the run it does. *)
Theorem main_sourcePath_ends_with_separator (h : Host) (wm : WindowManager) (w : World) :
  orthobatch_shootDirections wm <> [] ->
  Py.endswith (orthobatch_sourcePath (fst (main h wm w))) (os.sep_str (host_platform h))
  = true /\
  (fst (main h wm w) = wm \/
   fst (main h wm w)
   = set_sourcePath wm (orthobatch_sourcePath wm +:+ os.sep_str (host_platform h))).
Proof.
  intros Hdirs. unfold main.
  destruct (orthobatch_shootDirections wm) as [|d dirs]; [contradiction|].
  cbn [length Nat.ltb Nat.leb].
  set (wm' := if negb _ then _ else wm).
  assert (Hwm : Py.endswith (orthobatch_sourcePath wm') (os.sep_str (host_platform h)) = true
                /\ (wm' = wm \/
                    wm' = set_sourcePath wm
                            (orthobatch_sourcePath wm +:+ os.sep_str (host_platform h)))).
  { subst wm'.
    destruct (Py.endswith (orthobatch_sourcePath wm) (os.sep_str (host_platform h))) eqn:E;
      cbn [negb].
    - split; [exact E | now left].
    - split; [|now right]. apply endswith_spec. eexists. destruct wm; reflexivity. }
  destruct (hide_all (scene_objects w) w) as [flags w1].
  destruct (prepareorthocam w1) as [camera w1'].
  destruct (main_try h wm' camera w1') as [[[|]|e] w2]; exact Hwm.
Qed.

Lemma main_sourcePath_ends_with_separator_witness :
  let h := example_host Posix three_models [] in
  Py.endswith (orthobatch_sourcePath (fst (main h example_wm (cube_world false)))) "/" = true /\
  (fst (main h example_wm (cube_world false)) = example_wm \/
   fst (main h example_wm (cube_world false)) = set_sourcePath example_wm "/models/").
Proof.
  apply (main_sourcePath_ends_with_separator (example_host Posix three_models [])
           example_wm (cube_world false)).
  discriminate.
Defined.

(** * Assets, their identifiers and their paths *)

(** ** The last character of a string *)

Lemma string_snoc (s : string) :
  s = EmptyString \/ exists r c, s = r +:+ String c EmptyString.
Proof.
  induction s as [|x s IH]; [now left|]. right.
  destruct IH as [->|(r & c & ->)].
  - exists EmptyString, x. reflexivity.
  - exists (String x r), c. now rewrite append_cons.
Qed.

Lemma snoc_inj (a b : string) (x y : ascii) :
  a +:+ String x EmptyString = b +:+ String y EmptyString -> a = b /\ x = y.
Proof.
  revert b. induction a as [|c a IH]; intros [|d b].
  - rewrite !append_nil. now intros [= ->].
  - rewrite append_nil, append_cons. intros [= -> H]. destruct b; discriminate.
  - rewrite append_nil, append_cons. intros [= -> H]. destruct a; discriminate.
  - rewrite !append_cons. intros [= -> H]. destruct (IH b H) as [-> ->]. auto.
Qed.

Lemma endswith_snoc (r : string) (x c : ascii) :
  Py.endswith (r +:+ String x EmptyString) (String c EmptyString) = Ascii.eqb x c.
Proof.
  destruct (Ascii.eqb_spec x c) as [->|Hne].
  - apply endswith_spec. now exists r.
  - apply Bool.not_true_is_false. intros [stem H]%endswith_spec.
    apply snoc_inj in H as [_ H]. contradiction.
Qed.

Lemma char_in_single (x c : ascii) : Py.char_in x (String c EmptyString) = Ascii.eqb x c.
Proof. unfold Py.char_in. cbn. apply orb_false_r. Qed.

Lemma rstrip_snoc (chars r : string) (x : ascii) :
  Py.rstrip chars (r +:+ String x EmptyString)
  = if Py.char_in x chars then Py.rstrip chars r else r +:+ String x EmptyString.
Proof.
  induction r as [|c r IH].
  - rewrite append_nil. cbn [Py.rstrip]. now destruct (Py.char_in x chars).
  - rewrite append_cons. cbn [Py.rstrip]. rewrite IH.
    destruct (Py.char_in x chars); [reflexivity|].
    now destruct (r +:+ String x EmptyString) eqn:E; [destruct r; discriminate|].
Qed.

Lemma rstrip_unchanged (c : ascii) (r : string) :
  Py.endswith r (String c EmptyString) = false -> Py.rstrip (String c EmptyString) r = r.
Proof.
  destruct (string_snoc r) as [->|(r' & x & ->)]; [reflexivity|].
  rewrite endswith_snoc, rstrip_snoc, char_in_single. now intros ->.
Qed.

Lemma slice_drop_last (r : string) (x : ascii) :
  Py.slice (r +:+ String x EmptyString) None (Some (-1)) = r.
Proof.
  unfold Py.slice, Py.norm_index. cbv zeta. rewrite length_append. cbn [String.length].
  replace (-1 <? 0) with true by reflexivity.
  replace (Z.to_nat (Z.max 0 (-1 + Z.of_nat (String.length r + 1)) - 0))
    with (String.length r) by lia.
  apply substring_append_l.
Qed.

(** One separator at the end, or none: the code's cut of one character is
    the stripping of the separators at the end. *)
Lemma subpathtrimmed_strips (pl : platform) (self : ModelPath) :
  at_most_one_trailing_separator pl (subpath self) ->
  ModelPathM.subpathtrimmed pl self = strip_trailing_separators pl (subpath self).
Proof.
  intros (r & Hr & [E|E]); unfold ModelPathM.subpathtrimmed, strip_trailing_separators;
    rewrite E; unfold os.sep_str in *.
  - rewrite Hr. symmetry. now apply rstrip_unchanged.
  - rewrite endswith_snoc, Ascii.eqb_refl, slice_drop_last, rstrip_snoc, char_in_single,
      Ascii.eqb_refl.
    symmetry. now apply rstrip_unchanged.
Qed.

(** ** Portable names *)

Lemma portable_char_spec (c : ascii) :
  portable_char c = true -> c <> "/"%char /\ c <> "\"%char.
Proof.
  unfold portable_char, Py.char_in. cbn [list_ascii_of_string existsb].
  rewrite andb_true_iff, negb_true_iff, !orb_false_iff, !Ascii.eqb_neq. tauto.
Qed.

Lemma portable_name_cons (n : string) :
  portable_name n = true ->
  exists c r, n = String c r /\ c <> "/"%char /\ c <> "\"%char.
Proof.
  unfold portable_name. destruct n as [|c r]; [discriminate|].
  cbn [list_ascii_of_string forallb negb String.eqb andb].
  intros [Hc _]%andb_true_iff. apply portable_char_spec in Hc. eauto.
Qed.

Lemma portable_name_snoc (n : string) :
  portable_name n = true ->
  exists r c, n = r +:+ String c EmptyString /\ c <> "/"%char.
Proof.
  unfold portable_name. intros [Hne Hall]%andb_true_iff.
  destruct (string_snoc n) as [->|(r & c & ->)]; [discriminate|].
  exists r, c. split; [reflexivity|].
  clear Hne. induction r as [|x r IH].
  - rewrite append_nil in Hall. cbn in Hall. apply andb_true_iff in Hall as [Hc _].
    now apply portable_char_spec in Hc.
  - rewrite append_cons in Hall. cbn [list_ascii_of_string forallb] in Hall.
    apply andb_true_iff in Hall as [_ Hall]. exact (IH Hall).
Qed.

Lemma portable_name_no_slash (n : string) :
  portable_name n = true -> count_char "/" n = 0%nat.
Proof.
  unfold portable_name. intros [_ Hall]%andb_true_iff.
  induction n as [|c n IH]; [reflexivity|].
  cbn [list_ascii_of_string forallb] in Hall. apply andb_true_iff in Hall as [Hc Hall].
  apply portable_char_spec in Hc as [Hc _]. cbn [count_char].
  destruct (Ascii.eqb_spec c "/"); [contradiction|]. now rewrite IH.
Qed.

Lemma startswith_cons (c : ascii) (r : string) (x : ascii) :
  Py.startswith (String c r) (String x EmptyString) = Ascii.eqb c x.
Proof.
  unfold Py.startswith. cbn [String.prefix].
  destruct (ascii_dec x c) as [->|Hne].
  - rewrite Ascii.eqb_refl. now destruct r.
  - symmetry. apply Ascii.eqb_neq. congruence.
Qed.

Lemma startswith_append (a b : string) (x : ascii) :
  a <> EmptyString ->
  Py.startswith (a +:+ b) (String x EmptyString) = Py.startswith a (String x EmptyString).
Proof.
  destruct a as [|c a]; [contradiction|]. intros _.
  now rewrite append_cons, !startswith_cons.
Qed.

Lemma endswith_append (a b : string) (c : ascii) :
  b <> EmptyString ->
  Py.endswith (a +:+ b) (String c EmptyString) = Py.endswith b (String c EmptyString).
Proof.
  intros Hb. destruct (string_snoc b) as [->|(r & x & ->)]; [contradiction|].
  now rewrite <- append_assoc, !endswith_snoc.
Qed.

Lemma endswith_portable (a n : string) :
  portable_name n = true -> Py.endswith (a +:+ n) "/" = false.
Proof.
  intros (r & c & -> & Hc)%portable_name_snoc.
  rewrite <- append_assoc, endswith_snoc. now apply Ascii.eqb_neq.
Qed.

Lemma startswith_portable (n b : string) :
  portable_name n = true -> Py.startswith (n +:+ b) "/" = false.
Proof.
  intros (c & r & -> & Hc & _)%portable_name_cons.
  rewrite append_cons, startswith_cons. now apply Ascii.eqb_neq.
Qed.

(** ** [posixpath.join] on portable names *)

Lemma posix_join_after_slash (path n : string) :
  Py.endswith path "/" = true -> Py.startswith n "/" = false ->
  os.posix_join_step path n = path +:+ n.
Proof.
  intros Hp Hn. unfold os.posix_join_step. rewrite Hn, Hp, orb_true_r. reflexivity.
Qed.

Lemma posix_join_after_name (path n : string) :
  path <> EmptyString -> Py.endswith path "/" = false -> Py.startswith n "/" = false ->
  os.posix_join_step path n = path +:+ "/" +:+ n.
Proof.
  intros Hne Hp Hn. unfold os.posix_join_step. rewrite Hn, Hp.
  destruct (String.eqb_spec path EmptyString); [contradiction | reflexivity].
Qed.

Lemma posix_join_absolute (path p : string) :
  Py.startswith p "/" = true -> os.posix_join_step path p = p.
Proof. intros H. unfold os.posix_join_step. now rewrite H. Qed.

Lemma posix_root_nonempty (b : string) : posix_root b -> b <> EmptyString.
Proof. intros [H _] ->. discriminate. Qed.

Lemma concat_cons_cons (sep n m : string) (ns : list string) :
  String.concat sep (n :: m :: ns) = n +:+ sep +:+ String.concat sep (m :: ns).
Proof. reflexivity. Qed.

Lemma concat_snoc (sep n : string) (ns : list string) :
  ns <> [] -> String.concat sep (ns ++ [n]) = String.concat sep ns +:+ sep +:+ n.
Proof.
  induction ns as [|m ns IH]; [contradiction|]. intros _.
  destruct ns as [|m' ns]; [reflexivity|].
  change ((m :: m' :: ns) ++ [n]) with (m :: (m' :: ns) ++ [n]).
  change ((m' :: ns) ++ [n]) with (m' :: ns ++ [n]) at 1.
  rewrite concat_cons_cons. change (m' :: ns ++ [n]) with ((m' :: ns) ++ [n]).
  rewrite IH by discriminate. rewrite concat_cons_cons.
  now rewrite !append_assoc.
Qed.

Lemma portable_names_nonempty (ns : list string) :
  Forall (fun n => portable_name n = true) ns -> ns <> [] ->
  exists rest n, ns = rest ++ [n] /\ portable_name n = true.
Proof.
  intros Hall Hne. destruct (exists_last Hne) as (rest & n & ->).
  exists rest, n. split; [reflexivity|].
  apply Forall_app in Hall as [_ Hn]. now apply Forall_inv in Hn.
Qed.

Lemma concat_portable_end (ns : list string) (a : string) :
  Forall (fun n => portable_name n = true) ns -> ns <> [] ->
  Py.endswith (a +:+ String.concat "/" ns) "/" = false.
Proof.
  intros Hall Hne.
  destruct (portable_names_nonempty ns Hall Hne) as (rest & n & -> & Hn).
  destruct rest as [|m rest]; [now apply endswith_portable|].
  rewrite concat_snoc by discriminate.
  rewrite <- !append_assoc. now apply endswith_portable.
Qed.

Lemma concat_portable_start (ns : list string) (b : string) :
  Forall (fun n => portable_name n = true) ns -> ns <> [] ->
  Py.startswith (String.concat "/" ns +:+ b) "/" = false.
Proof.
  intros Hall Hne. destruct ns as [|n ns]; [contradiction|].
  apply Forall_cons in Hall as [Hn _].
  destruct ns as [|m ns]; [now apply startswith_portable|].
  rewrite concat_cons_cons, !append_assoc. now apply startswith_portable.
Qed.

(** ** The paths of the walk *)

Section PosixWalk.
Variable b : string.
Hypothesis Hroot : posix_root b.


Lemma posix_path_of_asset (ns : list string) (f : string) :
  Forall (fun n => portable_name n = true) ns -> portable_name f = true ->
  b +:+ String.concat "/" ns <> EmptyString /\
  os.posix_join_step (b +:+ String.concat "/" ns) f = b +:+ posix_folder_part ns +:+ f.
Proof.
  intros Hns Hf. destruct Hroot as [Hstart Hend].
  pose proof (posix_root_nonempty b Hroot) as Hb.
  assert (Hfs : Py.startswith f "/" = false).
  { rewrite <- (append_empty_r f). now apply startswith_portable. }
  split; [destruct b; [contradiction | discriminate]|].
  destruct ns as [|n ns].
  - cbn [String.concat posix_folder_part]. rewrite append_empty_r, append_nil.
    now apply posix_join_after_slash.
  - rewrite posix_join_after_name.
    + unfold posix_folder_part. now rewrite !append_assoc.
    + destruct b; [contradiction | discriminate].
    + now apply concat_portable_end.
    + exact Hfs.
Qed.

Lemma absolutePath_posix (ns : list string) (f : string) :
  Forall (fun n => portable_name n = true) ns -> portable_name f = true ->
  absolutePath Posix b (ns, f) = b +:+ posix_folder_part ns +:+ f.
Proof.
  intros Hns Hf. destruct Hroot as [Hstart Hend].
  unfold absolutePath, relativeSubpath, os.path_join. cbn [fst snd fold_left os.sep_str os.sep].
  rewrite <- (proj2 (posix_path_of_asset ns f Hns Hf)). f_equal.
  destruct ns as [|n ns].
  - cbn [String.concat]. now apply posix_join_after_slash.
  - apply posix_join_after_slash; [exact Hend|].
    rewrite <- (append_empty_r (String.concat "/" (n :: ns))).
    now apply concat_portable_start.
Qed.

Lemma walked_filepath (ns : list string) (f : string) :
  Forall (fun n => portable_name n = true) ns -> portable_name f = true ->
  os.path_join Posix b [b +:+ String.concat "/" ns; f] = absolutePath Posix b (ns, f).
Proof.
  intros Hns Hf. rewrite (absolutePath_posix ns f Hns Hf).
  unfold os.path_join. cbn [fold_left].
  rewrite (posix_join_absolute b).
  - apply (posix_path_of_asset ns f Hns Hf).
  - rewrite startswith_append by (now apply posix_root_nonempty). apply Hroot.
Qed.

Lemma walked_dirpath (ns : list string) (n : string) :
  Forall (fun n => portable_name n = true) ns -> portable_name n = true ->
  os.path_join Posix (b +:+ String.concat "/" ns) [n]
  = b +:+ String.concat "/" (ns ++ [n]).
Proof.
  intros Hns Hn. unfold os.path_join. cbn [fold_left].
  rewrite (proj2 (posix_path_of_asset ns n Hns Hn)).
  destruct ns as [|m ns].
  - now rewrite append_nil.
  - unfold posix_folder_part. rewrite concat_snoc by discriminate.
    now rewrite !append_assoc.
Qed.

End PosixWalk.

Lemma os_walk_folder (pl : platform) (top n : string) (files : list string)
    (dirs : list fsnode) :
  os_walk pl top (Folder n files dirs)
  = (top, map fs_name dirs, files)
    :: flat_map (fun sub => os_walk pl (os.path_join pl top [fs_name sub]) sub) dirs.
Proof.
  cbn [os_walk]. apply (f_equal (cons (top, map fs_name dirs, files))).
  induction dirs as [|sub dirs IH]; [reflexivity|].
  cbn [flat_map]. now rewrite IH.
Qed.

Lemma fsnode_forall_ind (P : fsnode -> Prop) :
  (forall n files dirs, Forall P dirs -> P (Folder n files dirs)) ->
  forall d, P d.
Proof.
  intros HP. fix IH 1. intros [n files dirs]. apply HP.
  induction dirs as [|x xs IHxs]; constructor; [apply IH | exact IHxs].
Qed.

(** ** The identifier of an asset *)

Lemma substring_prefix (m c : string) :
  substring 0 (String.length m) (m +:+ c) = m.
Proof.
  induction m as [|y m IH].
  - rewrite append_nil. now destruct c.
  - rewrite append_cons. cbn [String.length substring]. now rewrite IH.
Qed.

Lemma substring_middle (a m c : string) :
  substring (String.length a) (String.length m) (a +:+ m +:+ c) = m.
Proof.
  induction a as [|x a IH].
  - rewrite append_nil. apply substring_prefix.
  - rewrite append_cons. cbn [String.length substring]. exact IH.
Qed.

Lemma startswith_inv (s : string) (x : ascii) :
  Py.startswith s (String x EmptyString) = true -> exists r, s = String x r.
Proof.
  destruct s as [|c r]; [discriminate|]. rewrite startswith_cons.
  intros ->%Ascii.eqb_eq. now exists r.
Qed.

Lemma endswith_inv (s : string) (x : ascii) :
  Py.endswith s (String x EmptyString) = true -> exists r, s = r +:+ String x EmptyString.
Proof.
  destruct (string_snoc s) as [->|(r & c & ->)]; [discriminate|].
  rewrite endswith_snoc. intros ->%Ascii.eqb_eq. now exists r.
Qed.

Lemma strip_unchanged (c x y : ascii) (r : string) :
  x <> c -> y <> c ->
  Py.strip (String x r +:+ String y EmptyString) (String c EmptyString)
  = String x r +:+ String y EmptyString.
Proof.
  intros Hx Hy. unfold Py.strip. rewrite append_cons. cbn [Py.lstrip].
  rewrite char_in_single. rewrite (proj2 (Ascii.eqb_neq x c) Hx).
  rewrite <- append_cons. apply rstrip_unchanged.
  rewrite endswith_snoc. now apply Ascii.eqb_neq.
Qed.

Lemma strip_posix_root (b : string) : posix_root b -> Py.strip b "\" = b.
Proof.
  intros [(r & ->)%startswith_inv (r' & E)%endswith_inv].
  destruct r' as [|x r'].
  - rewrite append_nil in E. injection E as Hr. subst r. reflexivity.
  - rewrite append_cons in E. injection E as Hx Hr. subst x r.
    rewrite <- append_cons. apply strip_unchanged; discriminate.
Qed.

Lemma concat_head (sep : string) (c : ascii) (r : string) (ns : list string) :
  exists r', String.concat sep (String c r :: ns) = String c r'.
Proof.
  destruct ns as [|m ns]; [now exists r|].
  rewrite concat_cons_cons, append_cons. eauto.
Qed.

Lemma strip_posix_folder_part (ns : list string) :
  Forall (fun n => portable_name n = true) ns ->
  Py.strip (posix_folder_part ns) "\" = posix_folder_part ns.
Proof.
  intros Hns. destruct ns as [|n ns]; [reflexivity|].
  unfold posix_folder_part.
  apply Forall_cons in Hns as [(c & r & -> & _ & Hc)%portable_name_cons _].
  destruct (concat_head "/" c r ns) as (r' & ->).
  apply strip_unchanged; [exact Hc | discriminate].
Qed.

Lemma split_one (n s : string) (c : ascii) :
  count_char c n = 0%nat ->
  Py.split (n +:+ String c s) c = n :: Py.split s c.
Proof.
  induction n as [|x n IH]; intros H.
  - rewrite append_nil. cbn [Py.split]. now rewrite Ascii.eqb_refl.
  - rewrite append_cons. cbn [Py.split]. cbn [count_char] in H.
    destruct (Ascii.eqb x c); [discriminate|]. now rewrite IH.
Qed.

Lemma split_none (n : string) (c : ascii) :
  count_char c n = 0%nat -> Py.split n c = [n].
Proof.
  induction n as [|x n IH]; intros H; [reflexivity|].
  cbn [Py.split]. cbn [count_char] in H.
  destruct (Ascii.eqb x c); [discriminate|]. now rewrite IH.
Qed.

Lemma split_length (s : string) (c : ascii) :
  length (Py.split s c) = S (count_char c s).
Proof.
  induction s as [|x s IH]; [reflexivity|].
  cbn [Py.split count_char]. destruct (Ascii.eqb x c).
  - cbn [length]. now rewrite IH.
  - destruct (Py.split s c) as [|h t]; [discriminate|]. exact IH.
Qed.

Lemma count_char_append (c : ascii) (a b : string) :
  count_char c (a +:+ b) = (count_char c a + count_char c b)%nat.
Proof.
  induction a as [|x a IH]; [now rewrite append_nil|].
  rewrite append_cons. cbn [count_char]. rewrite IH. lia.
Qed.

Lemma split_concat_portable (ns : list string) :
  Forall (fun n => portable_name n = true) ns -> ns <> [] ->
  Py.split (String.concat "/" ns) "/" = ns.
Proof.
  induction ns as [|n ns IH]; [contradiction|]. intros Hall _.
  apply Forall_cons in Hall as [Hn Hns].
  destruct ns as [|m ns].
  - apply split_none. now apply portable_name_no_slash.
  - rewrite concat_cons_cons.
    change (n +:+ "/" +:+ String.concat "/" (m :: ns))
      with (n +:+ String "/" (String.concat "/" (m :: ns))).
    rewrite split_one by now apply portable_name_no_slash.
    f_equal. now apply IH.
Qed.

Lemma folder_depth_relativeSubpath (a : asset) :
  Forall (fun n => portable_name n = true) (fst a) ->
  folder_depth Posix (relativeSubpath Posix a) = asset_depth a.
Proof.
  destruct a as [ns f]. unfold folder_depth, relativeSubpath, asset_depth.
  cbn [fst os.sep_str os.sep]. intros Hns.
  destruct ns as [|n ns]; [reflexivity|].
  rewrite split_concat_portable by (exact Hns || discriminate).
  f_equal. apply forallb_filter_id, forallb_forall. intros m Hm.
  apply list_elem_of_In in Hm. rewrite Forall_forall in Hns.
  specialize (Hns m Hm). unfold portable_name in Hns.
  now apply andb_true_iff in Hns as [-> _].
Qed.

Lemma count_posix_folder_part (ns : list string) :
  Forall (fun n => portable_name n = true) ns ->
  count_char "/" (posix_folder_part ns) = length ns.
Proof.
  induction ns as [|n ns IH]; [reflexivity|]. intros Hall.
  apply Forall_cons in Hall as [Hn Hns]. specialize (IH Hns).
  unfold posix_folder_part in *. destruct ns as [|m ns].
  - cbn [String.concat]. rewrite count_char_append, portable_name_no_slash by exact Hn.
    reflexivity.
  - rewrite concat_cons_cons, !count_char_append, portable_name_no_slash by exact Hn.
    rewrite count_char_append in IH. cbn [length] in *.
    change (count_char "/" "/") with 1%nat in *. lia.
Qed.

Lemma slice_middle (a m c : string) :
  Py.slice (a +:+ m +:+ c) (Some (Z.of_nat (String.length a)))
    (Some (Z.of_nat (String.length (a +:+ m +:+ c) - String.length c)))
  = m.
Proof.
  unfold Py.slice, Py.norm_index. cbv zeta. rewrite !length_append.
  set (la := String.length a). set (lm := String.length m). set (lc := String.length c).
  replace (Z.of_nat la <? 0) with false by (symmetry; apply Z.ltb_ge; lia).
  replace (Z.of_nat (la + (lm + lc) - lc) <? 0) with false by (symmetry; apply Z.ltb_ge; lia).
  rewrite !Z.min_l by lia.
  replace (Z.of_nat (la + (lm + lc) - lc) - Z.of_nat la) with (Z.of_nat lm) by lia.
  rewrite !Nat2Z.id. apply substring_middle.
Qed.

Section PosixIdentifier.
Variable b : string.
Hypothesis Hroot : posix_root b.

(** The fields [__init__] gives the identifier of an asset. *)
Lemma asset_modelpath_posix (ns : list string) (f : string) :
  Forall (fun n => portable_name n = true) ns -> portable_name f = true ->
  first_at_end (absolutePath Posix b (ns, f)) f ->
  asset_modelpath Posix b (ns, f)
  = {| filename := f;
       name := Py.slice f None (Some (Py.rfind f "."));
       extension := Py.slice f (Some (Py.rfind f "." + 1)) None;
       filepath := absolutePath Posix b (ns, f);
       subpath := posix_folder_part ns;
       sourcepathused := b;
       pathminusfilename := b +:+ posix_folder_part ns |}.
Proof.
  intros Hns Hf Hfind. unfold asset_modelpath, ModelPathM.__init__. cbn [snd]. cbv zeta.
  rewrite (strip_posix_root b Hroot).
  unfold first_at_end in Hfind. rewrite Hfind.
  rewrite (absolutePath_posix b Hroot ns f Hns Hf).
  rewrite slice_middle, strip_posix_folder_part by exact Hns.
  f_equal. unfold os.path_join. cbn [fold_left].
  apply posix_join_after_slash; [apply Hroot|].
  destruct ns as [|n ns]; [reflexivity|].
  unfold posix_folder_part. apply concat_portable_start; [exact Hns | discriminate].
Qed.

Lemma folder_count_posix (ns : list string) (f : string) :
  Forall (fun n => portable_name n = true) ns -> portable_name f = true ->
  first_at_end (absolutePath Posix b (ns, f)) f ->
  folder_count Posix (asset_modelpath Posix b (ns, f))
  = (S (count_char "/" b) + asset_depth (ns, f))%nat.
Proof.
  intros Hns Hf Hfind. rewrite (asset_modelpath_posix ns f Hns Hf Hfind).
  unfold folder_count, asset_depth. cbn [pathminusfilename fst os.sep].
  rewrite split_length, count_char_append, count_posix_folder_part by exact Hns.
  reflexivity.
Qed.

(** [__lt__] on the identifiers of two assets is the comparison of their
    keys (folder depth, file name in lower case). *)
Lemma ModelPath_lt_asset_lt (a a' : asset) :
  Forall (fun n => portable_name n = true) (fst a) -> portable_name (snd a) = true ->
  first_at_end (absolutePath Posix b a) (snd a) ->
  Forall (fun n => portable_name n = true) (fst a') -> portable_name (snd a') = true ->
  first_at_end (absolutePath Posix b a') (snd a') ->
  ModelPathM.__lt__ Posix (asset_modelpath Posix b a) (asset_modelpath Posix b a')
  = asset_lt a a'.
Proof.
  destruct a as [ns f], a' as [ns' f']. cbn [fst snd]. intros Hns Hf Hfind Hns' Hf' Hfind'.
  rewrite ModelPath_lt_key.
  rewrite (folder_count_posix ns f Hns Hf Hfind), (folder_count_posix ns' f' Hns' Hf' Hfind').
  unfold lower_name, asset_lt.
  rewrite (asset_modelpath_posix ns f Hns Hf Hfind).
  rewrite (asset_modelpath_posix ns' f' Hns' Hf' Hfind').
  cbn [filename snd].
  set (k := S (count_char "/" b)).
  replace ((k + asset_depth (ns, f)) =? (k + asset_depth (ns', f')))%nat
    with (asset_depth (ns, f) =? asset_depth (ns', f'))%nat.
  2:{ destruct (Nat.eqb_spec (asset_depth (ns, f)) (asset_depth (ns', f')));
      symmetry; [apply Nat.eqb_eq | apply Nat.eqb_neq]; lia. }
  replace ((k + asset_depth (ns, f)) <? (k + asset_depth (ns', f')))%nat
    with (asset_depth (ns, f) <? asset_depth (ns', f'))%nat.
  2:{ destruct (Nat.ltb_spec (asset_depth (ns, f)) (asset_depth (ns', f')));
      symmetry; [apply Nat.ltb_lt | apply Nat.ltb_ge]; lia. }
  reflexivity.
Qed.

End PosixIdentifier.

(** ** The walk finds the assets of the tree *)

Lemma portable_tree_folder (n : string) (files : list string) (dirs : list fsnode) :
  portable_tree (Folder n files dirs) = true ->
  Forall (fun f => portable_name f = true) files /\
  Forall (fun sub => portable_name (fs_name sub) = true /\ portable_tree sub = true) dirs.
Proof.
  cbn [portable_tree]. intros [Hf Hd]%andb_true_iff. split.
  - apply Forall_forall. intros f Hin%list_elem_of_In.
    rewrite forallb_forall in Hf. now apply Hf.
  - apply Forall_forall. intros sub Hin%list_elem_of_In.
    rewrite forallb_forall in Hd. specialize (Hd sub Hin).
    now apply andb_true_iff in Hd.
Qed.

Lemma assets_of_portable (tree : fsnode) :
  portable_tree tree = true ->
  Forall (fun a => Forall (fun n => portable_name n = true) (fst a)
                   /\ portable_name (snd a) = true) (assets_of tree).
Proof.
  induction tree as [n files dirs IH] using fsnode_forall_ind.
  intros [Hfiles Hdirs]%portable_tree_folder. cbn [assets_of].
  apply Forall_app. split.
  - induction Hfiles as [|f files Hf Hfiles IHf]; cbn [map]; constructor; auto.
  - induction Hdirs as [|sub dirs [Hn Hsub] Hdirs IHd]; cbn [flat_map]; [constructor|].
    apply Forall_cons in IH as [IHsub IHdirs].
    apply Forall_app. split; [|now apply IHd].
    specialize (IHsub Hsub). clear - IHsub Hn.
    induction IHsub as [|a l [Ha1 Ha2] _ IHl]; cbn [map]; constructor; [|exact IHl].
    cbn [fst snd]. split; [now constructor | exact Ha2].
Qed.

Section PosixDiscovery.
Variables (b : string) (extensions : list string).
Hypothesis Hroot : posix_root b.

Lemma walk_assets (tree : fsnode) :
  portable_tree tree = true ->
  forall ns, Forall (fun n => portable_name n = true) ns ->
  flat_map
    (fun '(subdir, _, files) =>
       map (fun file => ModelPathM.__init__ Posix file
                          (os.path_join Posix b [subdir; file]) b)
         (List.filter (fun file => Py.endswith_any file extensions) files))
    (os_walk Posix (b +:+ String.concat "/" ns) tree)
  = map (asset_modelpath Posix b)
      (List.filter (fun a => Py.endswith_any (snd a) extensions)
         (map (fun a => (ns ++ fst a, snd a)) (assets_of tree))).
Proof.
  induction tree as [n files dirs IH] using fsnode_forall_ind.
  intros [Hfiles Hdirs]%portable_tree_folder ns Hns.
  rewrite os_walk_folder. cbn [flat_map assets_of].
  rewrite map_app, List.filter_app, map_app. f_equal.
  - clear IH Hdirs. induction Hfiles as [|f files Hf Hfiles IHf]; [reflexivity|].
    cbn [map List.filter fst snd]. destruct (Py.endswith_any f extensions); [|exact IHf].
    cbn [map]. rewrite IHf. f_equal.
    unfold asset_modelpath. cbn [snd]. rewrite app_nil_r.
    now rewrite (walked_filepath b Hroot ns f Hns Hf).
  - induction Hdirs as [|sub dirs [Hn Hsub] Hdirs IHd]; [reflexivity|].
    apply Forall_cons in IH as [IHsub IHdirs].
    cbn [flat_map]. rewrite flat_map_app, map_app, List.filter_app, map_app.
    rewrite (IHd IHdirs). f_equal.
    rewrite (walked_dirpath b Hroot ns (fs_name sub) Hns Hn).
    rewrite (IHsub Hsub (ns ++ [fs_name sub])).
    + rewrite map_map. cbn [fst snd].
      do 2 f_equal. apply map_ext. intros a. now rewrite <- app_assoc.
    + apply Forall_app. split; [exact Hns | now constructor].
Qed.

(** Discovery on a POSIX tree of portable names: the identifiers of the
    assets of the tree that have an allowed ending, folder by folder. *)
Lemma getAllModelPaths_assets (tree : fsnode) :
  portable_tree tree = true ->
  getAllModelPaths Posix tree b extensions
  = map (asset_modelpath Posix b)
      (List.filter (fun a => Py.endswith_any (snd a) extensions) (assets_of tree)).
Proof.
  intros Htree. rewrite getAllModelPaths_flat_map.
  pose proof (walk_assets tree Htree [] (Forall_nil_2 _)) as H.
  cbn [String.concat] in H. rewrite append_empty_r in H. rewrite H.
  do 2 f_equal. rewrite <- (map_id (assets_of tree)) at 2.
  apply map_ext. now intros [ns f].
Qed.

End PosixDiscovery.

(** ** The subpath of an identifier ends with one separator at most *)

Lemma rstrip_not_endswith (c : ascii) (s : string) :
  Py.endswith (Py.rstrip (String c EmptyString) s) (String c EmptyString) = false.
Proof.
  induction s as [|x s IH]; [reflexivity|].
  cbn [Py.rstrip]. destruct (Py.rstrip (String c EmptyString) s) as [|d r] eqn:E.
  - rewrite char_in_single. destruct (Ascii.eqb x c) eqn:Ex; [reflexivity|].
    change (String x EmptyString) with (EmptyString +:+ String x EmptyString).
    now rewrite endswith_snoc.
  - change (String x (String d r)) with (String x EmptyString +:+ String d r).
    rewrite endswith_append by discriminate. exact IH.
Qed.

Lemma windows_subpath_stripped (file path source : string) :
  at_most_one_trailing_separator Windows
    (subpath (ModelPathM.__init__ Windows file path source)).
Proof.
  exists (subpath (ModelPathM.__init__ Windows file path source)).
  split; [|now left]. apply rstrip_not_endswith.
Qed.

Lemma posix_subpath_of_asset (b : string) (ns : list string) (f : string) :
  posix_root b ->
  Forall (fun n => portable_name n = true) ns -> portable_name f = true ->
  first_at_end (absolutePath Posix b (ns, f)) f ->
  at_most_one_trailing_separator Posix (subpath (asset_modelpath Posix b (ns, f))) /\
  strip_trailing_separators Posix (subpath (asset_modelpath Posix b (ns, f)))
  = relativeSubpath Posix (ns, f).
Proof.
  intros Hroot Hns Hf Hfind.
  rewrite (asset_modelpath_posix b Hroot ns f Hns Hf Hfind). cbn [subpath].
  unfold relativeSubpath, strip_trailing_separators, posix_folder_part.
  cbn [fst os.sep_str os.sep].
  destruct ns as [|n ns].
  - split; [|reflexivity]. exists EmptyString. split; [reflexivity | now left].
  - assert (Hend : Py.endswith (String.concat "/" (n :: ns)) "/" = false).
    { rewrite <- (append_nil (String.concat "/" (n :: ns))).
      apply concat_portable_end; [exact Hns | discriminate]. }
    split.
    + exists (String.concat "/" (n :: ns)). split; [exact Hend | now right].
    + change (os.sep_str Posix) with "/". rewrite rstrip_snoc, char_in_single, Ascii.eqb_refl.
      now apply rstrip_unchanged.
Qed.

(** ** Export paths: C6 *)

(** C6.  [imageExportPath] is the destination path of the specification
    for every identifier whose subpath has no separator at its end, or one
    (the identifiers [__init__] makes on POSIX carry one): [flatten] joins
    the root with [suffixed(name)], [keeppath] with the relative subpath
    and [suffixed(name)], [flatten_pathname] with [suffixed] of the relative
    subpath with underscores for separators, ["_"] and the name,
    [flatten_foldername] with [suffixed] of the last component of the
    relative subpath; the relative subpath is the subpath with the
    separators at its end stripped.  Every identifier [__init__] makes on
    Windows has such a subpath, and so has the identifier of every asset
    found on POSIX, where the stripped subpath is the path of folder names
    from the root to the folder of the asset.  For the name [cube] and direction [Z],
    [flatten] gives [cube_Z] with [append] and [Z_cube] with [prepend]; for
    [cube.obj] in [props/big] the four modes give [cube_Z],
    [props/big/cube_Z], [props_big_cube_Z] and [big_Z]. *)
Theorem C6_imageExportPath_destinationPath (pl : platform) (self : ModelPath)
    (direction exportpath : string) (mode : exportPathMode) (placement : exportNameMode) :
  at_most_one_trailing_separator pl (subpath self) ->
  ModelPathM.imageExportPath pl self direction exportpath mode placement
    = destinationPath pl self direction exportpath mode placement /\
  (forall d n, suffixed prepend d n = d +:+ "_" +:+ n) /\
  (forall d n, suffixed append d n = n +:+ "_" +:+ d) /\
  (forall file path source,
     at_most_one_trailing_separator Windows
       (subpath (ModelPathM.__init__ Windows file path source))) /\
  (forall sourceRoot folders file,
     posix_root sourceRoot ->
     Forall (fun n => portable_name n = true) folders -> portable_name file = true ->
     first_at_end (absolutePath Posix sourceRoot (folders, file)) file ->
     let id := asset_modelpath Posix sourceRoot (folders, file) in
     at_most_one_trailing_separator Posix (subpath id) /\
     strip_trailing_separators Posix (subpath id) = relativeSubpath Posix (folders, file)) /\
  (let cube := ModelPathM.__init__ Posix "cube.obj" "/models/props/big/cube.obj"
                 "/models/" in
   subpath cube = "props/big/" /\
   destinationPath Posix cube "Z" "/out/" flatten append = "/out/cube_Z" /\
   destinationPath Posix cube "Z" "/out/" flatten prepend = "/out/Z_cube" /\
   destinationPath Posix cube "Z" "/out/" keeppath append = "/out/props/big/cube_Z" /\
   destinationPath Posix cube "Z" "/out/" flatten_pathname append
     = "/out/props_big_cube_Z" /\
   destinationPath Posix cube "Z" "/out/" flatten_foldername append = "/out/big_Z") /\
  (let cube := ModelPathM.__init__ Windows "cube.obj" "C:\models\props\big\cube.obj"
                 "C:\models\" in
   subpath cube = "props\big" /\
   destinationPath Windows cube "Z" "C:\out\" flatten append = "C:\out\cube_Z" /\
   destinationPath Windows cube "Z" "C:\out\" flatten prepend = "C:\out\Z_cube" /\
   destinationPath Windows cube "Z" "C:\out\" keeppath append
     = "C:\out\props\big\cube_Z" /\
   destinationPath Windows cube "Z" "C:\out\" flatten_pathname append
     = "C:\out\props_big_cube_Z" /\
   destinationPath Windows cube "Z" "C:\out\" flatten_foldername append = "C:\out\big_Z").
Proof.
  intros Hwf. split; [|split; [reflexivity|split; [reflexivity|split; [|split]]]].
  - unfold ModelPathM.imageExportPath, destinationPath.
    rewrite (subpathtrimmed_strips pl self Hwf).
    destruct mode; rewrite ?suffixName_suffixed; try reflexivity.
    + now rewrite split_last.
    + now rewrite replace_underscored.
  - apply windows_subpath_stripped.
  - intros sourceRoot folders file Hroot Hfolders Hfile Hfind.
    now apply posix_subpath_of_asset.
  - split; repeat split.
Qed.

Lemma C6_witness :
  let cube := ModelPathM.__init__ Posix "cube.obj" "/models/props/big/cube.obj" "/models/" in
  at_most_one_trailing_separator Posix (subpath cube) /\
  ModelPathM.imageExportPath Posix cube "Z" "/out/" flatten_foldername append
  = destinationPath Posix cube "Z" "/out/" flatten_foldername append.
Proof.
  assert (H : at_most_one_trailing_separator Posix
                (subpath (ModelPathM.__init__ Posix "cube.obj" "/models/props/big/cube.obj"
                            "/models/"))).
  { exists "props/big". split; [reflexivity | right; reflexivity]. }
  split; [exact H|].
  exact (proj1 (C6_imageExportPath_destinationPath Posix
                  (ModelPathM.__init__ Posix "cube.obj" "/models/props/big/cube.obj"
                     "/models/")
                  "Z" "/out/" flatten_foldername append H)).
Defined.

(** * Ordering of the discovered assets: C5 *)

(** ** Sorting the identifiers is sorting the assets *)

Lemma insert_sorted_map {A B : Type} (f : A -> B) (lt : B -> B -> bool)
    (lt' : A -> A -> bool) (x : A) (l : list A) :
  (forall y, In y l -> lt (f x) (f y) = lt' x y) ->
  insert_sorted lt (f x) (map f l) = map f (insert_sorted lt' x l).
Proof.
  induction l as [|y l IH]; intros H; [reflexivity|].
  cbn [map insert_sorted]. rewrite (H y (or_introl eq_refl)).
  destruct (lt' x y); [reflexivity|].
  cbn [map]. f_equal. apply IH. intros z Hz. apply H. now right.
Qed.

Lemma sorted_map {A B : Type} (f : A -> B) (lt : B -> B -> bool)
    (lt' : A -> A -> bool) (P : A -> Prop) (l : list A) :
  (forall x y, P x -> P y -> lt (f x) (f y) = lt' x y) ->
  Forall P l ->
  sorted lt (map f l) = map f (sorted lt' l).
Proof.
  intros Hlt. unfold sorted.
  change (@nil B) with (map f []).
  assert (Hacc : Forall P (@nil A)) by constructor.
  revert Hacc. generalize (@nil A) as acc.
  induction l as [|x l IH]; intros acc Hacc Hl; [reflexivity|].
  apply Forall_cons in Hl as [Hx Hl]. cbn [map fold_left].
  rewrite (insert_sorted_map f lt lt').
  - apply IH; [|exact Hl]. now apply insert_sorted_Forall.
  - intros y Hy. apply Hlt; [exact Hx|].
    rewrite Forall_forall in Hacc. apply Hacc. now apply list_elem_of_In.
Qed.

(** Two sorted lists with the same elements agree when no two different
    elements tie. *)
Lemma sorted_unique {A : Type} (lt : A -> A -> bool) (l1 l2 : list A) :
  l1 ≡ₚ l2 ->
  StronglySorted (not_after lt) l1 -> StronglySorted (not_after lt) l2 ->
  (forall a b, In a l1 -> In b l1 -> lt a b = false -> lt b a = false -> a = b) ->
  l1 = l2.
Proof.
  revert l2. induction l1 as [|a t1 IH]; intros l2 Hperm Hs1 Hs2 Htot.
  - now apply Permutation_nil in Hperm.
  - destruct l2 as [|c t2]; [now apply Permutation_sym, Permutation_nil in Hperm|].
    apply StronglySorted_inv in Hs1 as [Hs1 Ha].
    apply StronglySorted_inv in Hs2 as [Hs2 Hc].
    rewrite List.Forall_forall in Ha, Hc. unfold not_after in Ha, Hc.
    assert (Hca : In c (a :: t1)).
    { apply (Permutation_in c (Permutation_sym Hperm)). now left. }
    assert (Hac : In a (c :: t2)).
    { apply (Permutation_in a Hperm). now left. }
    assert (E : a = c).
    { destruct Hca as [E|Hca]; [exact E|].
      destruct Hac as [E|Hac]; [now symmetry|].
      apply Htot; [now left | now right | now apply Hc | now apply Ha]. }
    subst c. f_equal. apply IH; [now apply Permutation_cons_inv in Hperm | exact Hs1 | exact Hs2|].
    intros x y Hx Hy. apply Htot; now right.
Qed.

Lemma filter_Permutation {A : Type} (p : A -> bool) (l1 l2 : list A) :
  l1 ≡ₚ l2 -> List.filter p l1 ≡ₚ List.filter p l2.
Proof.
  induction 1 as [|x l1 l2 _ IH|x y l|l1 l2 l3 _ IH1 _ IH2]; cbn [List.filter].
  - constructor.
  - destruct (p x); [now constructor | exact IH].
  - destruct (p x), (p y); solve [reflexivity | constructor].
  - now transitivity (List.filter p l2).
Qed.

(** ** The order of the key (folder depth, file name in lower case) *)

Lemma asset_lt_asym (a b : asset) : asset_lt a b = true -> asset_lt b a = false.
Proof.
  unfold asset_lt. intros H. lt_cases; try lia. now apply str_lt_asym.
Qed.

Lemma asset_lt_trans (a b c : asset) :
  asset_lt a b = true -> asset_lt b c = true -> asset_lt a c = true.
Proof.
  unfold asset_lt. intros H1 H2. lt_cases; try lia.
  eapply str_lt_trans; eassumption.
Qed.

Lemma asset_lt_negtrans (a b c : asset) :
  asset_lt a c = true -> asset_lt a b = true \/ asset_lt b c = true.
Proof.
  unfold asset_lt. intros H.
  destruct (Nat.lt_trichotomy (asset_depth a) (asset_depth b)) as [Hab|[Hab|Hab]];
    destruct (Nat.lt_trichotomy (asset_depth b) (asset_depth c)) as [Hbc|[Hbc|Hbc]];
    lt_cases; try lia;
    first [ now apply str_lt_negtrans
          | left; apply Nat.ltb_lt; lia
          | right; apply Nat.ltb_lt; lia ].
Qed.

Lemma ties_asset_key (a b : asset) :
  ties asset_lt a b = bool_decide (asset_key a = asset_key b).
Proof.
  unfold ties, asset_lt, asset_key.
  destruct (Nat.eqb_spec (asset_depth a) (asset_depth b)) as [E|E].
  - rewrite E, Nat.eqb_refl.
    destruct (decide (Py.lower (snd a) = Py.lower (snd b))) as [E'|Hne].
    + rewrite E', str_lt_irrefl. symmetry. now apply bool_decide_eq_true.
    + transitivity false; [|symmetry; apply bool_decide_eq_false; congruence].
      destruct (Py.str_lt (Py.lower (snd a)) (Py.lower (snd b))) eqn:E1; [reflexivity|].
      destruct (Py.str_lt (Py.lower (snd b)) (Py.lower (snd a))) eqn:E2; [reflexivity|].
      exfalso. apply Hne. now apply str_lt_total.
  - destruct (Nat.eqb_spec (asset_depth b) (asset_depth a)) as [E'|_]; [congruence|].
    transitivity false; [|symmetry; apply bool_decide_eq_false; congruence].
    destruct (asset_depth a <? asset_depth b)%nat eqn:E1; [reflexivity|].
    destruct (asset_depth b <? asset_depth a)%nat eqn:E2; [reflexivity|].
    lt_cases. lia.
Qed.

(** ** The sorted order of the discovered assets *)

(** C5 (as the code has it).  On POSIX, for a source root that is absolute and ends
    with the separator and a tree of portable names in which the name of no
    file occurs earlier in its path, [sorted] with [__lt__] orders the
    discovered assets by the key (folder depth of the relative subpath, file
    name in lower case): [getAllModelPaths] yields the identifiers of the
    assets of the tree, whose depth is the folder depth of their relative
    subpath; of two assets of different depth the shallower is less whatever
    the names; at equal depth the comparison of the lower-case names
    decides; the sorted list is the list of assets sorted by that key, a
    permutation in which an earlier asset is never deeper and, at equal
    depth, never has the greater name; assets with the same key keep the
    order in which they were found; and when no two assets have the same
    key, a tree that lists the same assets in another order gives the same
    sorted list. *)
Theorem C5_sorted_by_depth_then_name (b : string) (tree : fsnode)
    (extensions : list string) :
  posix_root b ->
  portable_tree tree = true ->
  let assets :=
    List.filter (fun a => Py.endswith_any (snd a) extensions) (assets_of tree) in
  Forall (fun a => first_at_end (absolutePath Posix b a) (snd a)) assets ->
  let identifier := asset_modelpath Posix b in
  let found := getAllModelPaths Posix tree b extensions in
  let s := sorted (ModelPathM.__lt__ Posix) found in
  found = map identifier assets /\
  Forall (fun a => folder_depth Posix (relativeSubpath Posix a) = asset_depth a /\
                   filename (identifier a) = snd a /\
                   filepath (identifier a) = absolutePath Posix b a) assets /\
  (forall a a', In a assets -> In a' assets ->
     (asset_depth a < asset_depth a')%nat ->
     ModelPathM.__lt__ Posix (identifier a) (identifier a') = true /\
     ModelPathM.__lt__ Posix (identifier a') (identifier a) = false) /\
  (forall a a', In a assets -> In a' assets ->
     asset_depth a = asset_depth a' ->
     ModelPathM.__lt__ Posix (identifier a) (identifier a')
     = Py.str_lt (Py.lower (snd a)) (Py.lower (snd a'))) /\
  s = map identifier (sorted asset_lt assets) /\
  sorted asset_lt assets ≡ₚ assets /\
  (forall (i j : nat) (a a' : asset),
     (i < j)%nat ->
     sorted asset_lt assets !! i = Some a -> sorted asset_lt assets !! j = Some a' ->
     (asset_depth a <= asset_depth a')%nat /\
     (asset_depth a = asset_depth a' ->
      Py.str_lt (Py.lower (snd a')) (Py.lower (snd a)) = false)) /\
  (forall x,
     List.filter (fun a => bool_decide (asset_key x = asset_key a)) (sorted asset_lt assets)
     = List.filter (fun a => bool_decide (asset_key x = asset_key a)) assets) /\
  (forall tree',
     portable_tree tree' = true ->
     assets_of tree' ≡ₚ assets_of tree ->
     (forall a a', In a assets -> In a' assets -> asset_key a = asset_key a' -> a = a') ->
     sorted (ModelPathM.__lt__ Posix) (getAllModelPaths Posix tree' b extensions) = s).
Proof.
  intros Hroot Htree assets Hfind identifier found s.
  set (good := fun a : asset =>
         Forall (fun n => portable_name n = true) (fst a) /\ portable_name (snd a) = true /\
         first_at_end (absolutePath Posix b a) (snd a)).
  assert (Hgood_of : forall tr, portable_tree tr = true ->
            List.filter (fun a => Py.endswith_any (snd a) extensions) (assets_of tr) ≡ₚ assets ->
            Forall good (List.filter (fun a => Py.endswith_any (snd a) extensions)
                           (assets_of tr))).
  { intros tr Htr Hperm. apply List.Forall_forall. intros a Ha.
    pose proof (assets_of_portable tr Htr) as Hp. rewrite List.Forall_forall in Hp.
    destruct (Hp a (proj1 (proj1 (filter_In _ _ _) Ha))) as [Hp1 Hp2].
    split; [exact Hp1|]. split; [exact Hp2|].
    rewrite List.Forall_forall in Hfind. apply Hfind.
    now apply (Permutation_in a Hperm). }
  assert (Hgood : Forall good assets) by (apply Hgood_of; [exact Htree | reflexivity]).
  assert (Hlt : forall a a', good a -> good a' ->
            ModelPathM.__lt__ Posix (identifier a) (identifier a') = asset_lt a a').
  { intros a a' (H1 & H2 & H3) (H1' & H2' & H3').
    now apply ModelPath_lt_asset_lt. }
  assert (Hfound : found = map identifier assets)
    by (apply getAllModelPaths_assets; assumption).
  assert (Hs : s = map identifier (sorted asset_lt assets)).
  { unfold s. rewrite Hfound. now apply (sorted_map identifier _ asset_lt good). }
  rewrite List.Forall_forall in Hgood.
  split; [exact Hfound|]. split; [|split; [|split; [|split; [exact Hs|split; [|split; [|split]]]]]].
  - apply List.Forall_forall. intros [ns f] Ha.
    destruct (Hgood _ Ha) as (H1 & H2 & H3). cbn [fst snd] in H1, H2, H3.
    split; [now apply folder_depth_relativeSubpath|].
    unfold identifier. rewrite (asset_modelpath_posix b Hroot ns f H1 H2 H3). split; reflexivity.
  - intros a a' Ha Ha' Hd.
    rewrite !Hlt by (apply Hgood; assumption). unfold asset_lt.
    split; lt_cases; lia.
  - intros a a' Ha Ha' Hd.
    rewrite Hlt by (apply Hgood; assumption). unfold asset_lt.
    now rewrite Hd, Nat.eqb_refl.
  - apply sorted_perm.
  - intros i j a a' Hij Hi Hj.
    pose proof (sorted_lookup_order asset_lt asset_lt_asym asset_lt_trans
                  assets i j a a' Hij Hi Hj) as H.
    unfold asset_lt in H. lt_cases; split; intros; try lia; try congruence.
  - intros x.
    rewrite <- (filter_ext (ties asset_lt x) _ (ties_asset_key x) (sorted asset_lt assets)).
    rewrite <- (filter_ext (ties asset_lt x) _ (ties_asset_key x) assets).
    apply sorted_stable;
      [apply asset_lt_asym | apply asset_lt_trans | apply asset_lt_negtrans].
  - intros tree' Htree' Hperm Hdistinct.
    assert (Hperm' : List.filter (fun a => Py.endswith_any (snd a) extensions) (assets_of tree')
                     ≡ₚ assets) by now apply filter_Permutation.
    rewrite (getAllModelPaths_assets b extensions Hroot tree' Htree').
    fold identifier.
    rewrite (sorted_map identifier _ asset_lt good _ Hlt (Hgood_of tree' Htree' Hperm')).
    rewrite Hs. f_equal.
    apply (sorted_unique asset_lt).
    + now rewrite !sorted_perm.
    + apply sorted_sorted; [apply asset_lt_asym | apply asset_lt_trans].
    + apply sorted_sorted; [apply asset_lt_asym | apply asset_lt_trans].
    + intros a a' Ha Ha' H1 H2.
      assert (Hin : forall x, In x (sorted asset_lt
                      (List.filter (fun a => Py.endswith_any (snd a) extensions)
                         (assets_of tree'))) -> In x assets).
      { intros x Hx. apply (Permutation_in x Hperm').
        apply (Permutation_in x (sorted_perm asset_lt _)). exact Hx. }
      apply Hdistinct; [now apply Hin | now apply Hin|].
      apply (bool_decide_eq_true_1 (asset_key a = asset_key a')).
      rewrite <- ties_asset_key. unfold ties. now rewrite H1, H2.
Qed.

(** The tree [nested_models] under [/models/]: [z.obj] in the root comes
    before [sub/a.obj]. *)
Lemma C5_witness :
  map filepath
    (sorted (ModelPathM.__lt__ Posix)
       (getAllModelPaths Posix nested_models "/models/" VALID_IMPORT_EXTENSIONS))
  = map (absolutePath Posix "/models/") [([], "z.obj"); (["sub"], "a.obj")]
  /\ map (absolutePath Posix "/models/") [([], "z.obj"); (["sub"], "a.obj")]
     = ["/models/z.obj"; "/models/sub/a.obj"].
Proof.
  split; [|reflexivity].
  assert (Hroot : posix_root "/models/") by (split; reflexivity).
  assert (Htree : portable_tree nested_models = true) by reflexivity.
  assert (Hfind : Forall (fun a => first_at_end (absolutePath Posix "/models/" a) (snd a))
                    (List.filter (fun a => Py.endswith_any (snd a) VALID_IMPORT_EXTENSIONS)
                       (assets_of nested_models)))
    by (repeat constructor).
  destruct (C5_sorted_by_depth_then_name "/models/" nested_models VALID_IMPORT_EXTENSIONS
              Hroot Htree Hfind) as (_ & _ & _ & _ & Hs & _).
  rewrite Hs. reflexivity.
Defined.

(** * The import loop: C8 *)

(** ** Computations that return *)






(** ** One shot *)




(** ** One object, every direction *)



(** ** The import of one model *)


(** ** The loop over the models *)





(** Two objects that cannot be joined: the import is reported as failed,
    and the two objects stay in the scene. *)
Example failed_join_leaves_objects :
  let h := {| host_platform := Posix;
              host_tree := three_models;
              host_import := fun _ => Ok [example_mesh "body" 1 []; example_mesh "lid" 1 []];
              host_import_deselects := fun _ => true;
              host_join := fun _ => Raise (HostError "cannot join");
              host_render_ok := fun _ => true |} in
  let mp := ModelPathM.__init__ Posix "a.obj" "/models/a.obj" "/models/" in
  answer_of h mp = Some (Failed "FAILED: cannot join") /\
  fst (tryImport h mp cube_world_with_camera) = Ok (None, "FAILED: cannot join") /\
  obj_name <$> objects (snd (tryImport h mp cube_world_with_camera)) !! 2%nat = Some "body" /\
  obj_name <$> objects (snd (tryImport h mp cube_world_with_camera)) !! 3%nat = Some "lid".
Proof. repeat split. Qed.
